(** * AI Model Playground: the multi-provider streaming comparison engine

    A shallow embedding of the backend services of the repository

      - [backend/src/ai-provider/langchain.service.ts]   (module [LangChain])
      - [backend/src/database/database.module.ts]        (module [Database])
      - [backend/src/comparison/comparison.service.ts]   (modules [Comparison]
                                                          and [ComparisonService])
      - [backend/src/auth/auth.service.ts]               (module [AuthService])
      - [backend/src/comparison/comparison.gateway.ts]   (module [Gateway], the
                                                          record of observers)
      - [frontend/src/hooks/useWebSocket.ts]             (module [Utils],
                                                          [truncateText])

    together with the properties the specification states about them, and
    further properties of the same code.

    Conventions of the embedding.
      - JavaScript strings are [string]s whose characters are code units in
        the range 0..255.
      - Integer-valued JavaScript numbers (token counts, milliseconds) are [Z];
        the other numbers (prices, costs, averages) are exact rationals [Q].
        The two roundings [Math.ceil (words * 1.3)] and
        [Math.ceil (characters / 3.5)] agree with the rational ones for every
        length a string can have: the constant 1.3 is stored with a relative
        error below 2^-54, so a product [n * 1.3] whose exact value is an
        integer is rounded to that integer, any other exact value is at
        least 1/10 away from an integer, and [n / 3.5] is correctly rounded
        with 3.5 exact.
      - The repository (TypeORM over SQLite) is a pair of tables. In the
        orchestration every call the service awaits can be rejected, and a
        write the service does not wait for is in flight until the
        repository applies it: which calls are rejected, the time each
        update writes to [updatedAt], and when and in which order the writes
        in flight land is chosen by the environment ([Comparison.Io]), and
        the statements say for which environments they hold. A write
        nothing waits for is taken not to be rejected (its rejection is
        handled nowhere). A call leaves the repository as it is when its
        promise settles ([atReturn]) and as it is once every write has
        landed ([final]).
      - The provider SDK is a black box: every invocation is described by an
        [SdkRun] value chosen by the environment. The order in which the
        concurrent invocations make progress is chosen by a schedule, and
        every statement holds for all schedules. The callbacks handed in by
        the caller do not throw.
      - The table of users is a list of rows; the gateway's record of
        observers is a finite map from session keys to finite sets of client
        keys, and [client.join] either succeeds or throws. *)

From Stdlib Require Import ZArith QArith Qround Ascii.
From Stdlib Require String.
From stdpp Require Import base option list gmap strings sorting.

Open Scope Z_scope.

(** ** JavaScript string primitives used by the services *)

Module Js.

(** [WhiteSpace] and [LineTerminator] code units below 256: this is the class
    [\s] of regular expressions and the class removed by [trim]. *)
Definition isWhiteSpace (c : ascii) : bool :=
  let n := N_of_ascii c in
  ((9 <=? n) && (n <=? 13) || (n =? 32) || (n =? 160))%N.

Fixpoint trimStart (s : string) : string :=
  match s with
  | EmptyString => EmptyString
  | String c s' => if isWhiteSpace c then trimStart s' else s
  end.

Fixpoint trimEnd (s : string) : string :=
  match s with
  | EmptyString => EmptyString
  | String c s' =>
      match trimEnd s' with
      | EmptyString => if isWhiteSpace c then EmptyString else String c EmptyString
      | t => String c t
      end
  end.

(** [s.trim()] *)
Definition trim (s : string) : string := trimEnd (trimStart s).

(** [s.split(/\s+/)] after the piece [cur] (kept reversed) has been read;
    [inSep] tells that the previous character belonged to a separator. A
    separator is a maximal run of white space; a leading or trailing run
    leaves an empty piece, and the empty string splits into one empty piece. *)
Fixpoint splitGo (s : string) (cur : string) (inSep : bool) : list string :=
  match s with
  | EmptyString => [String.rev cur]
  | String c s' =>
      if isWhiteSpace c
      then (if inSep then splitGo s' cur true
            else String.rev cur :: splitGo s' EmptyString true)
      else splitGo s' (String c cur) false
  end.

Definition splitWhiteSpace (s : string) : list string := splitGo s EmptyString false.

(** [s.substring(0, n)] *)
Definition substring0 (n : nat) (s : string) : string := String.substring 0 n s.

(** [x || 0] on a nullable number *)
Definition orZero (x : option Z) : Z := default 0 x.
Definition orZeroQ (x : option Q) : Q := default 0%Q x.

(** [x || empty string] on a nullable string *)
Definition orEmpty (x : option string) : string := default EmptyString x.

(** Number of maximal runs of characters that are not white space: the words
    of a text in the everyday sense, independent of [split]. *)
Fixpoint countWords (s : string) (inWord : bool) : nat :=
  match s with
  | EmptyString => 0
  | String c s' =>
      if isWhiteSpace c then countWords s' false
      else (if inWord then 0 else 1) + countWords s' true
  end%nat.

End Js.

(** ** langchain.service.ts *)

Module LangChain.

Record Pricing := { input : Q; output : Q }.

(** [pricingMap] of [getPricing] *)
Definition pricingMap : gmap string Pricing :=
  list_to_map
    [ ("gpt-3.5-turbo", {| input := 15 # 10000; output := 2 # 1000 |});
      ("gpt-4", {| input := 3 # 100; output := 6 # 100 |});
      ("claude-sonnet-4-20250514", {| input := 3 # 1000; output := 15 # 1000 |});
      ("claude-3-5-haiku-20241022", {| input := 25 # 100000; output := 125 # 100000 |});
      ("gemini-2.5-flash-lite", {| input := 1 # 10000; output := 4 # 10000 |});
      ("gemini-2.0-flash", {| input := 1 # 10000; output := 4 # 10000 |}) ].

Definition getPricing (modelId : string) : Pricing :=
  default {| input := 0; output := 0 |} (pricingMap !! modelId).

Definition calculateCost (modelId : string) (inputTokens outputTokens : Z) : Q :=
  let pricing := getPricing modelId in
  let inputCost := (inject_Z inputTokens / 1000 * input pricing)%Q in
  let outputCost := (inject_Z outputTokens / 1000 * output pricing)%Q in
  (inputCost + outputCost)%Q.

(** *** The registry of configured models *)

(** The three credentials [initializeModels] reads from the configuration. *)
Record Config := {
  OPENAI_API_KEY : option string;
  ANTHROPIC_API_KEY : option string;
  GOOGLE_API_KEY : option string
}.

(** [if (key)]: the key is present and not the empty string. *)
Definition truthy (key : option string) : bool :=
  match key with
  | Some (String _ _) => true
  | _ => false
  end.

(** The SDK client a registry entry holds; what it does when invoked is
    not part of this value, see [SdkRun]. *)
Inductive BaseChatModel :=
  | ChatOpenAI (modelName : string)
  | ChatAnthropic (modelName : string)
  | ChatGoogleGenerativeAI (modelName : string).

Definition initializeModels (cfg : Config) : gmap string BaseChatModel :=
  let models := ∅ in
  let models :=
    if truthy (OPENAI_API_KEY cfg)
    then <["gpt-4" := ChatOpenAI "gpt-4"]>
           (<["gpt-3.5-turbo" := ChatOpenAI "gpt-3.5-turbo"]> models)
    else models in
  let models :=
    if truthy (ANTHROPIC_API_KEY cfg)
    then <["claude-3-5-haiku-20241022" := ChatAnthropic "claude-3-5-haiku-20241022"]>
           (<["claude-sonnet-4-20250514" := ChatAnthropic "claude-sonnet-4-20250514"]> models)
    else models in
  let models :=
    if truthy (GOOGLE_API_KEY cfg)
    then <["gemini-2.0-flash" := ChatGoogleGenerativeAI "gemini-2.0-flash"]>
           (<["gemini-2.5-flash-lite" := ChatGoogleGenerativeAI "gemini-2.5-flash-lite"]> models)
    else models in
  models.

Record ModelInfo := {
  id : string;
  name : string;
  provider : string;
  pricing : Pricing
}.

(** One [if (this.models.has(id)) models.push(...)] of [getAvailableModels]. *)
Definition pushIfHas (models : gmap string BaseChatModel)
    (id name provider : string) (acc : list ModelInfo) : list ModelInfo :=
  if decide (is_Some (models !! id))
  then acc ++ [ {| id := id; name := name; provider := provider;
                   pricing := getPricing id |} ]
  else acc.

Definition getAvailableModels (models : gmap string BaseChatModel) : list ModelInfo :=
  let acc := [] in
  let acc := pushIfHas models "gpt-3.5-turbo" "GPT-3.5 Turbo" "openai" acc in
  let acc := pushIfHas models "gpt-4" "GPT-4" "openai" acc in
  let acc := pushIfHas models "claude-sonnet-4-20250514" "Claude Sonnet 4" "anthropic" acc in
  let acc := pushIfHas models "claude-3-5-haiku-20241022" "Claude 3.5 Haiku" "anthropic" acc in
  let acc := pushIfHas models "gemini-2.5-flash-lite" "Gemini 2.5 Flash Lite" "google" acc in
  let acc := pushIfHas models "gemini-2.0-flash" "Gemini 2.0 Flash" "google" acc in
  acc.

(** [estimateTokens]: the fallback token counter. *)
Definition wordsOf (text : string) : Z :=
  Z.of_nat (length (Js.splitWhiteSpace (Js.trim text))).

Definition charactersOf (text : string) : Z := Z.of_nat (String.length text).

Definition wordBasedTokens (text : string) : Z :=
  Qceiling (inject_Z (wordsOf text) * (13 # 10)).

Definition charBasedTokens (text : string) : Z :=
  Qceiling (inject_Z (charactersOf text) / (35 # 10)).

Definition estimateTokens (text : string) : Z :=
  if decide (String.length text = 0%nat) then 0
  else
    let estimatedTokens := Z.max (wordBasedTokens text) (charBasedTokens text) in
    Z.max estimatedTokens 1.


(** *** Streaming one model *)

Record Metrics := {
  inputTokens : Z;
  outputTokens : Z;
  cost : Q;
  responseTimeMs : Z
}.

(** What [streamResponse] hands to its three callbacks. *)
Inductive StreamEvent :=
  | Chunk (content : string)
  | Complete (metrics : Metrics)
  | Error (message : string).

(** One invocation of the provider SDK, as the environment decides it:
    - [getNumTokens text] is the exact count, or [None] when the call throws;
    - [streamed] are the [chunk.content] values the stream yields, in order;
    - [failure] is [Some msg] when [model.stream] or the iteration throws an
      error with message [msg] (after the chunks of [streamed]);
    - [elapsed] is [Date.now() - startTime] when the stream has ended. *)
Record SdkRun := {
  getNumTokens : string -> option Z;
  streamed : list string;
  failure : option string;
  elapsed : Z
}.

(** [getNumTokens] with the [catch] falling back to the estimator. *)
Definition countTokens (run : SdkRun) (text : string) : Z :=
  match getNumTokens run text with
  | Some n => n
  | None => estimateTokens text
  end.

(** [if (chunk.content)]: an empty content is skipped. *)
Definition hasContent (content : string) : bool :=
  match content with
  | EmptyString => false
  | String _ _ => true
  end.

Definition fullResponseOf (contents : list string) : string :=
  foldl String.append EmptyString contents.

(** [streamResponse modelId prompt onChunk onComplete onError]: the calls of
    the callbacks, in order. The promise it returns never rejects: whatever
    is thrown inside is caught and reported through [onError]. *)
Definition streamResponse (models : gmap string BaseChatModel)
    (modelId prompt : string) (run : SdkRun) : list StreamEvent :=
  match models !! modelId with
  | None => [Error ("Model " +:+ modelId +:+ " not found")]
  | Some _ =>
      let inputTokens := countTokens run prompt in
      let contents := List.filter hasContent (streamed run) in
      let fullResponse := fullResponseOf contents in
      (Chunk <$> contents) ++
      match failure run with
      | Some message => [Error message]
      | None =>
          let responseTime := elapsed run in
          let outputTokens := countTokens run fullResponse in
          let cost := calculateCost modelId inputTokens outputTokens in
          [Complete {| inputTokens := inputTokens; outputTokens := outputTokens;
                       cost := cost; responseTimeMs := responseTime |}]
      end
  end.

(** *** Streaming several models at once *)

(** A callback invocation of [streamMultipleResponses]: the model identifier
    and the event the caller sees, and the index of the promise in [promises]
    that made the call. *)
Record Delivery := {
  invocation : nat;
  model : string;
  event : StreamEvent
}.

(** The event loop runs the pending promises one step at a time. A schedule
    names the promise that makes the next step (a promise that has finished,
    or an index out of range, makes none); [Promise.all] resolves when all
    have finished, so what the schedule leaves is run to the end. *)
Fixpoint interleave {A} (schedule : list nat) (streams : list (list A)) : list A :=
  match schedule with
  | [] => concat streams
  | k :: schedule' =>
      match streams !! k with
      | Some (x :: rest) => x :: interleave schedule' (<[k := rest]> streams)
      | _ => interleave schedule' streams
      end
  end.

Definition promises (models : gmap string BaseChatModel)
    (modelIds : list string) (prompt : string) (sdk : nat -> SdkRun)
    : list (list Delivery) :=
  imap (fun i modelId =>
          (fun e => {| invocation := i; model := modelId; event := e |})
            <$> streamResponse models modelId prompt (sdk i))
       modelIds.

Definition streamMultipleResponses (models : gmap string BaseChatModel)
    (modelIds : list string) (prompt : string) (sdk : nat -> SdkRun)
    (schedule : list nat) : list Delivery :=
  interleave schedule (promises models modelIds prompt sdk).

(** [getModelCount] *)
Definition getModelCount (models : gmap string BaseChatModel) : nat := size models.

End LangChain.


(** ** The entities and database.module.ts *)

Module ComparisonSession.

Inductive Status := pending | in_progress | completed | failed.

#[global] Instance Status_eq_dec : EqDecision Status.
Proof. solve_decision. Defined.

(** The columns of [comparison_sessions]; [createdAt] is set when the row
    is inserted, [updatedAt] then and again by every update of the row. *)
Record t := {
  id : string;
  prompt : string;
  status : Status;
  totalTokens : Z;
  totalCost : Q;
  averageResponseTime : Q;
  createdAt : Z;
  updatedAt : Z;
  userId : string
}.

End ComparisonSession.

Module ModelResponse.

Inductive Status := pending | streaming | completed | error.

#[global] Instance Status_eq_dec : EqDecision Status.
Proof. solve_decision. Defined.

(** The columns of [model_responses] ([createdAt] left out); the primary
    key is a natural number standing for the generated uuid. *)
Record t := {
  id : nat;
  modelId : string;
  provider : string;
  response : option string;
  status : Status;
  inputTokens : option Z;
  outputTokens : option Z;
  cost : option Q;
  responseTimeMs : option Z;
  errorMessage : option string;
  sessionId : string
}.

End ModelResponse.

Module Database.

Record t := {
  sessions : list ComparisonSession.t;
  responses : list ModelResponse.t
}.

Definition empty : t := {| sessions := []; responses := [] |}.

(** The [@UpdateDateColumn]: an update writes the time it is made at, which
    the environment gives, into [updatedAt]. *)
Definition setUpdatedAt (now : Z) (s : ComparisonSession.t) : ComparisonSession.t :=
  {| ComparisonSession.id := ComparisonSession.id s;
     ComparisonSession.prompt := ComparisonSession.prompt s;
     ComparisonSession.status := ComparisonSession.status s;
     ComparisonSession.totalTokens := ComparisonSession.totalTokens s;
     ComparisonSession.totalCost := ComparisonSession.totalCost s;
     ComparisonSession.averageResponseTime := ComparisonSession.averageResponseTime s;
     ComparisonSession.createdAt := ComparisonSession.createdAt s;
     ComparisonSession.updatedAt := now;
     ComparisonSession.userId := ComparisonSession.userId s |}.

(** [repository.update(id, set)]: every row with that key gets the columns
    of [set], a session also the time of the update; no row, no effect. *)
Definition sessionRepository_update (now : Z) (sessionId : string)
    (set : ComparisonSession.t -> ComparisonSession.t) (db : t) : t :=
  {| sessions :=
       (fun s => if decide (ComparisonSession.id s = sessionId)
                 then setUpdatedAt now (set s) else s)
         <$> sessions db;
     responses := responses db |}.

Definition responseRepository_update (responseId : nat)
    (set : ModelResponse.t -> ModelResponse.t) (db : t) : t :=
  {| sessions := sessions db;
     responses :=
       (fun r => if decide (ModelResponse.id r = responseId) then set r else r)
         <$> responses db |}.

(** A generated primary key: one no stored row has. *)
Definition generatedId (rows : list ModelResponse.t) : nat :=
  S (max_list (ModelResponse.id <$> rows)).

(** [createSession]; the generated key and the creation time come from
    the environment. *)
Definition createSession (newId : string) (now : Z) (prompt userId : string)
    (db : t) : t * ComparisonSession.t :=
  let session :=
    {| ComparisonSession.id := newId;
       ComparisonSession.prompt := prompt;
       ComparisonSession.status := ComparisonSession.pending;
       ComparisonSession.totalTokens := 0;
       ComparisonSession.totalCost := 0;
       ComparisonSession.averageResponseTime := 0;
       ComparisonSession.createdAt := now;
       ComparisonSession.updatedAt := now;
       ComparisonSession.userId := userId |} in
  ({| sessions := sessions db ++ [session]; responses := responses db |}, session).

Definition setSessionStatus (status : ComparisonSession.Status)
    (s : ComparisonSession.t) : ComparisonSession.t :=
  {| ComparisonSession.id := ComparisonSession.id s;
     ComparisonSession.prompt := ComparisonSession.prompt s;
     ComparisonSession.status := status;
     ComparisonSession.totalTokens := ComparisonSession.totalTokens s;
     ComparisonSession.totalCost := ComparisonSession.totalCost s;
     ComparisonSession.averageResponseTime := ComparisonSession.averageResponseTime s;
     ComparisonSession.createdAt := ComparisonSession.createdAt s;
     ComparisonSession.updatedAt := ComparisonSession.updatedAt s;
     ComparisonSession.userId := ComparisonSession.userId s |}.

Definition updateSessionStatus (now : Z) (sessionId : string)
    (status : ComparisonSession.Status) (db : t) : t :=
  sessionRepository_update now sessionId (setSessionStatus status) db.

(** [relations: ["responses"]] *)
Definition responsesOf (sessionId : string) (db : t) : list ModelResponse.t :=
  List.filter (fun r => bool_decide (ModelResponse.sessionId r = sessionId))
    (responses db).

(** [getSession]: [findOne] with [where: { id: sessionId, userId }]. *)
Definition getSession (sessionId userId : string) (db : t)
    : option (ComparisonSession.t * list ModelResponse.t) :=
  match
    List.find (fun s => bool_decide (ComparisonSession.id s = sessionId)
                        && bool_decide (ComparisonSession.userId s = userId))
      (sessions db)
  with
  | Some s => Some (s, responsesOf sessionId db)
  | None => None
  end.

(** [order: { createdAt: "DESC" }] *)
Fixpoint insertByCreatedAt (s : ComparisonSession.t) (sorted : list ComparisonSession.t)
    : list ComparisonSession.t :=
  match sorted with
  | [] => [s]
  | s' :: rest =>
      if (ComparisonSession.createdAt s' <? ComparisonSession.createdAt s)
      then s :: sorted
      else s' :: insertByCreatedAt s rest
  end.

Definition newestFirst (l : list ComparisonSession.t) : list ComparisonSession.t :=
  foldr insertByCreatedAt [] l.

(** [getSessions]: the sessions of a user, newest first, [skip: offset]
    then [take: limit]. The repository passes the two numbers on as it gets
    them: [take: 0] is no limit at all ([0] is falsy, no [LIMIT] is written),
    and SQLite reads a negative [LIMIT] as no limit and a negative [OFFSET]
    as 0. Among sessions created at the same time the order is the one of
    the database; [newestFirst] takes one such order. *)
Definition getSessions (userId : string) (limit offset : Z) (db : t)
    : list (ComparisonSession.t * list ModelResponse.t) :=
  let mine := List.filter (fun s => bool_decide (ComparisonSession.userId s = userId))
                (sessions db) in
  let skipped := drop (Z.to_nat offset) (newestFirst mine) in
  let page := if decide (0 < limit) then take (Z.to_nat limit) skipped else skipped in
  (fun s => (s, responsesOf (ComparisonSession.id s) db)) <$> page.

(** [createModelResponse]: a new row in [pending] with an empty text. *)
Definition createModelResponse (sessionId modelId provider : string) (db : t)
    : t * ModelResponse.t :=
  let response :=
    {| ModelResponse.id := generatedId (responses db);
       ModelResponse.modelId := modelId;
       ModelResponse.provider := provider;
       ModelResponse.response := Some EmptyString;
       ModelResponse.status := ModelResponse.pending;
       ModelResponse.inputTokens := None;
       ModelResponse.outputTokens := None;
       ModelResponse.cost := None;
       ModelResponse.responseTimeMs := None;
       ModelResponse.errorMessage := None;
       ModelResponse.sessionId := sessionId |} in
  ({| sessions := sessions db; responses := responses db ++ [response] |}, response).

(** The [set] of the chunk callback: [{ response, status: "streaming" }]. *)
Definition setStreaming (text : string) (r : ModelResponse.t) : ModelResponse.t :=
  {| ModelResponse.id := ModelResponse.id r;
     ModelResponse.modelId := ModelResponse.modelId r;
     ModelResponse.provider := ModelResponse.provider r;
     ModelResponse.response := Some text;
     ModelResponse.status := ModelResponse.streaming;
     ModelResponse.inputTokens := ModelResponse.inputTokens r;
     ModelResponse.outputTokens := ModelResponse.outputTokens r;
     ModelResponse.cost := ModelResponse.cost r;
     ModelResponse.responseTimeMs := ModelResponse.responseTimeMs r;
     ModelResponse.errorMessage := ModelResponse.errorMessage r;
     ModelResponse.sessionId := ModelResponse.sessionId r |}.

Definition updateModelResponse (responseId : nat)
    (updates : ModelResponse.t -> ModelResponse.t) (db : t) : t :=
  responseRepository_update responseId updates db.

(** The [set] of [finalizeModelResponse]: [{ ...metrics, status: "completed" }]. *)
Definition setCompleted (metrics : LangChain.Metrics) (r : ModelResponse.t)
    : ModelResponse.t :=
  {| ModelResponse.id := ModelResponse.id r;
     ModelResponse.modelId := ModelResponse.modelId r;
     ModelResponse.provider := ModelResponse.provider r;
     ModelResponse.response := ModelResponse.response r;
     ModelResponse.status := ModelResponse.completed;
     ModelResponse.inputTokens := Some (LangChain.inputTokens metrics);
     ModelResponse.outputTokens := Some (LangChain.outputTokens metrics);
     ModelResponse.cost := Some (LangChain.cost metrics);
     ModelResponse.responseTimeMs := Some (LangChain.responseTimeMs metrics);
     ModelResponse.errorMessage := ModelResponse.errorMessage r;
     ModelResponse.sessionId := ModelResponse.sessionId r |}.

Definition finalizeModelResponse (responseId : nat) (metrics : LangChain.Metrics)
    (db : t) : t :=
  responseRepository_update responseId (setCompleted metrics) db.

(** The [set] of [markResponseAsError]: [{ status: "error", errorMessage }]. *)
Definition setError (errorMessage : string) (r : ModelResponse.t) : ModelResponse.t :=
  {| ModelResponse.id := ModelResponse.id r;
     ModelResponse.modelId := ModelResponse.modelId r;
     ModelResponse.provider := ModelResponse.provider r;
     ModelResponse.response := ModelResponse.response r;
     ModelResponse.status := ModelResponse.error;
     ModelResponse.inputTokens := ModelResponse.inputTokens r;
     ModelResponse.outputTokens := ModelResponse.outputTokens r;
     ModelResponse.cost := ModelResponse.cost r;
     ModelResponse.responseTimeMs := ModelResponse.responseTimeMs r;
     ModelResponse.errorMessage := Some errorMessage;
     ModelResponse.sessionId := ModelResponse.sessionId r |}.

Definition markResponseAsError (responseId : nat) (errorMessage : string)
    (db : t) : t :=
  responseRepository_update responseId (setError errorMessage) db.

(** [updateSessionMetrics] *)
Definition completedOf (sessionId : string) (db : t) : list ModelResponse.t :=
  List.filter
    (fun r => bool_decide (ModelResponse.sessionId r = sessionId)
              && bool_decide (ModelResponse.status r = ModelResponse.completed))
    (responses db).

Definition setMetrics (totalTokens : Z) (totalCost averageResponseTime : Q)
    (s : ComparisonSession.t) : ComparisonSession.t :=
  {| ComparisonSession.id := ComparisonSession.id s;
     ComparisonSession.prompt := ComparisonSession.prompt s;
     ComparisonSession.status := ComparisonSession.status s;
     ComparisonSession.totalTokens := totalTokens;
     ComparisonSession.totalCost := totalCost;
     ComparisonSession.averageResponseTime := averageResponseTime;
     ComparisonSession.createdAt := ComparisonSession.createdAt s;
     ComparisonSession.updatedAt := ComparisonSession.updatedAt s;
     ComparisonSession.userId := ComparisonSession.userId s |}.

Definition updateSessionMetrics (now : Z) (sessionId : string) (db : t) : t :=
  let responses := completedOf sessionId db in
  let totalTokens :=
    foldl (fun sum r => sum + Js.orZero (ModelResponse.inputTokens r)
                            + Js.orZero (ModelResponse.outputTokens r))
      0 responses in
  let totalCost :=
    foldl (fun sum r => (sum + Js.orZeroQ (ModelResponse.cost r))%Q) 0%Q responses in
  let totalTime :=
    foldl (fun sum r => sum + Js.orZero (ModelResponse.responseTimeMs r)) 0 responses in
  let averageResponseTime :=
    if decide (0 < length responses)%nat
    then (inject_Z totalTime / inject_Z (Z.of_nat (length responses)))%Q
    else 0%Q in
  sessionRepository_update now sessionId
    (setMetrics totalTokens totalCost averageResponseTime) db.

End Database.

(** ** comparison.service.ts *)

Module Comparison.

Import LangChain.

(** What a JavaScript [throw] carries: [new Error(message)], or the
    [TypeError] of reading a property of [undefined] or [null]. *)
Inductive Exception :=
  | ErrorOf (message : string)
  | TypeError (message : string).

(** How an [async] function ends. *)
Inductive Outcome (A : Type) :=
  | Resolved (value : A)
  | Rejected (reason : Exception).
Arguments Resolved {A} value.
Arguments Rejected {A} reason.

(** *** getComparison *)

Record ResponseView := {
  rv_id : nat;
  rv_modelId : string;
  rv_provider : string;
  rv_response : option string;
  rv_status : ModelResponse.Status;
  rv_inputTokens : option Z;
  rv_outputTokens : option Z;
  rv_cost : option Q;
  rv_responseTimeMs : option Z;
  rv_errorMessage : option string
}.

Record SessionView := {
  sv_id : string;
  sv_prompt : string;
  sv_status : ComparisonSession.Status;
  sv_totalTokens : Z;
  sv_totalCost : Q;
  sv_averageResponseTime : Q;
  sv_createdAt : Z;
  sv_updatedAt : Z;
  sv_responses : list ResponseView
}.

Definition viewResponse (response : ModelResponse.t) : ResponseView :=
  {| rv_id := ModelResponse.id response;
     rv_modelId := ModelResponse.modelId response;
     rv_provider := ModelResponse.provider response;
     rv_response := ModelResponse.response response;
     rv_status := ModelResponse.status response;
     rv_inputTokens := ModelResponse.inputTokens response;
     rv_outputTokens := ModelResponse.outputTokens response;
     rv_cost := ModelResponse.cost response;
     rv_responseTimeMs := ModelResponse.responseTimeMs response;
     rv_errorMessage := ModelResponse.errorMessage response |}.

Definition getComparison (sessionId userId : string) (db : Database.t)
    : Outcome SessionView :=
  match Database.getSession sessionId userId db with
  | None => Rejected (ErrorOf ("Session " +:+ sessionId +:+ " not found"))
  | Some (session, responses) =>
      Resolved
        {| sv_id := ComparisonSession.id session;
           sv_prompt := ComparisonSession.prompt session;
           sv_status := ComparisonSession.status session;
           sv_totalTokens := ComparisonSession.totalTokens session;
           sv_totalCost := ComparisonSession.totalCost session;
           sv_averageResponseTime := ComparisonSession.averageResponseTime session;
           sv_createdAt := ComparisonSession.createdAt session;
           sv_updatedAt := ComparisonSession.updatedAt session;
           sv_responses := viewResponse <$> responses |}
  end.

(** *** getComparisonHistory *)

Record HistoryItem := {
  hi_id : string;
  hi_prompt : string;
  hi_status : ComparisonSession.Status;
  hi_totalTokens : Z;
  hi_totalCost : Q;
  hi_averageResponseTime : Q;
  hi_responseCount : nat;
  hi_createdAt : Z
}.

Definition summarize (row : ComparisonSession.t * list ModelResponse.t) : HistoryItem :=
  let '(session, responses) := row in
  {| hi_id := ComparisonSession.id session;
     hi_prompt :=
       Js.substring0 100 (ComparisonSession.prompt session)
       +:+ (if decide (100 < String.length (ComparisonSession.prompt session))%nat
            then "..." else EmptyString);
     hi_status := ComparisonSession.status session;
     hi_totalTokens := ComparisonSession.totalTokens session;
     hi_totalCost := ComparisonSession.totalCost session;
     hi_averageResponseTime := ComparisonSession.averageResponseTime session;
     hi_responseCount := length responses;
     hi_createdAt := ComparisonSession.createdAt session |}.

Definition getComparisonHistory (userId : string) (limit offset : Z)
    (db : Database.t) : list HistoryItem :=
  summarize <$> Database.getSessions userId limit offset db.

(** *** startComparisonStreaming *)

(** The two [TypeError]s the [try] block can run into: [model.provider]
    with [model] undefined, and [.prompt] of the [null] that [getSession]
    returned. *)
Definition typeErrorProvider : Exception :=
  TypeError "Cannot read properties of undefined (reading 'provider')".

Definition typeErrorPrompt : Exception :=
  TypeError "Cannot read properties of null (reading 'prompt')".

(** An identifier is available when [getAvailableModels] lists it. *)
Definition available (models : gmap string BaseChatModel) (modelId : string) : Prop :=
  is_Some (List.find (fun m => bool_decide (LangChain.id m = modelId))
             (getAvailableModels models)).

(** **** The repository, as the call meets it

    The function awaits five calls of the repository besides the inserts:
    the three updates of the session in the [try] block, the read of the
    prompt, and the update of the session in the [catch]. *)
Inductive Call :=
  | markInProgress
  | readSession
  | recompute
  | markCompleted
  | markFailed.

(** What the environment decides for one call of
    [startComparisonStreaming]:
    - [rejects c] is [Some e] when the awaited call [c] rejects with [e];
      it then writes nothing;
    - [stamps c] is the time the update [c] writes into [updatedAt];
    - [inserts i] tells whether the [createModelResponse] of the identifier
      at position [i] succeeds, and [insertError] is what [Promise.all]
      reports when an insert fails (the rejection that comes first; the
      [TypeError] of an unknown identifier is raised before any insert
      returns and comes before it);
    - the writes of the three callbacks are in flight from the moment they
      are issued until the repository applies them. The environment decides
      when that is and in which order: [landsAfter j] lists, by their
      positions among the writes in flight, those that land after the
      callback call number [j] of the run and before the next one,
      [landsBeforeRecompute] those that land once the streams have ended
      and before [updateSessionMetrics] reads the responses, and
      [landsLater] those that land after that; what is still in flight
      then lands in the order it was issued.
    A write that is not awaited does not reject: its rejection would be an
    unhandled rejection, which ends the process. *)
Record Io := {
  rejects : Call -> option Exception;
  stamps : Call -> Z;
  inserts : nat -> bool;
  insertError : Exception;
  landsAfter : nat -> list nat;
  landsBeforeRecompute : list nat;
  landsLater : list nat
}.

(** [modelIds.map(async (modelId) => ...)] followed by [Promise.all]: every
    callback is started, so the rows of the identifiers the registry knows
    are inserted (when the insert succeeds) even when another callback
    rejects: on [model.provider] with [model] undefined, or because its own
    insert fails. [Promise.all] then rejects with the first rejection. [i]
    is the position of the head of [modelIds] in the requested list. *)
Fixpoint createResponses (available : list ModelInfo) (io : Io) (sessionId : string)
    (modelIds : list string) (i : nat) (db : Database.t)
    : Database.t * Outcome (list ModelResponse.t) :=
  match modelIds with
  | [] => (db, Resolved [])
  | modelId :: rest =>
      match List.find (fun m => bool_decide (LangChain.id m = modelId)) available with
      | None =>
          (fst (createResponses available io sessionId rest (S i) db),
           Rejected typeErrorProvider)
      | Some model =>
          if inserts io i
          then
            let '(db1, response) :=
              Database.createModelResponse sessionId modelId (LangChain.provider model) db in
            let '(db2, others) := createResponses available io sessionId rest (S i) db1 in
            (db2,
             match others with
             | Resolved responses => Resolved (response :: responses)
             | Rejected reason => Rejected reason
             end)
          else
            let '(db2, others) := createResponses available io sessionId rest (S i) db in
            (db2,
             match others with
             | Resolved _ => Rejected (insertError io)
             | Rejected reason => Rejected reason
             end)
      end
  end.

(** [new Map(entries)]: a later entry replaces an earlier one with its key. *)
Definition newMap {V} (entries : list (string * V)) : gmap string V :=
  foldl (fun m kv => <[kv.1 := kv.2]> m) ∅ entries.

(** **** The callbacks *)

(** The columns a callback writes: [{ response, status: "streaming" }],
    [{ ...metrics, status: "completed" }] or [{ status: "error",
    errorMessage }]. *)
Inductive Columns :=
  | streamingText (text : string)
  | completedWith (metrics : Metrics)
  | errorWith (errorMessage : string).

(** A write a callback has issued: the key of the response, the columns,
    and the call of the caller's callback that waits for the write
    ([onModelComplete] and [onModelError] are called after the [await];
    [onModelChunk] does not wait). *)
Record Write := {
  target : nat;
  columns : Columns;
  resumes : option (string * StreamEvent)
}.

(** The write, when the repository applies it. *)
Definition apply (w : Write) (db : Database.t) : Database.t :=
  match columns w with
  | streamingText text =>
      Database.updateModelResponse (target w) (Database.setStreaming text) db
  | completedWith metrics => Database.finalizeModelResponse (target w) metrics db
  | errorWith errorMessage => Database.markResponseAsError (target w) errorMessage db
  end.

(** The state the three callbacks close over and act on: the repository, the
    [responseMap] with its in-memory response objects, the writes in flight,
    oldest first, and the calls made to the callbacks of the caller
    ([onModelChunk], [onModelComplete], [onModelError]), oldest first. *)
Record Reducer := {
  db : Database.t;
  responseMap : gmap string ModelResponse.t;
  inFlight : list Write;
  emitted : list (string * StreamEvent)
}.

Definition emit (modelId : string) (e : StreamEvent) (st : Reducer) : Reducer :=
  {| db := db st; responseMap := responseMap st; inFlight := inFlight st;
     emitted := emitted st ++ [(modelId, e)] |}.

Definition issue (w : Write) (st : Reducer) : Reducer :=
  {| db := db st; responseMap := responseMap st; inFlight := inFlight st ++ [w];
     emitted := emitted st |}.

(** [response.response = updatedResponse] on the object held by the map. *)
Definition assignResponse (text : string) (r : ModelResponse.t) : ModelResponse.t :=
  {| ModelResponse.id := ModelResponse.id r;
     ModelResponse.modelId := ModelResponse.modelId r;
     ModelResponse.provider := ModelResponse.provider r;
     ModelResponse.response := Some text;
     ModelResponse.status := ModelResponse.status r;
     ModelResponse.inputTokens := ModelResponse.inputTokens r;
     ModelResponse.outputTokens := ModelResponse.outputTokens r;
     ModelResponse.cost := ModelResponse.cost r;
     ModelResponse.responseTimeMs := ModelResponse.responseTimeMs r;
     ModelResponse.errorMessage := ModelResponse.errorMessage r;
     ModelResponse.sessionId := ModelResponse.sessionId r |}.

(** The chunk callback: the write is issued and not awaited, the object of
    the map gets the new text, [onModelChunk] is called. *)
Definition chunkCallback (modelId chunk : string) (st : Reducer) : Reducer :=
  emit modelId (Chunk chunk)
    match responseMap st !! modelId with
    | Some response =>
        let updatedResponse := Js.orEmpty (ModelResponse.response response) +:+ chunk in
        issue {| target := ModelResponse.id response;
                 columns := streamingText updatedResponse;
                 resumes := None |}
          {| db := db st;
             responseMap := <[modelId := assignResponse updatedResponse response]>
                              (responseMap st);
             inFlight := inFlight st;
             emitted := emitted st |}
    | None => st
    end.

(** The two [async] callbacks: the write is issued, and [onModelComplete]
    or [onModelError] is called when it has been applied; [streamResponse]
    does not wait for either. Without an entry in the map nothing is
    awaited and the call is made at once. *)
Definition completeCallback (modelId : string) (metrics : Metrics) (st : Reducer)
    : Reducer :=
  match responseMap st !! modelId with
  | Some response =>
      issue {| target := ModelResponse.id response;
               columns := completedWith metrics;
               resumes := Some (modelId, Complete metrics) |} st
  | None => emit modelId (Complete metrics) st
  end.

Definition errorCallback (modelId error : string) (st : Reducer) : Reducer :=
  match responseMap st !! modelId with
  | Some response =>
      issue {| target := ModelResponse.id response;
               columns := errorWith error;
               resumes := Some (modelId, Error error) |} st
  | None => emit modelId (Error error) st
  end.

Definition deliver (st : Reducer) (d : Delivery) : Reducer :=
  match event d with
  | Chunk chunk => chunkCallback (model d) chunk st
  | Complete metrics => completeCallback (model d) metrics st
  | Error error => errorCallback (model d) error st
  end.

(** The repository applies the write at position [k] of those in flight
    (no such write, no effect), and the callback that waited for it goes on. *)
Definition land (k : nat) (st : Reducer) : Reducer :=
  match inFlight st !! k with
  | Some w =>
      {| db := apply w (db st);
         responseMap := responseMap st;
         inFlight := delete k (inFlight st);
         emitted := emitted st ++ option_list (resumes w) |}
  | None => st
  end.

Definition landAll (positions : list nat) (st : Reducer) : Reducer :=
  foldl (fun st k => land k st) st positions.

(** Everything in flight lands, in the order it was issued. *)
Definition drain (st : Reducer) : Reducer :=
  foldl (fun st _ => land 0 st) st (inFlight st).

(** The callback calls of [streamMultipleResponses], from call number [j]
    on, each followed by the writes that land before the next. *)
Fixpoint stream (io : Io) (j : nat) (trace : list Delivery) (st : Reducer) : Reducer :=
  match trace with
  | [] => st
  | d :: trace' => stream io (S j) trace' (landAll (landsAfter io j) (deliver st d))
  end.

(** An awaited call on the repository. *)
Definition await (f : Database.t -> Database.t) (st : Reducer) : Reducer :=
  {| db := f (db st); responseMap := responseMap st; inFlight := inFlight st;
     emitted := emitted st |}.

(** The state when the streams start, and the state of a call that never
    starts them. *)
Definition streaming (db2 : Database.t) (responses : list ModelResponse.t) : Reducer :=
  {| db := db2;
     responseMap := newMap ((fun r => (ModelResponse.modelId r, r)) <$> responses);
     inFlight := [];
     emitted := [] |}.

Definition idle (db : Database.t) : Reducer :=
  {| db := db; responseMap := ∅; inFlight := []; emitted := [] |}.

(** How the [try] block ends, and the state it leaves. *)
Record Attempt := {
  state : Reducer;
  result : Outcome unit
}.

(** The [try] block. *)
Definition tryBlock (models : gmap string BaseChatModel)
    (sessionId userId : string) (modelIds : list string)
    (sdk : nat -> SdkRun) (schedule : list nat) (io : Io) (db0 : Database.t) : Attempt :=
  match rejects io markInProgress with
  | Some error => {| state := idle db0; result := Rejected error |}
  | None =>
  let db1 := Database.updateSessionStatus (stamps io markInProgress) sessionId
               ComparisonSession.in_progress db0 in
  match createResponses (getAvailableModels models) io sessionId modelIds 0 db1 with
  | (db2, Rejected reason) => {| state := idle db2; result := Rejected reason |}
  | (db2, Resolved responses) =>
  match rejects io readSession with
  | Some error => {| state := idle db2; result := Rejected error |}
  | None =>
  match Database.getSession sessionId userId db2 with
  | None => {| state := idle db2; result := Rejected typeErrorPrompt |}
  | Some (session, _) =>
  let st :=
    stream io 0
      (streamMultipleResponses models modelIds (ComparisonSession.prompt session)
         sdk schedule)
      (streaming db2 responses) in
  let st := landAll (landsBeforeRecompute io) st in
  match rejects io recompute with
  | Some error => {| state := st; result := Rejected error |}
  | None =>
  let st := await (Database.updateSessionMetrics (stamps io recompute) sessionId) st in
  match rejects io markCompleted with
  | Some error => {| state := st; result := Rejected error |}
  | None =>
  let st :=
    await (Database.updateSessionStatus (stamps io markCompleted) sessionId
             ComparisonSession.completed) st in
  {| state := st; result := Resolved () |}
  end end end end end end.

(** The [catch]: [await updateSessionStatus(sessionId, "failed")], which
    can reject as well, then [throw error]. *)
Definition catchBlock (sessionId : string) (io : Io) (error : Exception)
    (st : Reducer) : Attempt :=
  match rejects io markFailed with
  | Some error' => {| state := st; result := Rejected error' |}
  | None =>
      {| state := await (Database.updateSessionStatus (stamps io markFailed) sessionId
                           ComparisonSession.failed) st;
         result := Rejected error |}
  end.

(** What a call leaves behind: how the promise ended and the repository at
    that moment, and, once every write it issued has landed, the repository
    and the calls made to the caller's callbacks. *)
Record Run := {
  atReturn : Database.t;
  final : Database.t;
  events : list (string * StreamEvent);
  outcome : Outcome unit
}.

(** [try { ... } catch (error) { updateSessionStatus(failed); throw error }] *)
Definition startComparisonStreaming (models : gmap string BaseChatModel)
    (sessionId userId : string) (modelIds : list string)
    (sdk : nat -> SdkRun) (schedule : list nat) (io : Io) (db0 : Database.t) : Run :=
  let attempt := tryBlock models sessionId userId modelIds sdk schedule io db0 in
  let settled :=
    match result attempt with
    | Resolved _ => attempt
    | Rejected error => catchBlock sessionId io error (state attempt)
    end in
  let st := drain (landAll (landsLater io) (state settled)) in
  {| atReturn := db (state settled);
     final := db st; events := emitted st; outcome := result settled |}.

End Comparison.

(** ** The user entity and auth.service.ts *)

Module User.

(** The columns of [users]; the two timestamps are left out. *)
Record t := {
  id : string;
  auth0Id : string;
  email : string;
  name : option string;
  picture : option string;
  locale : string;
  isActive : bool
}.

End User.

Module AuthService.

(** The argument of [createOrUpdateUser]; an absent property is [None]. *)
Record Auth0User := {
  auth0Id : string;
  email : string;
  name : option string;
  picture : option string;
  locale : option string
}.

(** [a || b] with [a] an optional string: [a] when it is present and not
    the empty string. *)
Definition orElse (a b : option string) : option string :=
  match a with
  | Some (String _ _) => a
  | _ => b
  end.

Definition orElseString (a : option string) (b : string) : string :=
  match a with
  | Some (String c s) => String c s
  | _ => b
  end.

(** [userRepository.save] of an entity that carries the key of a stored row. *)
Definition save (user : User.t) (users : list User.t) : list User.t :=
  (fun u => if decide (User.id u = User.id user) then user else u) <$> users.

(** [createOrUpdateUser]; the key of a new row comes from the environment. *)
Definition createOrUpdateUser (newId : string) (auth0User : Auth0User)
    (users : list User.t) : list User.t * User.t :=
  match List.find (fun u => bool_decide (User.auth0Id u = auth0Id auth0User)) users with
  | Some existingUser =>
      let updated :=
        {| User.id := User.id existingUser;
           User.auth0Id := User.auth0Id existingUser;
           User.email := email auth0User;
           User.name := orElse (name auth0User) (User.name existingUser);
           User.picture := orElse (picture auth0User) (User.picture existingUser);
           User.locale := orElseString (locale auth0User) (User.locale existingUser);
           User.isActive := true |} in
      (save updated users, updated)
  | None =>
      let newUser :=
        {| User.id := newId;
           User.auth0Id := auth0Id auth0User;
           User.email := email auth0User;
           User.name := name auth0User;
           User.picture := picture auth0User;
           User.locale := orElseString (locale auth0User) "en";
           User.isActive := true |} in
      (users ++ [newUser], newUser)
  end.

(** [findUserByAuth0Id]: [where: { auth0Id, isActive: true }]. *)
Definition findUserByAuth0Id (auth0Id : string) (users : list User.t) : option User.t :=
  List.find (fun u => bool_decide (User.auth0Id u = auth0Id) && User.isActive u) users.

(** [findUserById]: [where: { id, isActive: true }]. *)
Definition findUserById (id : string) (users : list User.t) : option User.t :=
  List.find (fun u => bool_decide (User.id u = id) && User.isActive u) users.

Definition setInactive (u : User.t) : User.t :=
  {| User.id := User.id u;
     User.auth0Id := User.auth0Id u;
     User.email := User.email u;
     User.name := User.name u;
     User.picture := User.picture u;
     User.locale := User.locale u;
     User.isActive := false |}.

(** [deactivateUser]: [update({ auth0Id }, { isActive: false })]. *)
Definition deactivateUser (auth0Id : string) (users : list User.t) : list User.t :=
  (fun u => if decide (User.auth0Id u = auth0Id) then setInactive u else u) <$> users.

End AuthService.

(** ** comparison.service.ts, the remaining methods *)

Module ComparisonService.

Import Comparison.

Record CreateComparisonDto := {
  prompt : string;
  modelIds : option (list string)
}.

Record Created := {
  c_sessionId : string;
  c_prompt : string;
  c_models : list string;
  c_status : ComparisonSession.Status;
  c_createdAt : Z
}.

(** The list [createComparison] falls back on. *)
Definition defaultModels : list string :=
  ["gpt-3.5-turbo"; "gpt-4"; "claude-sonnet-4-20250514"; "gemini-1.5-pro"].

(** [createComparison]; [modelIds || [...]] keeps every list that is given,
    the empty one too. *)
Definition createComparison (newId : string) (now : Z)
    (createComparisonDto : CreateComparisonDto) (userId : string) (db : Database.t)
    : Database.t * Created :=
  let '(db', session) :=
    Database.createSession newId now (prompt createComparisonDto) userId db in
  let selectedModels := default defaultModels (modelIds createComparisonDto) in
  (db',
   {| c_sessionId := ComparisonSession.id session;
      c_prompt := ComparisonSession.prompt session;
      c_models := selectedModels;
      c_status := ComparisonSession.status session;
      c_createdAt := ComparisonSession.createdAt session |}).

(** [getAvailableModels] of the comparison service. *)
Definition getAvailableModels (models : gmap string LangChain.BaseChatModel)
    : list LangChain.ModelInfo :=
  (fun model =>
     {| LangChain.id := LangChain.id model;
        LangChain.name := LangChain.name model;
        LangChain.provider := LangChain.provider model;
        LangChain.pricing := LangChain.getPricing (LangChain.id model) |})
    <$> LangChain.getAvailableModels models.

(** [getUserFromRequest], given [req.user.auth0Id]. *)
Definition getUserFromRequest (auth0Id : string) (users : list User.t)
    : Outcome User.t :=
  match AuthService.findUserByAuth0Id auth0Id users with
  | None => Rejected (ErrorOf "User not found")
  | Some user => Resolved user
  end.

End ComparisonService.

(** ** comparison.gateway.ts: the bookkeeping of observers *)

Module Gateway.

(** What a handler sends back to the client that called it. *)
Inductive Ack :=
  | session_joined (sessionId : string)
  | session_left (sessionId : string)
  | error (message : string).

(** [handleJoinSession]; [joined] tells whether [client.join] succeeded, the
    [catch] answers with an [error] otherwise. *)
Definition handleJoinSession (client sessionId : string) (joined : bool)
    (activeSessions : gmap string (gset string)) : gmap string (gset string) * Ack :=
  if joined
  then
    let activeSessions :=
      match activeSessions !! sessionId with
      | Some _ => activeSessions
      | None => <[sessionId := ∅]> activeSessions
      end in
    (alter (fun clients => clients ∪ {[client]}) sessionId activeSessions,
     session_joined sessionId)
  else (activeSessions, error "Failed to join session").

(** [handleLeaveSession] *)
Definition handleLeaveSession (client sessionId : string)
    (activeSessions : gmap string (gset string)) : gmap string (gset string) * Ack :=
  (match activeSessions !! sessionId with
   | Some sessionClients =>
       let sessionClients := sessionClients ∖ {[client]} in
       if decide (size sessionClients = 0%nat)
       then delete sessionId activeSessions
       else <[sessionId := sessionClients]> activeSessions
   | None => activeSessions
   end,
   session_left sessionId).

(** [handleDisconnect]: the loop over all entries. *)
Definition handleDisconnect (client : string)
    (activeSessions : gmap string (gset string)) : gmap string (gset string) :=
  omap (fun clients =>
          let clients := clients ∖ {[client]} in
          if decide (size clients = 0%nat) then None else Some clients)
    activeSessions.

(** A message of a client, and the bookkeeping after a list of them. *)
Inductive Message :=
  | join_session (client sessionId : string)
  | leave_session (client sessionId : string)
  | disconnect (client : string).

Definition handle (activeSessions : gmap string (gset string)) (m : Message)
    : gmap string (gset string) :=
  match m with
  | join_session client sessionId => (handleJoinSession client sessionId true activeSessions).1
  | leave_session client sessionId => (handleLeaveSession client sessionId activeSessions).1
  | disconnect client => handleDisconnect client activeSessions
  end.

(** The client is recorded as an observer of the session. *)
Definition observes (activeSessions : gmap string (gset string))
    (sessionId client : string) : Prop :=
  exists clients, activeSessions !! sessionId = Some clients /\ client ∈ clients.

End Gateway.

(** ** hooks/useWebSocket.ts *)

Module Utils.

(** [truncateText] *)
Definition truncateText (text : string) (maxLength : nat) : string :=
  if decide (String.length text <= maxLength)%nat then text
  else Js.substring0 maxLength text +:+ "...".

End Utils.

(** ** The aggregates of a session, as the specification words them

    Sums that run over every stored response and let a response count only
    when it belongs to the session and has status [completed]. *)

Module Aggregates.

Definition counted (sessionId : string) (r : ModelResponse.t) : bool :=
  bool_decide (ModelResponse.sessionId r = sessionId)
  && bool_decide (ModelResponse.status r = ModelResponse.completed).

Fixpoint sumTokens (sessionId : string) (rows : list ModelResponse.t) : Z :=
  match rows with
  | [] => 0
  | r :: rows' =>
      (if counted sessionId r
       then Js.orZero (ModelResponse.inputTokens r) + Js.orZero (ModelResponse.outputTokens r)
       else 0)
      + sumTokens sessionId rows'
  end.

Fixpoint sumCost (sessionId : string) (rows : list ModelResponse.t) : Q :=
  match rows with
  | [] => 0%Q
  | r :: rows' =>
      ((if counted sessionId r then Js.orZeroQ (ModelResponse.cost r) else 0)
       + sumCost sessionId rows')%Q
  end.

Fixpoint sumTime (sessionId : string) (rows : list ModelResponse.t) : Z :=
  match rows with
  | [] => 0
  | r :: rows' =>
      (if counted sessionId r then Js.orZero (ModelResponse.responseTimeMs r) else 0)
      + sumTime sessionId rows'
  end.

Fixpoint howMany (sessionId : string) (rows : list ModelResponse.t) : nat :=
  match rows with
  | [] => 0
  | r :: rows' => ((if counted sessionId r then 1 else 0) + howMany sessionId rows')%nat
  end.

(** The repository with the responses of status [error] taken away. *)
Definition withoutErrors (db : Database.t) : Database.t :=
  {| Database.sessions := Database.sessions db;
     Database.responses :=
       List.filter
         (fun r => negb (bool_decide (ModelResponse.status r = ModelResponse.error)))
         (Database.responses db) |}.

End Aggregates.

(** ** Reading a run

    The vocabulary of the statements about the fan-out and the reducer. *)

Module Trace.

Import LangChain Comparison.

(** Every element of the stream at position [i] carries the tag [off + i]. *)
Definition tagged {A} (tag : A -> nat) (off : nat) (streams : list (list A)) : Prop :=
  forall i s x, streams !! i = Some s -> x ∈ s -> tag x = (off + i)%nat.

(** What the promise of index [j] delivered, and what was delivered for a
    model identifier, in order. *)
Definition deliveredBy (j : nat) (trace : list Delivery) : list Delivery :=
  filter (λ d, invocation d = j) trace.

Definition deliveredFor (modelId : string) (trace : list Delivery) : list Delivery :=
  filter (λ d, model d = modelId) trace.

(** The events the callbacks of the caller received for one model, in order. *)
Definition eventsFor (modelId : string) (out : list (string * StreamEvent))
    : list StreamEvent :=
  (filter (λ e, e.1 = modelId) out).*2.

(** [c1 + ... + cn] *)
Definition concatenation (chunks : list string) : string :=
  foldr String.append EmptyString chunks.

Definition isTerminal (e : StreamEvent) : Prop :=
  match e with
  | Chunk _ => False
  | _ => True
  end.

Definition isComplete (e : StreamEvent) : Prop :=
  match e with
  | Complete _ => True
  | _ => False
  end.

(** What the three callbacks do to one stored response, given the text its
    in-memory object has accumulated so far. *)
Definition accStep (acc : option string) (e : StreamEvent) : option string :=
  match e with
  | Chunk chunk => Some (Js.orEmpty acc +:+ chunk)
  | _ => acc
  end.

Definition rowStep (acc : option string) (e : StreamEvent) (r : ModelResponse.t)
    : ModelResponse.t :=
  match e with
  | Chunk chunk => Database.setStreaming (Js.orEmpty acc +:+ chunk) r
  | Complete metrics => Database.setCompleted metrics r
  | Error error => Database.setError error r
  end.

Fixpoint rowRun (es : list StreamEvent) (acc : option string) (r : ModelResponse.t)
    : ModelResponse.t :=
  match es with
  | [] => r
  | e :: es' => rowRun es' (accStep acc e) (rowStep acc e r)
  end.

(** What the write that a callback call issues makes of a stored response,
    given the state the callback runs in, and what the call makes of an
    object of the map. *)
Definition touch (st : Reducer) (d : Delivery) (r : ModelResponse.t) : ModelResponse.t :=
  match responseMap st !! model d with
  | Some o =>
      if decide (ModelResponse.id r = ModelResponse.id o)
      then rowStep (ModelResponse.response o) (event d) r
      else r
  | None => r
  end.

Definition memStep (key : string) (d : Delivery) (o : ModelResponse.t) : ModelResponse.t :=
  if decide (key = model d)
  then match event d with
       | Chunk chunk => assignResponse (Js.orEmpty (ModelResponse.response o) +:+ chunk) o
       | _ => o
       end
  else o.

(** What the writes of the callback calls [trace] make of a stored
    response when they are applied in the order they were issued. *)
Fixpoint touched (trace : list Delivery) (st : Reducer) (r : ModelResponse.t)
    : ModelResponse.t :=
  match trace with
  | [] => r
  | d :: trace' => touched trace' (deliver st d) (touch st d r)
  end.

(** The repository once the writes in flight have landed in the order they
    were issued, and the callback calls that wait for a write in flight. *)
Definition pendingApplied (st : Reducer) : Database.t :=
  foldl (fun db w => apply w db) (db st) (inFlight st).

Definition pendingEvents (st : Reducer) : list (string * StreamEvent) :=
  omap resumes (inFlight st).

(** The repository applies the writes in the order they were issued: the
    write that lands is always the oldest one in flight. *)
Definition inOrder (io : Io) : Prop :=
  (forall j, Forall (fun k => k = 0%nat) (landsAfter io j))
  /\ Forall (fun k => k = 0%nat) (landsBeforeRecompute io)
  /\ Forall (fun k => k = 0%nat) (landsLater io).

(** Every write is applied before the next callback call: the run the code
    has when each write is awaited. *)
Definition atOnce (io : Io) : Prop :=
  forall j, landsAfter io j = [0%nat].


(** No response of the session is [completed], and none will be by a write
    in flight. *)
Definition noCompletion (sessionId : string) (st : Reducer) : Prop :=
  (forall r, r ∈ Database.responses (db st) ->
     ModelResponse.sessionId r = sessionId ->
     ModelResponse.status r ≠ ModelResponse.completed)
  /\ (forall w m, w ∈ inFlight st -> columns w ≠ completedWith m).

(** No awaited call of the [try] block rejects, and every insert succeeds. *)
Definition answers (io : Io) (requested : nat) : Prop :=
  rejects io markInProgress = None
  /\ rejects io readSession = None
  /\ rejects io recompute = None
  /\ rejects io markCompleted = None
  /\ (forall i, (i < requested)%nat -> inserts io i = true).

End Trace.

(** ** A session to run the statements on

    The first scenario of the specification, with two identifiers of the
    registry in place of [m1] and [m2]. *)

Module Scenario.

Import LangChain Comparison.

Definition cfg : Config :=
  {| OPENAI_API_KEY := Some "sk-test";
     ANTHROPIC_API_KEY := Some "sk-ant-test";
     GOOGLE_API_KEY := None |}.

Definition models : gmap string BaseChatModel := initializeModels cfg.

Definition db0 : Database.t :=
  (Database.createSession "s1" 1700000000 "Explain recursion" "u1" Database.empty).1.

(** Streams four chunks and completes; counts 5 tokens for the prompt and 8
    for the answer. *)
Definition answering : SdkRun :=
  {| getNumTokens := fun text => if decide (text = "Explain recursion") then Some 5 else Some 8;
     streamed := ["Rec"; "ursion"; " is..."; "done"];
     failure := None;
     elapsed := 900 |}.

Definition rateLimited : SdkRun :=
  {| getNumTokens := fun _ => None;
     streamed := [];
     failure := Some "rate limit exceeded";
     elapsed := 3 |}.

Definition sdk (i : nat) : SdkRun :=
  match i with
  | O => answering
  | _ => rateLimited
  end.

Definition allFail (i : nat) : SdkRun := rateLimited.

(** As [sdk], but the second invocation answers as well. *)
Definition sdkOk (i : nat) : SdkRun :=
  match i with
  | 1%nat => answering
  | _ => sdk i
  end.

Definition requested : list string := ["gpt-4"; "claude-sonnet-4-20250514"].

Definition schedule : list nat := [0; 1; 0; 0]%nat.

Definition metrics : Metrics :=
  {| inputTokens := 5; outputTokens := 8;
     cost := calculateCost "gpt-4" 5 8; responseTimeMs := 900 |}.

(** A repository that answers every call, one second after the other, and
    applies every write as it is issued. *)
Definition reliable : Io :=
  {| rejects := fun _ => None;
     stamps := fun c =>
       match c with
       | markInProgress => 1700000001
       | readSession => 1700000002
       | recompute => 1700000003
       | markCompleted => 1700000004
       | markFailed => 1700000005
       end;
     inserts := fun _ => true;
     insertError := ErrorOf "SQLITE_BUSY: database is locked";
     landsAfter := fun _ => [0%nat];
     landsBeforeRecompute := [];
     landsLater := [] |}.

(** As [reliable], but no write lands before the aggregates are read; then
    all of them land, in the order issued. *)
Definition slow : Io :=
  {| rejects := rejects reliable;
     stamps := stamps reliable;
     inserts := inserts reliable;
     insertError := insertError reliable;
     landsAfter := fun _ => [];
     landsBeforeRecompute := [];
     landsLater := [] |}.

(** As [reliable], but the write of the first chunk lands last: after every
    later callback call the write that call issued lands, at position 1
    behind the one still in flight. *)
Definition reordering : Io :=
  {| rejects := rejects reliable;
     stamps := stamps reliable;
     inserts := inserts reliable;
     insertError := insertError reliable;
     landsAfter := fun j => match j with O => [] | S _ => [1%nat] end;
     landsBeforeRecompute := [];
     landsLater := [0%nat] |}.

(** A repository that has become unreachable when the prompt is read, and
    still is when the [catch] writes the status. *)
Definition unreachable : Io :=
  {| rejects := fun c =>
       match c with
       | readSession => Some (ErrorOf "SQLITE_CANTOPEN: unable to open database file")
       | markFailed => Some (ErrorOf "SQLITE_BUSY: database is locked")
       | _ => None
       end;
     stamps := stamps reliable;
     inserts := inserts reliable;
     insertError := insertError reliable;
     landsAfter := landsAfter reliable;
     landsBeforeRecompute := [];
     landsLater := [] |}.

(** The repository after a first call that named a model no provider
    serves: the response of ["gpt-4"] was created and stays [pending]. *)
Definition afterRejected : Database.t :=
  final (startComparisonStreaming models "s1" "u1" ["gpt-4"; "no-such-model"]
           sdk schedule reliable db0).

(** The repository after the scenario has run. *)
Definition afterRun : Database.t :=
  final (startComparisonStreaming models "s1" "u1" requested sdk schedule reliable db0).

Definition placeholder : ComparisonSession.t :=
  {| ComparisonSession.id := EmptyString;
     ComparisonSession.prompt := EmptyString;
     ComparisonSession.status := ComparisonSession.pending;
     ComparisonSession.totalTokens := 0;
     ComparisonSession.totalCost := 0;
     ComparisonSession.averageResponseTime := 0;
     ComparisonSession.createdAt := 0;
     ComparisonSession.updatedAt := 0;
     ComparisonSession.userId := EmptyString |}.

Definition recomputed : ComparisonSession.t :=
  default placeholder
    (head (Database.sessions (Database.updateSessionMetrics 1700000009 "s1" afterRun))).

(** A prompt of 103 characters that ends in three dots. *)
Definition dotted : string :=
  "aaaaaaaaaaaaaaaaaaaaaaaaaaaaaaaaaaaaaaaaaaaaaaaaaaaaaaaaaaaaaaaaaaaaaaaaaaaaaaaaaaaaaaaaaaaaaaaaaaaa" +:+ "...".

Definition dottedDb : Database.t :=
  (Database.createSession "s2" 1700000001 dotted "u1" Database.empty).1.

End Scenario.

(** ** The vocabulary of the further properties *)

Module More.

Import LangChain Comparison Trace.

(** The property names every object literal inherits: on these names
    [pricingMap[modelId]] does not read the table. *)
Definition inheritedKeys : list string :=
  ["constructor"; "__defineGetter__"; "__defineSetter__"; "hasOwnProperty";
   "__lookupGetter__"; "__lookupSetter__"; "isPrototypeOf"; "propertyIsEnumerable";
   "toString"; "valueOf"; "__proto__"; "toLocaleString"].

(** How many of the three credentials are configured. *)
Definition configuredProviders (cfg : Config) : nat :=
  ((if truthy (OPENAI_API_KEY cfg) then 1 else 0)
   + (if truthy (ANTHROPIC_API_KEY cfg) then 1 else 0)
   + (if truthy (GOOGLE_API_KEY cfg) then 1 else 0))%nat.

(** The client class behind a provider name. *)
Definition clientOf (provider modelName : string) : option BaseChatModel :=
  if decide (provider = "openai") then Some (ChatOpenAI modelName)
  else if decide (provider = "anthropic") then Some (ChatAnthropic modelName)
  else if decide (provider = "google") then Some (ChatGoogleGenerativeAI modelName)
  else None.

(** The chunks among the events of a stream, in order. *)
Definition chunksOf (events : list StreamEvent) : list string :=
  omap (fun e => match e with Chunk c => Some c | _ => None end) events.

#[global] Instance isTerminal_dec (e : StreamEvent) : Decision (isTerminal e).
Proof. destruct e; apply _. Defined.

#[global] Instance isComplete_dec (e : StreamEvent) : Decision (isComplete e).
Proof. destruct e; apply _. Defined.

(** Newest first. *)
Definition notOlder (a b : ComparisonSession.t) : Prop :=
  ComparisonSession.createdAt b <= ComparisonSession.createdAt a.

(** What the writes to the session [sessionId] leave of a stored session:
    its key, owner, prompt and creation time, and all of it when it is
    another session. *)
Definition sameSession (sessionId : string) (before after : ComparisonSession.t) : Prop :=
  ComparisonSession.id after = ComparisonSession.id before
  /\ ComparisonSession.userId after = ComparisonSession.userId before
  /\ ComparisonSession.prompt after = ComparisonSession.prompt before
  /\ ComparisonSession.createdAt after = ComparisonSession.createdAt before
  /\ (ComparisonSession.id before ≠ sessionId -> after = before).

(** The columns a new response starts without. *)
Definition blank (r : ModelResponse.t) : Prop :=
  ModelResponse.inputTokens r = None
  /\ ModelResponse.outputTokens r = None
  /\ ModelResponse.cost r = None
  /\ ModelResponse.responseTimeMs r = None
  /\ ModelResponse.errorMessage r = None.

(** No session is recorded with an empty set of observers. *)
Definition noEmptyRoom (activeSessions : gmap string (gset string)) : Prop :=
  map_Forall (fun _ clients => clients ≠ (∅ : gset string)) activeSessions.

#[global] Instance observes_dec activeSessions sessionId client :
  Decision (Gateway.observes activeSessions sessionId client).
Proof.
  unfold Gateway.observes.
  destruct (activeSessions !! sessionId) as [clients|].
  - destruct (decide (client ∈ clients)) as [Hin|Hout].
    + left. by exists clients.
    + right. intros (clients' & [= <-] & Hin). by apply Hout.
  - right. by intros (clients' & [=] & _).
Defined.

(** Whether a client follows a session after one more message, given
    whether it did before: its own [join_session] for the session makes it
    follow, its own [leave_session] for the session and its [disconnect] end
    that, and no other message changes it. *)
Definition follows (sessionId client : string) (before : bool) (m : Gateway.Message)
    : bool :=
  match m with
  | Gateway.join_session client' sessionId' =>
      if decide (client' = client /\ sessionId' = sessionId) then true else before
  | Gateway.leave_session client' sessionId' =>
      if decide (client' = client /\ sessionId' = sessionId) then false else before
  | Gateway.disconnect client' =>
      if decide (client' = client) then false else before
  end.

(** An invocation that yields two chunks and then breaks off, and the
    scenario with it as the second invocation. *)
Definition interrupted : SdkRun :=
  {| getNumTokens := fun _ => None;
     streamed := ["Rec"; "ursion"];
     failure := Some "socket hang up";
     elapsed := 40 |}.

Definition sdkInterrupted (i : nat) : SdkRun :=
  match i with
  | O => Scenario.answering
  | _ => interrupted
  end.

(** Two stored users, the second one deactivated, and a login of the second. *)
Definition storedUsers : list User.t :=
  [ {| User.id := "u1"; User.auth0Id := "auth0|1"; User.email := "ann@example.org";
       User.name := Some "Ann"; User.picture := None; User.locale := "en";
       User.isActive := true |};
    {| User.id := "u2"; User.auth0Id := "auth0|2"; User.email := "bob@example.org";
       User.name := Some "Bob"; User.picture := None; User.locale := "fr";
       User.isActive := false |} ].

Definition login : AuthService.Auth0User :=
  {| AuthService.auth0Id := "auth0|2"; AuthService.email := "bob@example.com";
     AuthService.name := None; AuthService.picture := Some "bob.png";
     AuthService.locale := None |}.

End More.

(** * Properties *)

(** ** The token estimator *)

Section TokenEstimator.

Import LangChain.

Lemma trimEnd_cons_notWs c s :
  Js.isWhiteSpace c = false -> Js.trimEnd (String c s) = String c (Js.trimEnd s).
Proof.
  intros Hc. cbn [Js.trimEnd]. rewrite Hc. by destruct (Js.trimEnd s).
Qed.

Lemma trimEnd_cons_ws c s :
  Js.isWhiteSpace c = true ->
  Js.trimEnd (String c s) =
    match Js.trimEnd s with
    | EmptyString => EmptyString
    | t => String c t
    end.
Proof. intros Hc. cbn [Js.trimEnd]. by rewrite Hc. Qed.

Lemma countWords_blank s b : Js.trimEnd s = EmptyString -> Js.countWords s b = 0%nat.
Proof.
  revert b. induction s as [|c s IH]; intros b H; [done|].
  destruct (Js.isWhiteSpace c) eqn:Hc.
  - rewrite (trimEnd_cons_ws _ _ Hc) in H. cbn [Js.countWords]. rewrite Hc.
    apply IH. by destruct (Js.trimEnd s).
  - by rewrite (trimEnd_cons_notWs _ _ Hc) in H.
Qed.

Lemma countWords_not_blank s : Js.trimEnd s ≠ EmptyString -> (1 <= Js.countWords s false)%nat.
Proof.
  induction s as [|c s IH]; intros H; [done|].
  cbn [Js.countWords]. destruct (Js.isWhiteSpace c) eqn:Hc; [|lia].
  apply IH. intros E. apply H. by rewrite (trimEnd_cons_ws _ _ Hc), E.
Qed.

(** The pieces of a text without trailing white space, read from inside a
    word and read from inside a separator. *)
Lemma splitGo_trimEnd_count s :
  (forall cur, length (Js.splitGo (Js.trimEnd s) cur false) = S (Js.countWords s true))
  /\ (forall cur, length (Js.splitGo (Js.trimEnd s) cur true)
                  = Nat.max 1 (Js.countWords s false)).
Proof.
  induction s as [|c s [IHw IHs]]; [done|].
  destruct (Js.isWhiteSpace c) eqn:Hc.
  - rewrite (trimEnd_cons_ws _ _ Hc). cbn [Js.countWords]. rewrite Hc.
    destruct (decide (Js.trimEnd s = EmptyString)) as [Ht|Ht].
    + rewrite Ht, (countWords_blank s false Ht). done.
    + pose proof (countWords_not_blank s Ht) as Hpos.
      replace (match Js.trimEnd s with EmptyString => EmptyString | t => String c t end)
        with (String c (Js.trimEnd s)) by (by destruct (Js.trimEnd s)).
      split; intros cur; cbn [Js.splitGo]; rewrite Hc; cbn [length].
      * rewrite IHs. lia.
      * rewrite IHs. lia.
  - rewrite (trimEnd_cons_notWs _ _ Hc). cbn [Js.countWords Js.splitGo]. rewrite Hc.
    split; intros cur; rewrite IHw; lia.
Qed.

Lemma countWords_trimStart s : Js.countWords (Js.trimStart s) false = Js.countWords s false.
Proof.
  induction s as [|c s IH]; [done|].
  cbn [Js.trimStart]. destruct (Js.isWhiteSpace c) eqn:Hc.
  - rewrite IH. cbn [Js.countWords]. by rewrite Hc.
  - done.
Qed.

Lemma trimStart_head c t s : Js.trimStart s = String c t -> Js.isWhiteSpace c = false.
Proof.
  induction s as [|c' s IH]; [done|]. cbn [Js.trimStart].
  destruct (Js.isWhiteSpace c') eqn:Hc; [done|]. by intros [= -> _].
Qed.

(** The [words] of the estimator are the words of the text, counted as one
    when the text has none. *)
Lemma wordsOf_countWords text :
  wordsOf text = Z.of_nat (Nat.max 1 (Js.countWords text false)).
Proof.
  unfold wordsOf, Js.splitWhiteSpace, Js.trim. f_equal.
  rewrite <- (countWords_trimStart text).
  destruct (splitGo_trimEnd_count (Js.trimStart text)) as [Hw _]. rewrite Hw.
  destruct (Js.trimStart text) as [|c t] eqn:Ht; [done|].
  cbn [Js.countWords]. rewrite (trimStart_head _ _ _ Ht). lia.
Qed.

Lemma Qceiling_frac (a : Z) (b : positive) : Qceiling (a # b) = (a + Z.pos b - 1) / Z.pos b.
Proof.
  unfold Qceiling, Qfloor. cbn [Qopp Qnum Qden].
  pose proof (Z.div_mod (- a) (Z.pos b) ltac:(lia)).
  pose proof (Z.mod_pos_bound (- a) (Z.pos b) ltac:(lia)).
  pose proof (Z.div_mod (a + Z.pos b - 1) (Z.pos b) ltac:(lia)).
  pose proof (Z.mod_pos_bound (a + Z.pos b - 1) (Z.pos b) ltac:(lia)).
  nia.
Qed.

Lemma wordBasedTokens_closed text : wordBasedTokens text = (13 * wordsOf text + 9) / 10.
Proof.
  unfold wordBasedTokens. generalize (wordsOf text); intros w.
  change (inject_Z w * (13 # 10))%Q with ((w * 13) # 10).
  rewrite Qceiling_frac. f_equal. lia.
Qed.

Lemma charBasedTokens_closed text : charBasedTokens text = (2 * charactersOf text + 6) / 7.
Proof.
  unfold charBasedTokens. generalize (charactersOf text); intros n.
  change (inject_Z n / (35 # 10))%Q with ((n * 10) # 35).
  rewrite Qceiling_frac.
  pose proof (Z.div_mod (n * 10 + 35 - 1) 35 ltac:(lia)).
  pose proof (Z.mod_pos_bound (n * 10 + 35 - 1) 35 ltac:(lia)).
  pose proof (Z.div_mod (2 * n + 6) 7 ltac:(lia)).
  pose proof (Z.mod_pos_bound (2 * n + 6) 7 ltac:(lia)).
  change (Z.pos 35) with 35. lia.
Qed.

Lemma charBasedTokens_pos text : text ≠ EmptyString -> 1 <= charBasedTokens text.
Proof.
  intros H. rewrite charBasedTokens_closed. unfold charactersOf.
  destruct text as [|c t]; [done|]. cbn [String.length].
  apply Z.div_le_lower_bound; lia.
Qed.

(** C8 (as the code has it). For every text that is not empty the estimator
    returns the larger of [ceil (words * 1.3)] and [ceil (characters / 3.5)],
    where [words] is the number of words of the text taken as 1 when the
    text has none, and this value is at least 1; for the empty text it
    returns 0. *)
Theorem estimateTokens_larger_of_both (text : string) :
  (text ≠ EmptyString ->
     estimateTokens text
       = Z.max (Qceiling (inject_Z (Z.of_nat (Nat.max 1 (Js.countWords text false))) * (13 # 10)))
               (Qceiling (inject_Z (Z.of_nat (String.length text)) / (35 # 10)))
     /\ 1 <= estimateTokens text)
  /\ (text = EmptyString -> estimateTokens text = 0).
Proof.
  split.
  - intros Hne. pose proof (charBasedTokens_pos text Hne) as Hpos.
    assert (estimateTokens text = Z.max (wordBasedTokens text) (charBasedTokens text)) as E.
    { unfold estimateTokens. destruct text; [done|]. case_decide; [done|]. lia. }
    split; [|lia].
    rewrite E. unfold wordBasedTokens, charBasedTokens, charactersOf.
    by rewrite wordsOf_countWords.
  - by intros ->.
Qed.

Lemma estimateTokens_larger_of_both_witness :
  LangChain.estimateTokens "hello world" = 4 /\ 1 <= LangChain.estimateTokens "hello world".
Proof.
  destruct (estimateTokens_larger_of_both "hello world") as [H _].
  destruct (H ltac:(discriminate)) as [E Hpos].
  split; [|exact Hpos]. rewrite E. vm_compute. reflexivity.
Defined.

(** C8, as stated, fails on the empty text: the guard at the top of
    [estimateTokens] returns 0 there. *)
Lemma estimateTokens_empty_below_one : ~ (1 <= LangChain.estimateTokens EmptyString).
Proof. vm_compute. intros H. apply H. reflexivity. Qed.

End TokenEstimator.

(** ** Reading sessions back *)

Section Reading.

Import Comparison.

Lemma substring0_short n s : (String.length s <= n)%nat -> Js.substring0 n s = s.
Proof.
  unfold Js.substring0. revert n. induction s as [|c s IH]; intros [|n] H; cbn in *; try done.
  - lia.
  - f_equal. apply IH. lia.
Qed.

Lemma substring0_length n s :
  String.length (Js.substring0 n s) = Nat.min n (String.length s).
Proof.
  unfold Js.substring0. revert n. induction s as [|c s IH]; intros [|n]; cbn; try done.
  by rewrite IH.
Qed.

Lemma append_length s t : String.length (s +:+ t) = (String.length s + String.length t)%nat.
Proof.
  induction s as [|c s IH]; [done|].
  change (String c s +:+ t) with (String c (s +:+ t)). cbn [String.length]. by rewrite IH.
Qed.

Lemma append_empty_r s : s +:+ EmptyString = s.
Proof.
  induction s as [|c s IH]; [done|].
  change (String c s +:+ EmptyString) with (String c (s +:+ EmptyString)). by rewrite IH.
Qed.

(** The prompt a history item shows, for a stored prompt. *)
Lemma summarize_prompt session responses :
  let p := ComparisonSession.prompt session in
  let shown := hi_prompt (summarize (session, responses)) in
  ((String.length p <= 100)%nat -> shown = p)
  /\ ((100 < String.length p)%nat ->
        shown = Js.substring0 100 p +:+ "..." /\ String.length shown = 103%nat)
  /\ ((103 < String.length p)%nat -> shown ≠ p).
Proof.
  unfold summarize. cbn [hi_prompt]. cbv zeta.
  generalize (ComparisonSession.prompt session); intros p.
  split; [|split].
  - intros H. case_decide; [lia|]. by rewrite append_empty_r, substring0_short.
  - intros H. case_decide; [|lia]. split; [done|].
    rewrite append_length, substring0_length.
    change (String.length "...") with 3%nat. lia.
  - intros H E. case_decide; [|lia].
    apply (f_equal String.length) in E.
    rewrite append_length, substring0_length in E.
    change (String.length "...") with 3%nat in E. lia.
Qed.

(** C10 (as the code has it). Every item of the history shows the prompt
    of its session unchanged when the prompt has at most 100 characters, and
    otherwise its first 100 characters followed by three dots, which makes
    103 characters; a prompt of more than 103 characters is therefore never
    shown in full. The items follow the sessions [getSessions] returns, one
    for one. *)
Theorem getComparisonHistory_prompt (userId : string) (limit offset : Z)
    (db : Database.t) :
  Forall2
    (fun row item =>
       let p := ComparisonSession.prompt row.1 in
       hi_id item = ComparisonSession.id row.1
       /\ ((String.length p <= 100)%nat -> hi_prompt item = p)
       /\ ((100 < String.length p)%nat ->
             hi_prompt item = Js.substring0 100 p +:+ "..."
             /\ String.length (hi_prompt item) = 103%nat)
       /\ ((103 < String.length p)%nat -> hi_prompt item ≠ p))
    (Database.getSessions userId limit offset db)
    (getComparisonHistory userId limit offset db).
Proof.
  unfold getComparisonHistory.
  induction (Database.getSessions userId limit offset db) as [|[session responses] rows IH];
    [constructor|].
  rewrite fmap_cons. constructor; [|exact IH].
  split; [done|]. apply summarize_prompt.
Qed.

(** [findOne] returns a row of the table that satisfies the condition. *)
Lemma getSession_Some sessionId userId db session responses :
  Database.getSession sessionId userId db = Some (session, responses) ->
  session ∈ Database.sessions db
  /\ ComparisonSession.id session = sessionId
  /\ ComparisonSession.userId session = userId
  /\ responses = Database.responsesOf sessionId db.
Proof.
  unfold Database.getSession.
  destruct (List.find _ _) as [s|] eqn:Hfind; [|done].
  intros [= <- <-]. apply find_some in Hfind as [Hin Hcond].
  apply andb_prop in Hcond as [H1 H2].
  apply bool_decide_eq_true in H1, H2.
  by rewrite list_elem_of_In.
Qed.

Lemma getSession_None sessionId userId db :
  Database.getSession sessionId userId db = None <->
  (forall session, session ∈ Database.sessions db ->
     ~ (ComparisonSession.id session = sessionId
        /\ ComparisonSession.userId session = userId)).
Proof.
  unfold Database.getSession. split.
  - destruct (List.find _ _) as [s|] eqn:Hfind; [done|]. intros _ session Hin [H1 H2].
    apply list_elem_of_In in Hin.
    pose proof (find_none _ _ Hfind _ Hin) as Hcond. cbn in Hcond.
    rewrite !bool_decide_eq_true_2 in Hcond by done. done.
  - intros H. destruct (List.find _ _) as [s|] eqn:Hfind; [|done].
    apply find_some in Hfind as [Hin Hcond].
    apply andb_prop in Hcond as [H1 H2].
    apply bool_decide_eq_true in H1, H2.
    destruct (H s); [by apply list_elem_of_In|done].
Qed.

(** C9. [getComparison] rejects with [Session <id> not found] whenever the
    table holds no session with that identifier owned by that user, and
    what it resolves with is always a stored session with that identifier
    whose owner is that user. *)
Theorem getComparison_scoped_by_owner (sessionId userId : string) (db : Database.t) :
  ((forall session, session ∈ Database.sessions db ->
      ~ (ComparisonSession.id session = sessionId
         /\ ComparisonSession.userId session = userId)) ->
   getComparison sessionId userId db
     = Rejected (ErrorOf ("Session " +:+ sessionId +:+ " not found")))
  /\ (forall view, getComparison sessionId userId db = Resolved view ->
        exists session,
          session ∈ Database.sessions db
          /\ ComparisonSession.id session = sessionId
          /\ ComparisonSession.userId session = userId
          /\ sv_id view = sessionId
          /\ sv_prompt view = ComparisonSession.prompt session
          /\ sv_status view = ComparisonSession.status session).
Proof.
  unfold getComparison. split.
  - intros H. apply getSession_None in H. by rewrite H.
  - intros view.
    destruct (Database.getSession sessionId userId db) as [[session responses]|] eqn:Hget;
      [|done].
    intros [= <-]. apply getSession_Some in Hget as (Hin & Hid & Huser & _).
    exists session. by cbn.
Qed.

End Reading.

(** ** The aggregates of a session *)

Section SessionMetrics.

Import Aggregates.

Lemma completedOf_counted sessionId db :
  Database.completedOf sessionId db = List.filter (counted sessionId) (Database.responses db).
Proof. done. Qed.

Lemma foldl_tokens sessionId rows acc :
  foldl (fun sum r => sum + Js.orZero (ModelResponse.inputTokens r)
                          + Js.orZero (ModelResponse.outputTokens r))
    acc (List.filter (counted sessionId) rows)
  = acc + sumTokens sessionId rows.
Proof.
  revert acc. induction rows as [|r rows IH]; intros acc; cbn [List.filter sumTokens].
  - cbn. lia.
  - destruct (counted sessionId r); cbn [foldl]; rewrite IH; lia.
Qed.

Lemma foldl_time sessionId rows acc :
  foldl (fun sum r => sum + Js.orZero (ModelResponse.responseTimeMs r))
    acc (List.filter (counted sessionId) rows)
  = acc + sumTime sessionId rows.
Proof.
  revert acc. induction rows as [|r rows IH]; intros acc; cbn [List.filter sumTime].
  - cbn. lia.
  - destruct (counted sessionId r); cbn [foldl]; rewrite IH; lia.
Qed.

Lemma foldl_cost sessionId rows acc :
  (foldl (fun sum r => sum + Js.orZeroQ (ModelResponse.cost r)) acc
     (List.filter (counted sessionId) rows)
   == acc + sumCost sessionId rows)%Q.
Proof.
  revert acc. induction rows as [|r rows IH]; intros acc; cbn [List.filter sumCost].
  - cbn. ring.
  - destruct (counted sessionId r); cbn [foldl]; rewrite IH; ring.
Qed.

Lemma length_counted sessionId rows :
  length (List.filter (counted sessionId) rows) = howMany sessionId rows.
Proof.
  induction rows as [|r rows IH]; [done|]. cbn [List.filter howMany].
  destruct (counted sessionId r); cbn [length]; lia.
Qed.

Lemma counted_withoutErrors sessionId rows :
  List.filter (counted sessionId)
    (List.filter (fun r => negb (bool_decide (ModelResponse.status r = ModelResponse.error)))
       rows)
  = List.filter (counted sessionId) rows.
Proof.
  induction rows as [|r rows IH]; [done|]. cbn [List.filter].
  destruct (bool_decide (ModelResponse.status r = ModelResponse.error)) eqn:Herr; cbn [negb].
  - apply bool_decide_eq_true in Herr.
    assert (counted sessionId r = false) as ->; [|exact IH].
    unfold counted. rewrite Herr. apply andb_false_r.
  - cbn [List.filter]. destruct (counted sessionId r); by rewrite IH.
Qed.

(** C2. After [updateSessionMetrics] the stored session carries: as
    [totalTokens] the sum of input and output tokens over exactly the
    responses of the session with status [completed]; as [totalCost] the sum
    of their costs; as [averageResponseTime] the mean of their response
    times, and 0 when there is none. Responses with status [error]
    contribute nothing: taking them out of the table leaves the recomputed
    sessions as they are. *)
Theorem updateSessionMetrics_aggregates (now : Z) (sessionId : string)
    (db : Database.t) (s : ComparisonSession.t) :
  s ∈ Database.sessions (Database.updateSessionMetrics now sessionId db) ->
  ComparisonSession.id s = sessionId ->
  ComparisonSession.totalTokens s = sumTokens sessionId (Database.responses db)
  /\ (ComparisonSession.totalCost s == sumCost sessionId (Database.responses db))%Q
  /\ (howMany sessionId (Database.responses db) = 0%nat ->
        ComparisonSession.averageResponseTime s = 0%Q)
  /\ ((0 < howMany sessionId (Database.responses db))%nat ->
        (ComparisonSession.averageResponseTime s
         == inject_Z (sumTime sessionId (Database.responses db))
            / inject_Z (Z.of_nat (howMany sessionId (Database.responses db))))%Q)
  /\ Database.sessions (Database.updateSessionMetrics now sessionId (withoutErrors db))
     = Database.sessions (Database.updateSessionMetrics now sessionId db).
Proof.
  intros Hin Hid.
  assert (Hlast :
    Database.sessions (Database.updateSessionMetrics now sessionId (withoutErrors db))
    = Database.sessions (Database.updateSessionMetrics now sessionId db)).
  { unfold Database.updateSessionMetrics, Database.sessionRepository_update.
    cbn [Database.sessions]. rewrite !completedOf_counted.
    unfold withoutErrors. cbn [Database.sessions Database.responses].
    by rewrite counted_withoutErrors. }
  unfold Database.updateSessionMetrics, Database.sessionRepository_update in Hin.
  cbn [Database.sessions] in Hin. rewrite completedOf_counted in Hin.
  apply list_elem_of_fmap in Hin as (s0 & -> & _).
  case_decide as Hs0; [|done]. clear Hid.
  cbn [Database.setUpdatedAt Database.setMetrics ComparisonSession.totalTokens
    ComparisonSession.totalCost ComparisonSession.averageResponseTime].
  rewrite foldl_tokens, foldl_time, length_counted, !Z.add_0_l.
  split; [done|]. split; [by rewrite foldl_cost, Qplus_0_l|].
  split; [|split; [|exact Hlast]].
  - intros ->. by case_decide; [lia|].
  - intros Hpos. by case_decide; [|lia].
Qed.

End SessionMetrics.

(** ** The fan-out *)

Import LangChain Comparison Trace.

Section Interleaving.

Context {A : Type} (tag : A -> nat).

Lemma tagged_tail off s streams : tagged tag off (s :: streams) -> tagged tag (S off) streams.
Proof.
  intros H i s' x Hi Hx. rewrite (H (S i) s' x Hi Hx). lia.
Qed.

Lemma tagged_insert off streams k x rest :
  tagged tag off streams -> streams !! k = Some (x :: rest) ->
  tagged tag off (<[k := rest]> streams).
Proof.
  intros H Hk i s y Hi Hy.
  destruct (decide (k = i)) as [->|Hne].
  - rewrite list_lookup_insert_eq in Hi by (by eapply lookup_lt_Some).
    injection Hi as <-. apply (H i (x :: rest) y Hk). by right.
  - rewrite list_lookup_insert_ne in Hi by done. by apply (H i s y).
Qed.

Lemma filter_other_stream off streams n :
  tagged tag off streams -> (n < off)%nat ->
  filter (λ x, tag x = n) (concat streams) = [].
Proof.
  revert off. induction streams as [|s streams IH]; intros off H Hn; [done|].
  cbn [concat]. rewrite filter_app, (IH (S off)); [|by eapply tagged_tail|lia].
  rewrite app_nil_r.
  assert (Forall (λ x, tag x ≠ n) s) as Hs.
  { apply Forall_forall. intros x Hx. rewrite (H 0%nat s x); [lia|done|done]. }
  clear H. induction Hs as [|x s Hx _ IHs]; [done|]. by rewrite filter_cons_False.
Qed.

Lemma filter_concat_tagged off streams j :
  tagged tag off streams ->
  filter (λ x, tag x = (off + j)%nat) (concat streams) = default [] (streams !! j).
Proof.
  revert off j. induction streams as [|s streams IH]; intros off j H; [done|].
  cbn [concat]. rewrite filter_app. destruct j as [|j].
  - rewrite (filter_other_stream (S off)); [|by eapply tagged_tail|lia].
    rewrite app_nil_r. cbn.
    assert (Forall (λ x, tag x = (off + 0)%nat) s) as Hs.
    { apply Forall_forall. intros x Hx. by apply (H 0%nat s x). }
    clear H. induction Hs as [|x s Hx _ IHs]; [done|].
    rewrite filter_cons_True by done. by rewrite IHs.
  - replace (off + S j)%nat with (S off + j)%nat by lia.
    rewrite (IH (S off)) by (by eapply tagged_tail). cbn.
    assert (Forall (λ x, tag x ≠ (S off + j)%nat) s) as Hs.
    { apply Forall_forall. intros x Hx. rewrite (H 0%nat s x); [lia|done|done]. }
    clear H IH. induction Hs as [|x s Hx _ IHs]; [done|]. by rewrite filter_cons_False.
Qed.

(** What one promise delivers does not depend on the schedule: it is its own
    stream, whole and in order. *)
Lemma interleave_projection schedule streams j :
  tagged tag 0 streams ->
  filter (λ x, tag x = j) (interleave schedule streams) = default [] (streams !! j).
Proof.
  revert streams. induction schedule as [|k schedule IH]; intros streams H.
  - cbn [interleave]. by apply (filter_concat_tagged 0).
  - cbn [interleave]. destruct (streams !! k) as [[|x rest]|] eqn:Hk; [by apply IH| |by apply IH].
    pose proof (H k _ x Hk ltac:(by left)) as Hx. cbn in Hx.
    destruct (decide (k = j)) as [->|Hne].
    + rewrite filter_cons_True by done. rewrite IH by (by eapply tagged_insert).
      rewrite list_lookup_insert_eq by (by eapply lookup_lt_Some). by rewrite Hk.
    + rewrite filter_cons_False by lia. rewrite IH by (by eapply tagged_insert).
      by rewrite list_lookup_insert_ne.
Qed.

End Interleaving.

Section FanOut.

Context (models : gmap string BaseChatModel) (modelIds : list string) (prompt : string).

Lemma promises_lookup sdk i :
  promises models modelIds prompt sdk !! i
  = (λ modelId,
       (λ e, {| invocation := i; model := modelId; event := e |})
         <$> streamResponse models modelId prompt (sdk i)) <$> modelIds !! i.
Proof. unfold promises. by rewrite list_lookup_imap. Qed.

Lemma promises_tagged sdk : tagged invocation 0 (promises models modelIds prompt sdk).
Proof.
  intros i s d Hi Hd. rewrite promises_lookup in Hi.
  destruct (modelIds !! i) as [m|]; [|done]. injection Hi as <-.
  apply list_elem_of_fmap in Hd as (e & -> & _). done.
Qed.

Lemma concat_elem_of {A} (streams : list (list A)) x :
  x ∈ concat streams -> exists i s, streams !! i = Some s /\ x ∈ s.
Proof.
  induction streams as [|s streams IH]; cbn [concat]; [by intros ?%elem_of_nil|].
  intros [Hx|Hx]%elem_of_app.
  - by exists 0%nat, s.
  - destruct (IH Hx) as (i & s' & Hi & Hs'). by exists (S i), s'.
Qed.

Lemma interleave_elem_of {A} schedule (streams : list (list A)) x :
  x ∈ interleave schedule streams -> exists i s, streams !! i = Some s /\ x ∈ s.
Proof.
  revert streams. induction schedule as [|k schedule IH]; intros streams; cbn [interleave].
  - apply concat_elem_of.
  - destruct (streams !! k) as [[|y rest]|] eqn:Hk; [apply IH| |apply IH].
    intros [->|Hx]%elem_of_cons.
    + exists k, (y :: rest). split; [done|by left].
    + apply IH in Hx as (i & s & Hi & Hx).
      destruct (decide (k = i)) as [->|Hne].
      * rewrite list_lookup_insert_eq in Hi by (by eapply lookup_lt_Some).
        injection Hi as <-. exists i, (y :: rest). split; [done|by right].
      * rewrite list_lookup_insert_ne in Hi by done. eauto.
Qed.

(** Every delivery comes from the promise of its index, and carries that
    promise's model identifier and one of its events. *)
Lemma delivery_origin sdk schedule d :
  d ∈ streamMultipleResponses models modelIds prompt sdk schedule ->
  modelIds !! invocation d = Some (model d)
  /\ event d ∈ streamResponse models (model d) prompt (sdk (invocation d)).
Proof.
  intros Hd. apply interleave_elem_of in Hd as (i & s & Hi & Hd).
  rewrite promises_lookup in Hi.
  destruct (modelIds !! i) as [m|] eqn:Hm; [|done]. injection Hi as <-.
  apply list_elem_of_fmap in Hd as (e & -> & He). done.
Qed.

Lemma deliveredBy_stream sdk schedule j :
  deliveredBy j (streamMultipleResponses models modelIds prompt sdk schedule)
  = default [] (promises models modelIds prompt sdk !! j).
Proof. apply interleave_projection, promises_tagged. Qed.

Lemma filter_ext_elem {A} (P Q : A -> Prop) `{!∀ x, Decision (P x)} `{!∀ x, Decision (Q x)}
    (l : list A) :
  (forall x, x ∈ l -> P x <-> Q x) -> filter P l = filter Q l.
Proof.
  induction l as [|x l IH]; intros Hext; [done|].
  rewrite !filter_cons, IH by (intros y Hy; apply Hext; by right).
  pose proof (Hext x ltac:(by left)). repeat case_decide; tauto.
Qed.

(** When no identifier is requested twice, the deliveries for a model are
    those of the one promise started for it. *)
Lemma deliveredFor_deliveredBy sdk schedule j m :
  NoDup modelIds -> modelIds !! j = Some m ->
  deliveredFor m (streamMultipleResponses models modelIds prompt sdk schedule)
  = deliveredBy j (streamMultipleResponses models modelIds prompt sdk schedule).
Proof.
  intros Hnd Hj. apply filter_ext_elem. intros d Hd.
  apply delivery_origin in Hd as [Hd _]. split.
  - intros <-. by eapply NoDup_lookup.
  - intros <-. congruence.
Qed.

End FanOut.

(** C7. Two runs of [streamMultipleResponses] on the same identifiers and
    prompt, in which the SDK behaves alike in every invocation but one: what
    every other invocation delivers is the same in both, in content and in
    order, whatever the two schedules are, and it is all that
    [streamResponse] produces for it. When no identifier is requested twice
    the same holds of what is delivered for every other model. *)
Theorem streamMultipleResponses_isolation (models : gmap string BaseChatModel)
    (modelIds : list string) (prompt : string) (sdk1 sdk2 : nat -> SdkRun)
    (schedule1 schedule2 : list nat) (failing j : nat) (modelId : string) :
  (forall i, i ≠ failing -> sdk1 i = sdk2 i) ->
  j ≠ failing ->
  modelIds !! j = Some modelId ->
  let run1 := streamMultipleResponses models modelIds prompt sdk1 schedule1 in
  let run2 := streamMultipleResponses models modelIds prompt sdk2 schedule2 in
  deliveredBy j run1 = deliveredBy j run2
  /\ event <$> deliveredBy j run1 = streamResponse models modelId prompt (sdk1 j)
  /\ (NoDup modelIds -> deliveredFor modelId run1 = deliveredFor modelId run2).
Proof.
  intros Hsame Hj Hm run1 run2. subst run1 run2.
  assert (Hby : forall sdk schedule,
    deliveredBy j (streamMultipleResponses models modelIds prompt sdk schedule)
    = (λ e, {| invocation := j; model := modelId; event := e |})
        <$> streamResponse models modelId prompt (sdk j)).
  { intros sdk schedule. by rewrite deliveredBy_stream, promises_lookup, Hm. }
  split; [|split].
  - by rewrite !Hby, (Hsame j Hj).
  - rewrite Hby, <- list_fmap_compose. apply list_fmap_id.
  - intros Hnd. rewrite !(deliveredFor_deliveredBy _ _ _ _ _ j) by done.
    by rewrite !Hby, (Hsame j Hj).
Qed.

Import LangChain Comparison Trace.

(** ** The reducer *)

Section Reducing.

(** The three callbacks behind [deliver]. *)
Ltac callbacks := unfold deliver, chunkCallback, completeCallback, errorCallback.

Lemma deliver_responseMap st d key :
  responseMap (deliver st d) !! key = memStep key d <$> responseMap st !! key.
Proof.
  assert (Hsame : forall o : option ModelResponse.t, o = (λ x, x) <$> o) by (by intros []).
  callbacks; unfold memStep.
  destruct (decide (key = model d)) as [->|Hk].
  - destruct (event d) as [chunk|metrics|error];
      destruct (responseMap st !! model d) as [o|] eqn:Ho; cbn [responseMap emit issue];
      rewrite ?lookup_insert_eq, ?Ho; done.
  - destruct (event d) as [chunk|metrics|error];
      destruct (responseMap st !! model d) as [o|] eqn:Ho; cbn [responseMap emit issue];
      rewrite ?lookup_insert_ne by done; apply Hsame.
Qed.

(** What a callback call makes of the map depends on the map only. *)
Lemma deliver_responseMap_eq st st' d :
  responseMap st = responseMap st' ->
  responseMap (deliver st d) = responseMap (deliver st' d).
Proof.
  intros Hmap. callbacks.
  destruct (event d); rewrite Hmap; destruct (responseMap st' !! model d);
    cbn [responseMap emit issue]; by rewrite ?Hmap.
Qed.

Lemma touched_ext trace st st' r :
  responseMap st = responseMap st' -> touched trace st r = touched trace st' r.
Proof.
  revert st st' r. induction trace as [|d trace IH]; intros st st' r Hmap; [done|].
  cbn [touched]. unfold touch. rewrite Hmap. by apply IH, deliver_responseMap_eq.
Qed.

Lemma memStep_id key d o : ModelResponse.id (memStep key d o) = ModelResponse.id o.
Proof. unfold memStep. case_decide; [|done]. by destruct (event d). Qed.

Lemma memStep_response key d o :
  ModelResponse.response (memStep key d o)
  = if decide (key = model d) then accStep (ModelResponse.response o) (event d)
    else ModelResponse.response o.
Proof. unfold memStep. case_decide; [|done]. by destruct (event d). Qed.

Lemma rowStep_keys acc e r :
  ModelResponse.id (rowStep acc e r) = ModelResponse.id r
  /\ ModelResponse.sessionId (rowStep acc e r) = ModelResponse.sessionId r
  /\ ModelResponse.modelId (rowStep acc e r) = ModelResponse.modelId r.
Proof. by destruct e. Qed.

Lemma touch_keys st d r :
  ModelResponse.id (touch st d r) = ModelResponse.id r
  /\ ModelResponse.sessionId (touch st d r) = ModelResponse.sessionId r
  /\ ModelResponse.modelId (touch st d r) = ModelResponse.modelId r.
Proof.
  unfold touch. destruct (responseMap st !! model d); [|done].
  case_decide; [apply rowStep_keys|done].
Qed.

(** A delivery never changes the key, the session or the model of a row. *)
Lemma touched_keys trace st r :
  ModelResponse.id (touched trace st r) = ModelResponse.id r
  /\ ModelResponse.sessionId (touched trace st r) = ModelResponse.sessionId r
  /\ ModelResponse.modelId (touched trace st r) = ModelResponse.modelId r.
Proof.
  revert st r. induction trace as [|d trace IH]; intros st r; [done|].
  cbn [touched]. destruct (IH (deliver st d) (touch st d r)) as (-> & -> & ->).
  apply touch_keys.
Qed.

(** Rows whose key no in-memory object carries stay as they are. *)
Lemma touched_foreign trace st r :
  (forall key o, responseMap st !! key = Some o -> ModelResponse.id o ≠ ModelResponse.id r) ->
  touched trace st r = r.
Proof.
  revert st. induction trace as [|d trace IH]; intros st Hfor; [done|].
  cbn [touched].
  assert (touch st d r = r) as ->.
  { unfold touch. destruct (responseMap st !! model d) as [o|] eqn:Ho; [|done].
    rewrite decide_False; [done|]. intros E. by apply (Hfor _ _ Ho). }
  apply IH. intros key o1 Ho1. rewrite deliver_responseMap in Ho1.
  destruct (responseMap st !! key) as [o|] eqn:Ho; [|done].
  injection Ho1 as <-. rewrite memStep_id. by apply (Hfor key).
Qed.

(** The row of a model sees the events delivered for that model, in order,
    and nothing else. *)
Lemma touched_own trace st modelId o r :
  responseMap st !! modelId = Some o ->
  (forall key o', key ≠ modelId -> responseMap st !! key = Some o' ->
     ModelResponse.id o' ≠ ModelResponse.id o) ->
  ModelResponse.id r = ModelResponse.id o ->
  touched trace st r
  = rowRun (event <$> deliveredFor modelId trace) (ModelResponse.response o) r.
Proof.
  revert st o r. induction trace as [|d trace IH]; intros st o r Ho Hdist Hr; [done|].
  cbn [touched]. unfold deliveredFor in *.
  assert (Ho1 : responseMap (deliver st d) !! modelId = Some (memStep modelId d o))
    by (by rewrite deliver_responseMap, Ho).
  assert (Hdist1 : forall key o', key ≠ modelId ->
            responseMap (deliver st d) !! key = Some o' ->
            ModelResponse.id o' ≠ ModelResponse.id (memStep modelId d o)).
  { intros key o' Hkey Hlook. rewrite deliver_responseMap in Hlook.
    destruct (responseMap st !! key) as [o0|] eqn:Ho0; [|done].
    injection Hlook as <-. rewrite !memStep_id. by apply (Hdist key). }
  assert (Hr1 : ModelResponse.id (touch st d r) = ModelResponse.id (memStep modelId d o)).
  { rewrite memStep_id. by destruct (touch_keys st d r) as (-> & _). }
  rewrite (IH _ _ _ Ho1 Hdist1 Hr1), memStep_response.
  destruct (decide (model d = modelId)) as [Hd|Hd].
  - rewrite filter_cons_True by done. rewrite decide_True by done.
    cbn [fmap list_fmap rowRun]. f_equal.
    unfold touch. subst modelId. rewrite Ho. by rewrite decide_True.
  - rewrite filter_cons_False by done. rewrite decide_False by done. f_equal.
    unfold touch. destruct (responseMap st !! model d) as [o'|] eqn:Ho'; [|done].
    rewrite decide_False; [done|]. rewrite Hr. intros E. by apply (Hdist (model d) o').
Qed.

End Reducing.

(** ** The orchestration *)

Section Creating.

Context (avail : list ModelInfo) (io : Io) (sessionId : string).

Lemma generatedId_fresh rows r : r ∈ rows -> (ModelResponse.id r < Database.generatedId rows)%nat.
Proof.
  intros Hr. unfold Database.generatedId.
  assert (ModelResponse.id r ∈ ModelResponse.id <$> rows) as Hin
    by (by apply list_elem_of_fmap_2).
  apply max_list_elem_of_le in Hin. lia.
Qed.

(** One step of [createResponses], with the recursive call named. *)
Ltac createResponses_step IH rest i :=
  cbn [Database.createModelResponse];
  match goal with
  | |- context [createResponses avail io sessionId rest (S i) ?d] =>
      let H := fresh "Hrec" in
      pose proof (IH (S i) d) as H;
      destruct (createResponses avail io sessionId rest (S i) d) as [? [?|?]]
  end.

Lemma createResponses_sessions modelIds i db :
  Database.sessions (createResponses avail io sessionId modelIds i db).1 = Database.sessions db.
Proof.
  revert i db. induction modelIds as [|m rest IH]; intros i db; [done|].
  cbn [createResponses]. destruct (List.find _ avail) as [info|]; [|apply IH].
  destruct (inserts io i); createResponses_step IH rest i; exact Hrec.
Qed.

(** When [Promise.all] resolves, one row was appended per identifier, in
    order, each in [pending] with an empty text and a key of its own. *)
Lemma createResponses_resolved modelIds i db db' rows :
  createResponses avail io sessionId modelIds i db = (db', Resolved rows) ->
  Database.responses db' = Database.responses db ++ rows
  /\ ModelResponse.modelId <$> rows = modelIds
  /\ Forall (λ r, ModelResponse.sessionId r = sessionId
                  /\ ModelResponse.status r = ModelResponse.pending
                  /\ ModelResponse.response r = Some EmptyString) rows
  /\ (forall r r0, r ∈ rows -> r0 ∈ Database.responses db ->
        (ModelResponse.id r0 < ModelResponse.id r)%nat)
  /\ NoDup (ModelResponse.id <$> rows).
Proof.
  revert i db db' rows. induction modelIds as [|m rest IH]; intros i db db' rows.
  - cbn [createResponses]. intros [= <- <-]. rewrite app_nil_r.
    repeat split; try done; [by intros ?? ?%elem_of_nil|constructor].
  - cbn [createResponses]. destruct (List.find _ avail) as [info|]; [|done].
    destruct (inserts io i).
    + cbn [Database.createModelResponse].
      match goal with |- context [createResponses avail io sessionId rest (S i) ?d] =>
        specialize (IH (S i) d);
        destruct (createResponses avail io sessionId rest (S i) d) as [db2 [rs|e]]
      end; [|done].
      intros [= <- <-].
      destruct (IH _ _ eq_refl) as (Hrows & Hids & Hfresh & Hlt & Hnd).
      cbn [Database.responses] in Hrows, Hlt.
      split; [by rewrite Hrows, <- app_assoc|].
      split; [by rewrite fmap_cons, Hids|].
      split; [by constructor|].
      split.
      * intros r r0 [->|Hr]%elem_of_cons Hr0.
        -- cbn [ModelResponse.id]. by apply generatedId_fresh.
        -- apply Hlt; [done|]. apply elem_of_app. by left.
      * rewrite fmap_cons. apply NoDup_cons. split; [|done].
        intros (r & Hid & Hr)%list_elem_of_fmap.
        pose proof (Hlt r _ Hr ltac:(apply elem_of_app; right; by left)) as Hlt'.
        cbn [ModelResponse.id] in Hid, Hlt'. lia.
    + by destruct (createResponses avail io sessionId rest (S i) db) as [db2 [rs|e]].
Qed.

Lemma createResponses_all_available modelIds i db :
  Forall (λ m, is_Some (List.find (fun i => bool_decide (LangChain.id i = m)) avail)) modelIds ->
  (forall k, (k < length modelIds)%nat -> inserts io (i + k) = true) ->
  exists rows, (createResponses avail io sessionId modelIds i db).2 = Resolved rows.
Proof.
  revert i db. induction modelIds as [|m rest IH]; intros i db Hall Hins; [by exists []|].
  apply Forall_cons in Hall as [[info Hm] Hrest]. cbn [createResponses]. rewrite Hm.
  assert (inserts io i = true) as ->
    by (rewrite <- (Nat.add_0_r i); apply Hins; cbn [length]; lia).
  cbn [Database.createModelResponse].
  match goal with |- context [createResponses avail io sessionId rest (S i) ?d] =>
    destruct (IH (S i) d Hrest) as [rs Hrs];
    [|destruct (createResponses avail io sessionId rest (S i) d) as [db2 others]]
  end.
  - intros k Hk. replace (S i + k)%nat with (i + S k)%nat by lia.
    apply Hins. cbn [length]. lia.
  - cbn in Hrs. subst others. by eexists.
Qed.

Lemma createResponses_unknown modelIds i db m :
  m ∈ modelIds ->
  List.find (fun i => bool_decide (LangChain.id i = m)) avail = None ->
  (createResponses avail io sessionId modelIds i db).2 = Rejected typeErrorProvider.
Proof.
  revert i db. induction modelIds as [|m' rest IH]; intros i db Hin Hm;
    [by apply elem_of_nil in Hin|].
  cbn [createResponses].
  destruct (List.find (fun i => bool_decide (LangChain.id i = m')) avail) as [info|] eqn:Hm';
    [|done].
  apply elem_of_cons in Hin as [->|Hin]; [congruence|].
  destruct (inserts io i); cbn [Database.createModelResponse];
    match goal with |- context [createResponses avail io sessionId rest (S i) ?d] =>
      specialize (IH (S i) d Hin Hm);
      destruct (createResponses avail io sessionId rest (S i) d) as [db2 others]
    end; cbn in IH; by subst others.
Qed.

Lemma createResponses_resolved_available modelIds i db db' rows :
  createResponses avail io sessionId modelIds i db = (db', Resolved rows) ->
  Forall (λ m, is_Some (List.find (fun i => bool_decide (LangChain.id i = m)) avail)) modelIds.
Proof.
  intros Hres. apply Forall_forall. intros m Hm.
  destruct (List.find _ avail) as [info|] eqn:Hfind; [by eexists|].
  pose proof (createResponses_unknown modelIds i db m Hm Hfind) as Hrej.
  by rewrite Hres in Hrej.
Qed.

(** [Promise.all] rejects with the [TypeError] of an unknown identifier, or
    with the exception of an insert. *)
Lemma createResponses_rejected modelIds i db e :
  (createResponses avail io sessionId modelIds i db).2 = Rejected e ->
  e = typeErrorProvider \/ e = insertError io.
Proof.
  revert i db. induction modelIds as [|m rest IH]; intros i db; [done|].
  cbn [createResponses]. destruct (List.find _ avail) as [info|];
    [|intros [= <-]; by left].
  destruct (inserts io i); cbn [Database.createModelResponse];
    match goal with |- context [createResponses avail io sessionId rest (S i) ?d] =>
      specialize (IH (S i) d);
      destruct (createResponses avail io sessionId rest (S i) d) as [db2 [rs|e']]
    end; cbn [snd] in *; try done.
  - intros [= <-]. by right.
Qed.

End Creating.

Section NewMap.

Context {V : Type}.

Lemma newMap_acc_Some (entries : list (string * V)) (m0 : gmap string V) k v :
  foldl (fun m kv => <[kv.1 := kv.2]> m) m0 entries !! k = Some v ->
  m0 !! k = Some v \/ (k, v) ∈ entries.
Proof.
  revert m0. induction entries as [|[k' v'] entries IH]; intros m0; cbn [foldl]; [by left|].
  intros [Hm|Hin]%IH.
  - cbn in Hm. rewrite lookup_insert in Hm. case_decide as Hk.
    + injection Hm as <-. subst k'. right. by left.
    + by left.
  - right. by right.
Qed.

Lemma newMap_acc_is_Some (entries : list (string * V)) (m0 : gmap string V) k :
  is_Some (m0 !! k) \/ k ∈ entries.*1 ->
  is_Some (foldl (fun m kv => <[kv.1 := kv.2]> m) m0 entries !! k).
Proof.
  revert m0. induction entries as [|[k' v'] entries IH]; intros m0; cbn [foldl].
  - intros [H|H]; [done|by apply elem_of_nil in H].
  - intros H. apply IH. cbn. rewrite fmap_cons in H. cbn in H.
    destruct (decide (k' = k)) as [->|Hne].
    + left. rewrite lookup_insert_eq. by eexists.
    + rewrite lookup_insert_ne by done.
      destruct H as [H|[->|H]%elem_of_cons]; [by left|done|by right].
Qed.

Lemma newMap_Some (entries : list (string * V)) k v :
  newMap entries !! k = Some v -> (k, v) ∈ entries.
Proof. intros [H|H]%newMap_acc_Some; [by rewrite lookup_empty in H|done]. Qed.

Lemma newMap_is_Some (entries : list (string * V)) k :
  k ∈ entries.*1 -> is_Some (newMap entries !! k).
Proof. intros H. apply newMap_acc_is_Some. by right. Qed.

End NewMap.

Lemma responseMap_Some rows m o :
  newMap ((fun r => (ModelResponse.modelId r, r)) <$> rows) !! m = Some o ->
  o ∈ rows /\ ModelResponse.modelId o = m.
Proof.
  intros (r & [= -> ->] & Hr)%newMap_Some%list_elem_of_fmap. done.
Qed.

Lemma responseMap_is_Some rows m :
  m ∈ ModelResponse.modelId <$> rows ->
  is_Some (newMap ((fun r => (ModelResponse.modelId r, r)) <$> rows) !! m).
Proof.
  intros Hm. apply newMap_is_Some. by rewrite <- list_fmap_compose.
Qed.

Lemma NoDup_fmap_eq {A B} (f : A -> B) (l : list A) x y :
  NoDup (f <$> l) -> x ∈ l -> y ∈ l -> f x = f y -> x = y.
Proof.
  induction l as [|a l IH]; [by intros _ ?%elem_of_nil|].
  rewrite fmap_cons, NoDup_cons. intros [Ha Hnd] Hx Hy Hf.
  apply elem_of_cons in Hx as [->|Hx], Hy as [->|Hy]; [done| | |by apply IH].
  - destruct Ha. rewrite Hf. by apply list_elem_of_fmap_2.
  - destruct Ha. rewrite <- Hf. by apply list_elem_of_fmap_2.
Qed.

(** The objects held by [responseMap] under different identifiers are
    different rows. *)
Lemma responseMap_distinct rows m o key o' :
  NoDup (ModelResponse.id <$> rows) ->
  newMap ((fun r => (ModelResponse.modelId r, r)) <$> rows) !! m = Some o ->
  key ≠ m ->
  newMap ((fun r => (ModelResponse.modelId r, r)) <$> rows) !! key = Some o' ->
  ModelResponse.id o' ≠ ModelResponse.id o.
Proof.
  intros Hnd [Ho Hm]%responseMap_Some Hkey [Ho' Hkey']%responseMap_Some Hid.
  assert (o' = o) by (by eapply (NoDup_fmap_eq ModelResponse.id)). congruence.
Qed.

Section Streams.

Context (models : gmap string BaseChatModel) (modelId prompt : string) (run : SdkRun).

(** One stream: chunks, then exactly one terminal event. *)
Lemma streamResponse_shape :
  exists chunks last,
    streamResponse models modelId prompt run = (Chunk <$> chunks) ++ [last]
    /\ isTerminal last
    /\ (is_Some (failure run) -> ~ isComplete last).
Proof.
  unfold streamResponse. destruct (models !! modelId).
  - destruct (failure run) as [msg|].
    + eexists _, _. split; [done|]. split; [done|]. by intros _ [].
    + eexists _, _. split; [done|]. split; [done|]. by intros [? [=]].
  - exists [], (Error ("Model " +:+ modelId +:+ " not found")). split; [done|].
    split; [done|]. by intros _ [].
Qed.

End Streams.

Section Rows.

Lemma append_assoc (a b c : string) : (a +:+ b) +:+ c = a +:+ (b +:+ c).
Proof.
  induction a as [|x a IH]; [done|].
  change (String x (a +:+ b) +:+ c = String x (a +:+ (b +:+ c))).
  change (String x ((a +:+ b) +:+ c) = String x (a +:+ (b +:+ c))). by rewrite IH.
Qed.

Lemma rowRun_app es1 es2 acc r :
  rowRun (es1 ++ es2) acc r = rowRun es2 (foldl accStep acc es1) (rowRun es1 acc r).
Proof.
  revert acc r. induction es1 as [|e es1 IH]; intros acc r; [done|].
  cbn [app rowRun foldl]. apply IH.
Qed.

(** Chunks are appended to the text in the order they arrive. *)
Lemma rowRun_chunks chunks text r :
  ModelResponse.response r = Some text ->
  ModelResponse.response (rowRun (Chunk <$> chunks) (Some text) r)
    = Some (text +:+ concatenation chunks)
  /\ foldl accStep (Some text) (Chunk <$> chunks) = Some (text +:+ concatenation chunks).
Proof.
  revert text r. induction chunks as [|c chunks IH]; intros text r Hr.
  - cbn. rewrite Hr. change (concatenation []) with EmptyString.
    assert (text +:+ EmptyString = text) as ->; [|done].
    clear. induction text as [|x t IHt]; [done|].
    change (String x (t +:+ EmptyString) = String x t). by rewrite IHt.
  - rewrite fmap_cons.
    change (rowRun (Chunk c :: (Chunk <$> chunks)) (Some text) r)
      with (rowRun (Chunk <$> chunks) (Some (text +:+ c))
              (Database.setStreaming (text +:+ c) r)).
    change (foldl accStep (Some text) (Chunk c :: (Chunk <$> chunks)))
      with (foldl accStep (Some (text +:+ c)) (Chunk <$> chunks)).
    destruct (IH (text +:+ c) (Database.setStreaming (text +:+ c) r) eq_refl) as [-> ->].
    change (concatenation (c :: chunks)) with (c +:+ concatenation chunks).
    by rewrite append_assoc.
Qed.

Lemma rowRun_terminal chunks last acc r :
  isTerminal last ->
  let r' := rowRun ((Chunk <$> chunks) ++ [last]) acc r in
  (ModelResponse.status r' = ModelResponse.completed
   \/ ModelResponse.status r' = ModelResponse.error)
  /\ (~ isComplete last -> ModelResponse.status r' = ModelResponse.error).
Proof.
  intros Hlast r'. subst r'. rewrite rowRun_app. cbn [rowRun].
  destruct last as [c|metrics|msg]; [done| |].
  - split; [by left|]. by intros [].
  - split; [by right|done].
Qed.

End Rows.

(** ** The writes in flight *)

Section InFlight.

Lemma apply_sessions w d : Database.sessions (apply w d) = Database.sessions d.
Proof. unfold apply. by destruct (columns w). Qed.

Lemma land_sessions k st :
  Database.sessions (db (land k st)) = Database.sessions (db st).
Proof.
  unfold land. destruct (inFlight st !! k); [|done]. cbn [db]. apply apply_sessions.
Qed.

Lemma land_responseMap k st : responseMap (land k st) = responseMap st.
Proof. unfold land. by destruct (inFlight st !! k). Qed.

Lemma deliver_db st d : db (deliver st d) = db st.
Proof.
  unfold deliver, chunkCallback, completeCallback, errorCallback.
  destruct (event d); destruct (responseMap st !! model d); done.
Qed.

(** What holds before a landing and is kept by any landing holds after
    all of them. *)
Lemma landAll_ind (P : Reducer -> Prop) ks st :
  (forall st k, P st -> P (land k st)) -> P st -> P (landAll ks st).
Proof.
  intros Hland. unfold landAll. revert st.
  induction ks as [|k ks IH]; intros st Hst; [done|]. cbn [foldl]. by apply IH, Hland.
Qed.

Lemma drain_ind (P : Reducer -> Prop) st :
  (forall st, P st -> P (land 0 st)) -> P st -> P (drain st).
Proof.
  intros Hland. unfold drain. generalize (inFlight st) as ws. intros ws. revert st.
  induction ws as [|w ws IH]; intros st Hst; [done|]. cbn [foldl]. by apply IH, Hland.
Qed.

Lemma stream_ind (P : Reducer -> Prop) io j trace st :
  (forall st d, d ∈ trace -> P st -> P (deliver st d)) ->
  (forall st k, P st -> P (land k st)) ->
  P st -> P (stream io j trace st).
Proof.
  intros Hdeliver Hland. revert j st.
  induction trace as [|d trace IH]; intros j st Hst; [done|]. cbn [stream].
  apply IH.
  - intros st' d' Hd'. apply Hdeliver. by right.
  - apply landAll_ind; [done|]. apply Hdeliver; [by left|done].
Qed.

Lemma land_empty k st : inFlight st = [] -> land k st = st.
Proof. intros Hst. unfold land. by rewrite Hst. Qed.

Lemma landAll_empty ks st : inFlight st = [] -> landAll ks st = st.
Proof.
  intros Hst. unfold landAll. induction ks as [|k ks IH]; [done|].
  cbn [foldl]. by rewrite land_empty.
Qed.

Lemma drain_empty st : inFlight st = [] -> drain st = st.
Proof. intros Hst. unfold drain. by rewrite Hst. Qed.

Lemma drain_inFlight st : inFlight (drain st) = [].
Proof.
  unfold drain.
  assert (forall (l : list Write) st',
            (length (inFlight st') <= length l)%nat ->
            inFlight (foldl (fun st _ => land 0 st) st' l) = []) as Hgen.
  { induction l as [|w l IH]; intros st' Hlen.
    - cbn in *. destruct (inFlight st'); [done|cbn in Hlen; lia].
    - cbn [foldl]. apply IH. unfold land.
      destruct (inFlight st') as [|w' ws] eqn:Hws; cbn [lookup list_lookup].
      + rewrite Hws. cbn. lia.
      + cbn in *. lia. }
  by apply Hgen.
Qed.

(** The sessions are out of reach of the callbacks and of their writes. *)
Lemma landAll_sessions ks st :
  Database.sessions (db (landAll ks st)) = Database.sessions (db st).
Proof.
  apply (landAll_ind (fun st' => Database.sessions (db st') = Database.sessions (db st)));
    [|done].
  intros st' k Hst'. by rewrite land_sessions.
Qed.

Lemma drain_sessions st :
  Database.sessions (db (drain st)) = Database.sessions (db st).
Proof.
  apply (drain_ind (fun st' => Database.sessions (db st') = Database.sessions (db st)));
    [|done].
  intros st' Hst'. by rewrite land_sessions.
Qed.

Lemma stream_sessions io j trace st :
  Database.sessions (db (stream io j trace st)) = Database.sessions (db st).
Proof.
  apply (stream_ind (fun st' => Database.sessions (db st') = Database.sessions (db st)));
    [| |done].
  - intros st' d _ Hst'. by rewrite deliver_db.
  - intros st' k Hst'. by rewrite land_sessions.
Qed.

(** *** Every call of a callback of the caller is made, once *)

Lemma land_events k st :
  emitted (land k st) ++ pendingEvents (land k st) ≡ₚ emitted st ++ pendingEvents st.
Proof.
  unfold land, pendingEvents. destruct (inFlight st !! k) as [w|] eqn:Hk; [|done].
  cbn [emitted inFlight]. rewrite <- app_assoc. apply Permutation_app_head.
  rewrite (omap_Permutation _ _ _ (delete_Permutation _ _ _ Hk)). cbn.
  by destruct (resumes w).
Qed.

Lemma deliver_events st d :
  emitted (deliver st d) ++ pendingEvents (deliver st d)
  ≡ₚ (emitted st ++ pendingEvents st) ++ [(model d, event d)].
Proof.
  unfold deliver, chunkCallback, completeCallback, errorCallback, pendingEvents, issue, emit.
  destruct (event d); destruct (responseMap st !! model d);
    cbn [emitted inFlight]; rewrite ?omap_app; cbn; rewrite ?app_nil_r, <- ?app_assoc;
    try done.
  all: apply Permutation_app_head; by rewrite Permutation_app_comm.
Qed.

Lemma landAll_events ks st :
  emitted (landAll ks st) ++ pendingEvents (landAll ks st) ≡ₚ emitted st ++ pendingEvents st.
Proof.
  apply (landAll_ind (fun st' => emitted st' ++ pendingEvents st'
                                 ≡ₚ emitted st ++ pendingEvents st)); [|done].
  intros st' k Hst'. by rewrite land_events.
Qed.

Lemma drain_events st : emitted (drain st) ≡ₚ emitted st ++ pendingEvents st.
Proof.
  assert (emitted (drain st) ++ pendingEvents (drain st) ≡ₚ emitted st ++ pendingEvents st)
    as Hall.
  { apply (drain_ind (fun st' => emitted st' ++ pendingEvents st'
                                 ≡ₚ emitted st ++ pendingEvents st)); [|done].
    intros st' Hst'. by rewrite land_events. }
  unfold pendingEvents in Hall at 1. by rewrite drain_inFlight, app_nil_r in Hall.
Qed.

Lemma stream_events io j trace st :
  emitted (stream io j trace st) ++ pendingEvents (stream io j trace st)
  ≡ₚ (emitted st ++ pendingEvents st) ++ ((λ d, (model d, event d)) <$> trace).
Proof.
  revert j st. induction trace as [|d trace IH]; intros j st.
  - cbn. by rewrite app_nil_r.
  - cbn [stream]. rewrite IH, landAll_events, deliver_events, fmap_cons.
    by rewrite <- !app_assoc.
Qed.

End InFlight.

(** ** The writes landing in the order issued *)

Section InOrder.

Lemma apply_responses_ext w d d' :
  Database.responses d = Database.responses d' ->
  Database.responses (apply w d) = Database.responses (apply w d').
Proof.
  intros Hd. unfold apply, Database.updateModelResponse, Database.finalizeModelResponse,
    Database.markResponseAsError, Database.responseRepository_update.
  destruct (columns w); cbn [Database.responses]; by rewrite Hd.
Qed.

Lemma foldl_apply_ext ws d d' :
  Database.responses d = Database.responses d' ->
  Database.responses (foldl (fun db w => apply w db) d ws)
  = Database.responses (foldl (fun db w => apply w db) d' ws).
Proof.
  revert d d'. induction ws as [|w ws IH]; intros d d' Hd; [done|].
  cbn [foldl]. by apply IH, apply_responses_ext.
Qed.

(** An awaited call that leaves the responses alone does not change what
    the writes in flight will make of them. *)
Lemma pendingApplied_await f st :
  Database.responses (f (db st)) = Database.responses (db st) ->
  Database.responses (pendingApplied (await f st))
  = Database.responses (pendingApplied st).
Proof. intros Hf. unfold pendingApplied. cbn [await db inFlight]. by apply foldl_apply_ext. Qed.

Lemma pendingApplied_land0 st : pendingApplied (land 0 st) = pendingApplied st.
Proof.
  unfold land, pendingApplied. by destruct (inFlight st) as [|w ws] eqn:Hws; cbn; rewrite ?Hws.
Qed.

Lemma pendingApplied_landAll ks st :
  Forall (fun k => k = 0%nat) ks -> pendingApplied (landAll ks st) = pendingApplied st.
Proof.
  unfold landAll. revert st. induction ks as [|k ks IH]; intros st Hks; [done|].
  apply Forall_cons in Hks as [-> Hks]. cbn [foldl]. by rewrite IH, pendingApplied_land0.
Qed.

Lemma pendingApplied_drain st : db (drain st) = pendingApplied st.
Proof.
  assert (pendingApplied (drain st) = pendingApplied st) as Hsame.
  { apply (drain_ind (fun st' => pendingApplied st' = pendingApplied st)); [|done].
    intros st' Hst'. by rewrite pendingApplied_land0. }
  unfold pendingApplied in Hsame at 1. by rewrite drain_inFlight in Hsame.
Qed.

(** A callback call adds to what the writes in flight will make of the
    responses what its own write makes of them. *)
Lemma pendingApplied_deliver st d :
  Database.responses (pendingApplied (deliver st d))
  = touch st d <$> Database.responses (pendingApplied st).
Proof.
  unfold deliver, chunkCallback, completeCallback, errorCallback, touch, pendingApplied,
    issue, emit.
  destruct (event d); destruct (responseMap st !! model d);
    cbn [db inFlight]; rewrite ?foldl_app; cbn [foldl apply columns target];
    by rewrite ?list_fmap_id.
Qed.

Lemma landAll_responseMap ks st : responseMap (landAll ks st) = responseMap st.
Proof.
  apply (landAll_ind (fun st' => responseMap st' = responseMap st)); [|done].
  intros st' k Hst'. by rewrite land_responseMap.
Qed.

(** With the writes landing in the order issued, the streams leave of every
    response what the writes of the callback calls make of it one after the
    other. *)
Lemma stream_inOrder io j trace st :
  (forall j, Forall (fun k => k = 0%nat) (landsAfter io j)) ->
  Database.responses (pendingApplied (stream io j trace st))
  = touched trace st <$> Database.responses (pendingApplied st).
Proof.
  intros Hio. revert j st. induction trace as [|d trace IH]; intros j st.
  - cbn [stream touched]. by rewrite list_fmap_id.
  - cbn [stream touched]. rewrite IH, pendingApplied_landAll by done.
    rewrite pendingApplied_deliver, <- list_fmap_compose.
    apply list_fmap_ext. intros _ r _. cbn.
    apply touched_ext, landAll_responseMap.
Qed.

End InOrder.

(** ** Every write landing before the next callback call *)

Section AtOnce.

Lemma deliver_atOnce st d :
  inFlight st = [] ->
  inFlight (land 0 (deliver st d)) = []
  /\ emitted (land 0 (deliver st d)) = emitted st ++ [(model d, event d)].
Proof.
  intros Hfl.
  unfold deliver, chunkCallback, completeCallback, errorCallback, issue, emit, land.
  destruct (event d); destruct (responseMap st !! model d);
    cbn [inFlight emitted]; rewrite Hfl;
    cbn [app lookup list_lookup delete list_delete inFlight emitted resumes option_list
         option_rect];
    by rewrite ?app_nil_r.
Qed.

(** With every write landed before the next callback call, nothing is in
    flight when the streams end, the callbacks of the caller were called in
    the order of the deliveries, and the responses are what the writes make
    of them one after the other. *)
Lemma stream_atOnce io j trace st :
  atOnce io ->
  inFlight st = [] ->
  let st' := stream io j trace st in
  inFlight st' = []
  /\ emitted st' = emitted st ++ ((λ d, (model d, event d)) <$> trace)
  /\ Database.responses (db st') = touched trace st <$> Database.responses (db st).
Proof.
  intros Hio Hfl. cbv zeta.
  assert (Hquiet : inFlight (stream io j trace st) = []
                   /\ emitted (stream io j trace st)
                      = emitted st ++ ((λ d, (model d, event d)) <$> trace)).
  { revert j st Hfl. induction trace as [|d trace IH]; intros j st Hfl.
    - cbn [stream]. by rewrite app_nil_r.
    - cbn [stream]. rewrite (Hio j). cbn [landAll foldl].
      destruct (deliver_atOnce st d Hfl) as [Hfl' Hem'].
      destruct (IH (S j) _ Hfl') as [Hfl'' Hem''].
      split; [done|]. by rewrite Hem'', Hem', <- app_assoc. }
  destruct Hquiet as [Hfl' Hem']. split; [done|]. split; [done|].
  pose proof (stream_inOrder io j trace st) as Hrows.
  unfold pendingApplied in Hrows. rewrite Hfl, Hfl' in Hrows. cbn [foldl] in Hrows.
  apply Hrows. intros j'. rewrite (Hio j'). by repeat constructor.
Qed.

End AtOnce.

(** ** What the writes in flight can reach *)

Section Keeping.

Lemma apply_responses w d :
  exists set,
    Database.responses (apply w d)
      = (λ r, if decide (ModelResponse.id r = target w) then set r else r)
          <$> Database.responses d
    /\ (forall r, ModelResponse.id (set r) = ModelResponse.id r
                  /\ ModelResponse.sessionId (set r) = ModelResponse.sessionId r
                  /\ ModelResponse.modelId (set r) = ModelResponse.modelId r)
    /\ ((forall m, columns w ≠ completedWith m) ->
        forall r, ModelResponse.status (set r) ≠ ModelResponse.completed).
Proof.
  unfold apply. destruct (columns w) as [text|metrics|message].
  - exists (Database.setStreaming text). by repeat split.
  - exists (Database.setCompleted metrics). repeat split. intros Hno. by destruct (Hno metrics).
  - exists (Database.setError message). by repeat split.
Qed.

Lemma fmap_id_where {A} (f : A -> A) (l : list A) :
  (forall x, x ∈ l -> f x = x) -> f <$> l = l.
Proof.
  induction l as [|x l IH]; intros Hf; [done|]. cbn. rewrite Hf by (by left).
  f_equal. apply IH. intros y Hy. apply Hf. by right.
Qed.

Lemma elem_of_delete {A} (l : list A) k x : x ∈ delete k l -> x ∈ l.
Proof.
  revert k. induction l as [|y l IH]; intros k; [by destruct k|].
  destruct k as [|k]; cbn.
  - intros ?. by right.
  - intros [-> |Hx]%elem_of_cons; [by left|right; by eapply IH].
Qed.

Context (sessionId : string) (modelIds : list string) (n : nat)
  (old : list ModelResponse.t).







Lemma land_noCompletion k st :
  noCompletion sessionId st -> noCompletion sessionId (land k st).
Proof.
  intros [Hrows Hflight]. unfold land.
  destruct (inFlight st !! k) as [w|] eqn:Hw; [|done].
  split.
  - cbn [db]. destruct (apply_responses w (db st)) as (set & -> & Hkeys & Hstatus).
    intros r (r0 & -> & Hr0)%list_elem_of_fmap Hs.
    case_decide.
    + apply Hstatus. intros m. apply Hflight. by eapply list_elem_of_lookup_2.
    + by apply Hrows.
  - cbn [inFlight]. intros w' m Hw'. apply Hflight. by eapply elem_of_delete.
Qed.

Lemma deliver_noCompletion st d :
  ~ isComplete (event d) ->
  noCompletion sessionId st -> noCompletion sessionId (deliver st d).
Proof.
  intros Hd [Hrows Hflight].
  unfold deliver, chunkCallback, completeCallback, errorCallback.
  destruct (event d) as [chunk|metrics|message]; [|by destruct Hd|];
    destruct (responseMap st !! model d) as [o|] eqn:Ho;
    (split; [exact Hrows|]); cbn [emit issue inFlight]; try done;
    by intros w m [Hw| ->%list_elem_of_singleton]%elem_of_app; [apply Hflight|].
Qed.

Lemma stream_noCompletion io j trace st :
  (forall d, d ∈ trace -> ~ isComplete (event d)) ->
  noCompletion sessionId st -> noCompletion sessionId (stream io j trace st).
Proof.
  intros Htrace. apply stream_ind.
  - intros st' d Hd. by apply deliver_noCompletion, Htrace.
  - intros st' k. apply land_noCompletion.
Qed.

Lemma landAll_noCompletion ks st :
  noCompletion sessionId st -> noCompletion sessionId (landAll ks st).
Proof. apply landAll_ind. intros st' k. apply land_noCompletion. Qed.

End Keeping.

(** ** The session table *)

Import More.

Section Sessions.

Lemma find_fmap_stable {A} (p : A -> bool) (g : A -> A) (l : list A) :
  (forall x, p (g x) = p x) -> List.find p (g <$> l) = g <$> List.find p l.
Proof.
  intros Hp. induction l as [|x l IH]; [done|].
  rewrite fmap_cons. cbn [List.find]. rewrite Hp. by destruct (p x).
Qed.

(** The session a user owns is still found after a status update, with its
    prompt. *)
Lemma getSession_after_status now sessionId userId status sessions0 rows0 rows :
  is_Some (Database.getSession sessionId userId
             {| Database.sessions := sessions0; Database.responses := rows0 |}) ->
  exists session,
    Database.getSession sessionId userId
      {| Database.sessions :=
           Database.sessions
             (Database.updateSessionStatus now sessionId status
                {| Database.sessions := sessions0; Database.responses := rows0 |});
         Database.responses := rows |}
    = Some (session,
            Database.responsesOf sessionId
              {| Database.sessions :=
                   Database.sessions
                     (Database.updateSessionStatus now sessionId status
                        {| Database.sessions := sessions0; Database.responses := rows0 |});
                 Database.responses := rows |}).
Proof.
  unfold Database.getSession, Database.updateSessionStatus, Database.sessionRepository_update.
  cbn [Database.sessions]. intros [x Hx].
  rewrite find_fmap_stable.
  - destruct (List.find _ sessions0) as [s|]; [|done]. by eexists.
  - intros s. by case_decide.
Qed.

Lemma updateSessionStatus_elem now sessionId status d s :
  s ∈ Database.sessions (Database.updateSessionStatus now sessionId status d) ->
  ComparisonSession.id s = sessionId ->
  exists s0, s0 ∈ Database.sessions d /\ ComparisonSession.id s0 = sessionId
             /\ s = Database.setUpdatedAt now (Database.setSessionStatus status s0).
Proof.
  unfold Database.updateSessionStatus, Database.sessionRepository_update.
  cbn [Database.sessions]. intros (s0 & -> & Hs0)%list_elem_of_fmap Hid.
  case_decide as Hs; [|done]. by exists s0.
Qed.

Lemma updateSessionStatus_intro now sessionId status d s0 :
  s0 ∈ Database.sessions d -> ComparisonSession.id s0 = sessionId ->
  Database.setUpdatedAt now (Database.setSessionStatus status s0)
    ∈ Database.sessions (Database.updateSessionStatus now sessionId status d).
Proof.
  intros Hs0 Hid. unfold Database.updateSessionStatus, Database.sessionRepository_update.
  cbn [Database.sessions]. apply list_elem_of_fmap. exists s0. by rewrite decide_True.
Qed.

Lemma sameSession_refl sessionId s : sameSession sessionId s s.
Proof. by repeat split. Qed.

Lemma sameSession_trans sessionId a b c :
  sameSession sessionId a b -> sameSession sessionId b c -> sameSession sessionId a c.
Proof.
  intros (Hid & Hu & Hp & Hc & Hsame) (Hid' & Hu' & Hp' & Hc' & Hsame').
  repeat split; try congruence.
  intros Hne. rewrite Hsame', Hsame; [done..|]. by rewrite Hsame.
Qed.

Lemma Forall2_sameSession_refl sessionId l : Forall2 (sameSession sessionId) l l.
Proof. apply Forall_Forall2_diag, Forall_forall. intros s _. apply sameSession_refl. Qed.

Lemma Forall2_sameSession_trans sessionId l k m :
  Forall2 (sameSession sessionId) l k -> Forall2 (sameSession sessionId) k m ->
  Forall2 (sameSession sessionId) l m.
Proof. apply Forall2_trans. intros a b c. apply sameSession_trans. Qed.

Lemma sessionRepository_update_sameSession now sessionId set d :
  (forall s, ComparisonSession.id (set s) = ComparisonSession.id s
             /\ ComparisonSession.userId (set s) = ComparisonSession.userId s
             /\ ComparisonSession.prompt (set s) = ComparisonSession.prompt s
             /\ ComparisonSession.createdAt (set s) = ComparisonSession.createdAt s) ->
  Forall2 (sameSession sessionId) (Database.sessions d)
    (Database.sessions (Database.sessionRepository_update now sessionId set d)).
Proof.
  intros Hset. cbn [Database.sessionRepository_update Database.sessions].
  apply Forall2_fmap_r, Forall_Forall2_diag, Forall_forall. intros s _.
  unfold compose, sameSession. cbv beta.
  destruct (decide (ComparisonSession.id s = sessionId)) as [Hs|Hs].
  - destruct (Hset s) as (? & ? & ? & ?). by repeat split.
  - by repeat split.
Qed.

Lemma updateSessionStatus_sameSession now sessionId status d :
  Forall2 (sameSession sessionId) (Database.sessions d)
    (Database.sessions (Database.updateSessionStatus now sessionId status d)).
Proof. by apply sessionRepository_update_sameSession. Qed.

Lemma updateSessionMetrics_sameSession now sessionId d :
  Forall2 (sameSession sessionId) (Database.sessions d)
    (Database.sessions (Database.updateSessionMetrics now sessionId d)).
Proof. by apply sessionRepository_update_sameSession. Qed.

(** The partner of a stored session under [sameSession]. *)
Lemma sameSession_partner sessionId l k s0 :
  Forall2 (sameSession sessionId) l k -> s0 ∈ l ->
  exists s, s ∈ k /\ sameSession sessionId s0 s.
Proof.
  intros Hlk [i Hi]%list_elem_of_lookup.
  destruct (Forall2_lookup_l _ _ _ _ _ Hlk Hi) as (s & Hs & Hsame).
  exists s. split; [by eapply list_elem_of_lookup_2|done].
Qed.

End Sessions.

(** ** The orchestration *)

Section Orchestration.

Context (models : gmap string BaseChatModel) (sessionId userId : string)
  (modelIds : list string) (sdk : nat -> SdkRun) (schedule : list nat)
  (io : Io) (db0 : Database.t).

(** The ways the [try] block can end: at the first update; at the inserts;
    at the read of the prompt, which rejects or finds no session; and, once
    the streams have run, at one of the two last updates or not at all. *)
Lemma tryBlock_cases :
  let attempt := tryBlock models sessionId userId modelIds sdk schedule io db0 in
  let db1 := Database.updateSessionStatus (stamps io markInProgress) sessionId
               ComparisonSession.in_progress db0 in
  (exists e, rejects io markInProgress = Some e
             /\ attempt = {| state := idle db0; result := Rejected e |})
  \/ (rejects io markInProgress = None
      /\ exists db2 e,
           createResponses (getAvailableModels models) io sessionId modelIds 0 db1
             = (db2, Rejected e)
           /\ attempt = {| state := idle db2; result := Rejected e |})
  \/ (rejects io markInProgress = None
      /\ exists db2 created e,
           createResponses (getAvailableModels models) io sessionId modelIds 0 db1
             = (db2, Resolved created)
           /\ (rejects io readSession = Some e
               \/ (rejects io readSession = None
                   /\ Database.getSession sessionId userId db2 = None
                   /\ e = typeErrorPrompt))
           /\ attempt = {| state := idle db2; result := Rejected e |})
  \/ (rejects io markInProgress = None
      /\ rejects io readSession = None
      /\ exists db2 created session,
           createResponses (getAvailableModels models) io sessionId modelIds 0 db1
             = (db2, Resolved created)
           /\ Database.getSession sessionId userId db2
              = Some (session, Database.responsesOf sessionId db2)
           /\ let st := landAll (landsBeforeRecompute io)
                          (stream io 0
                             (streamMultipleResponses models modelIds
                                (ComparisonSession.prompt session) sdk schedule)
                             (streaming db2 created)) in
              let st2 := await (Database.updateSessionMetrics (stamps io recompute)
                                  sessionId) st in
              (exists e, rejects io recompute = Some e
                         /\ attempt = {| state := st; result := Rejected e |})
              \/ (rejects io recompute = None
                  /\ exists e, rejects io markCompleted = Some e
                               /\ attempt = {| state := st2; result := Rejected e |})
              \/ (rejects io recompute = None
                  /\ rejects io markCompleted = None
                  /\ attempt
                     = {| state := await (Database.updateSessionStatus
                                            (stamps io markCompleted) sessionId
                                            ComparisonSession.completed) st2;
                          result := Resolved () |})).
Proof.
  unfold tryBlock.
  destruct (rejects io markInProgress) as [e|] eqn:Hbegin; [left; by exists e|].
  right.
  set (db1 := Database.updateSessionStatus (stamps io markInProgress) sessionId
                ComparisonSession.in_progress db0).
  destruct (createResponses (getAvailableModels models) io sessionId modelIds 0 db1)
    as [db2 [created|e]] eqn:Hcreate; [|left; split; [done|]; by exists db2, e].
  right.
  destruct (rejects io readSession) as [e|] eqn:Hread.
  { left. split; [done|]. exists db2, created, e. split; [done|]. split; [by left|done]. }
  destruct (Database.getSession sessionId userId db2) as [[session rs]|] eqn:Hget.
  2: { left. split; [done|]. exists db2, created, typeErrorPrompt.
       split; [done|]. split; [by right|done]. }
  right. split; [done|]. split; [done|]. exists db2, created, session.
  split; [done|].
  split; [by destruct (getSession_Some _ _ _ _ _ Hget) as (_ & _ & _ & ->)|].
  cbv zeta.
  destruct (rejects io recompute) as [e|] eqn:Hrecompute; [left; by exists e|].
  right.
  destruct (rejects io markCompleted) as [e|] eqn:Hcompleted.
  - left. split; [done|]. by exists e.
  - right. by repeat split.
Qed.

(** The [try] block leaves every stored session its key, owner, prompt and
    creation time, and the sessions with another key as they were. *)
Lemma tryBlock_sessions :
  Forall2 (sameSession sessionId) (Database.sessions db0)
    (Database.sessions
       (db (state (tryBlock models sessionId userId modelIds sdk schedule io db0)))).
Proof.
  pose proof (createResponses_sessions (getAvailableModels models) io sessionId modelIds 0
    (Database.updateSessionStatus (stamps io markInProgress) sessionId
       ComparisonSession.in_progress db0)) as Hsess.
  pose proof (updateSessionStatus_sameSession (stamps io markInProgress) sessionId
    ComparisonSession.in_progress db0) as Hfirst.
  destruct tryBlock_cases
    as [(e & _ & ->)
       |[(_ & db2 & e & Hcreate & ->)
        |[(_ & db2 & created & e & Hcreate & _ & ->)
         |(_ & _ & db2 & created & session & Hcreate & _ & Hend)]]];
    cbn [state db idle]; [apply Forall2_sameSession_refl|..];
    rewrite Hcreate in Hsess; cbn [fst] in Hsess; try (by rewrite Hsess).
  cbv zeta in Hend.
  set (st := landAll _ _) in Hend.
  assert (Hst : Database.sessions (db st) = Database.sessions db2).
  { unfold st. by rewrite landAll_sessions, stream_sessions. }
  destruct Hend as [(e & _ & ->)|[(_ & e & _ & ->)|(_ & _ & ->)]]; cbn [state await db].
  - by rewrite Hst, Hsess.
  - eapply Forall2_sameSession_trans; [|apply updateSessionMetrics_sameSession].
    by rewrite Hst, Hsess.
  - eapply Forall2_sameSession_trans; [|apply updateSessionStatus_sameSession].
    eapply Forall2_sameSession_trans; [|apply updateSessionMetrics_sameSession].
    by rewrite Hst, Hsess.
Qed.

(** What the run is, given how the [try] block and the [catch] ended. *)
Lemma run_settled :
  let attempt := tryBlock models sessionId userId modelIds sdk schedule io db0 in
  let run := startComparisonStreaming models sessionId userId modelIds sdk schedule io db0 in
  exists settled,
    settled = match result attempt with
              | Resolved _ => attempt
              | Rejected error => catchBlock sessionId io error (state attempt)
              end
    /\ outcome run = result settled
    /\ final run = db (drain (landAll (landsLater io) (state settled)))
    /\ events run = emitted (drain (landAll (landsLater io) (state settled)))
    /\ Database.sessions (final run) = Database.sessions (db (state settled)).
Proof.
  cbv zeta. eexists. split; [done|]. unfold startComparisonStreaming. cbn [outcome final events].
  repeat split. by rewrite drain_sessions, landAll_sessions.
Qed.

(** A call that never started the streams has nothing in flight. *)
Lemma settle_idle ks st : inFlight st = [] -> drain (landAll ks st) = st.
Proof. intros Hst. by rewrite landAll_empty, drain_empty. Qed.

End Orchestration.

Section Filters.

Context {A B : Type}.

Lemma filter_none (P : A -> Prop) `{!∀ x, Decision (P x)} (l : list A) :
  (forall x, x ∈ l -> ~ P x) -> filter P l = [].
Proof.
  induction l as [|x l IH]; intros Hno; [done|].
  rewrite filter_cons_False by (apply Hno; by left).
  apply IH. intros y Hy. apply Hno. by right.
Qed.

Lemma filter_fmap_ext (P : B -> Prop) (Q : A -> Prop) `{!∀ x, Decision (P x)}
    `{!∀ x, Decision (Q x)} (g : A -> B) (l : list A) :
  (forall x, x ∈ l -> P (g x) <-> Q x) -> filter P (g <$> l) = g <$> filter Q l.
Proof.
  induction l as [|x l IH]; intros Hext; [done|].
  rewrite fmap_cons, !filter_cons, IH by (intros y Hy; apply Hext; by right).
  pose proof (Hext x ltac:(by left)). repeat case_decide; try tauto; done.
Qed.

Lemma filter_unique `{EqDecision B} (f : A -> B) (l : list A) x :
  NoDup (f <$> l) -> x ∈ l -> filter (λ y, f y = f x) l = [x].
Proof.
  induction l as [|a l IH]; [by intros _ ?%elem_of_nil|].
  rewrite fmap_cons, NoDup_cons. intros [Ha Hnd] Hx.
  destruct (decide (f a = f x)) as [Hfa|Hfa].
  - rewrite filter_cons_True by done.
    assert (a = x) as ->.
    { apply elem_of_cons in Hx as [->|Hx]; [done|].
      destruct Ha. rewrite Hfa. by apply list_elem_of_fmap_2. }
    f_equal. apply filter_none. intros y Hy Hfy. apply Ha. rewrite <- Hfy.
    by apply list_elem_of_fmap_2.
  - rewrite filter_cons_False by done. apply IH; [done|].
    apply elem_of_cons in Hx as [->|Hx]; done.
Qed.

End Filters.

Section Resolved.

Context (models : gmap string BaseChatModel) (sessionId userId : string)
  (modelIds : list string) (sdk : nat -> SdkRun) (schedule : list nat)
  (io : Io) (db0 : Database.t).

(** What a call that resolves has done: no awaited call was rejected, the
    rows were created, the session was read, the callbacks were called for
    the deliveries of the streams, and every one of their calls of a callback
    of the caller has been made. *)
Lemma resolved_created :
  let run := startComparisonStreaming models sessionId userId modelIds sdk schedule io db0 in
  outcome run = Resolved () ->
  exists db2 created session,
    let trace := streamMultipleResponses models modelIds
                   (ComparisonSession.prompt session) sdk schedule in
    let st := landAll (landsBeforeRecompute io)
                (stream io 0 trace (streaming db2 created)) in
    let settled :=
      await (Database.updateSessionStatus (stamps io markCompleted) sessionId
               ComparisonSession.completed)
        (await (Database.updateSessionMetrics (stamps io recompute) sessionId) st) in
    createResponses (getAvailableModels models) io sessionId modelIds 0
      (Database.updateSessionStatus (stamps io markInProgress) sessionId
         ComparisonSession.in_progress db0)
      = (db2, Resolved created)
    /\ Database.getSession sessionId userId db2
       = Some (session, Database.responsesOf sessionId db2)
    /\ final run = db (drain (landAll (landsLater io) settled))
    /\ Database.sessions (final run)
       = Database.sessions
           (Database.updateSessionStatus (stamps io markCompleted) sessionId
              ComparisonSession.completed
              (Database.updateSessionMetrics (stamps io recompute) sessionId (db st)))
    /\ events run = emitted (drain (landAll (landsLater io) settled))
    /\ events run ≡ₚ (λ d, (model d, event d)) <$> trace.
Proof.
  intros run Hres.
  destruct (run_settled models sessionId userId modelIds sdk schedule io db0)
    as (settled & Hsettled & Hout & Hfinal & Hevents & Hsessions).
  fold run in Hout, Hfinal, Hevents, Hsessions. rewrite Hres in Hout.
  destruct (tryBlock_cases models sessionId userId modelIds sdk schedule io db0)
    as [(e & _ & Hattempt)
       |[(_ & db2 & e & _ & Hattempt)
        |[(_ & db2 & created & e & _ & _ & Hattempt)
         |(_ & _ & db2 & created & session & Hcreate & Hget & Hend)]]];
    cbv zeta in *.
  1-3: rewrite Hattempt in Hsettled; cbn [result state] in Hsettled;
       unfold catchBlock in Hsettled; subst settled;
       by destruct (rejects io markFailed).
  destruct Hend as [(e & _ & Hattempt)|[(_ & e & _ & Hattempt)|(_ & _ & Hattempt)]];
    rewrite Hattempt in Hsettled; cbn [result state] in Hsettled.
  1-2: unfold catchBlock in Hsettled; subst settled; by destruct (rejects io markFailed).
  subst settled. cbn [state] in *.
  exists db2, created, session. cbv zeta.
  split; [done|]. split; [done|]. split; [done|]. split; [done|]. split; [done|].
  rewrite Hevents, drain_events, landAll_events. unfold pendingEvents. cbn [await emitted inFlight].
  pose proof (landAll_events (landsBeforeRecompute io)
    (stream io 0 (streamMultipleResponses models modelIds (ComparisonSession.prompt session)
                    sdk schedule) (streaming db2 created))) as Hbefore.
  unfold pendingEvents in Hbefore. rewrite Hbefore.
  pose proof (stream_events io 0
    (streamMultipleResponses models modelIds (ComparisonSession.prompt session) sdk schedule)
    (streaming db2 created)) as Hstream.
  unfold pendingEvents in Hstream. by rewrite Hstream.
Qed.

(** With the writes landing in the order issued, the responses end as they
    do when every write is awaited. *)
Lemma resolved_anatomy :
  let run := startComparisonStreaming models sessionId userId modelIds sdk schedule io db0 in
  inOrder io ->
  outcome run = Resolved () ->
  exists db2 created session,
    let trace := streamMultipleResponses models modelIds
                   (ComparisonSession.prompt session) sdk schedule in
    Database.responses db2 = Database.responses db0 ++ created
    /\ ModelResponse.modelId <$> created = modelIds
    /\ Forall (λ r, ModelResponse.sessionId r = sessionId
                    /\ ModelResponse.status r = ModelResponse.pending
                    /\ ModelResponse.response r = Some EmptyString) created
    /\ (forall r r0, r ∈ created -> r0 ∈ Database.responses db0 ->
          (ModelResponse.id r0 < ModelResponse.id r)%nat)
    /\ NoDup (ModelResponse.id <$> created)
    /\ Database.getSession sessionId userId db2
       = Some (session, Database.responsesOf sessionId db2)
    /\ events run ≡ₚ (λ d, (model d, event d)) <$> trace
    /\ Database.responses (final run)
       = touched trace (streaming db2 created) <$> (Database.responses db0 ++ created).
Proof.
  intros run (Hduring & Hbefore & Hlater) Hres.
  destruct (resolved_created Hres)
    as (db2 & created & session & Hcreate & Hget & Hfinal & _ & _ & Hevents).
  cbv zeta in *. fold run in Hfinal, Hevents.
  exists db2, created, session.
  destruct (createResponses_resolved _ _ _ _ _ _ _ _ Hcreate) as (Hrows & Hids & Hfresh & Hlt & Hnd).
  cbn [Database.updateSessionStatus Database.sessionRepository_update Database.responses]
    in Hrows, Hlt.
  repeat split; try done.
  rewrite Hfinal, pendingApplied_drain, pendingApplied_landAll by done.
  rewrite !pendingApplied_await by done.
  rewrite pendingApplied_landAll, stream_inOrder by done.
  unfold pendingApplied. cbn [streaming db inFlight foldl]. by rewrite Hrows.
Qed.

(** With every write landing before the next callback call, the callbacks
    of the caller are called in the order of the deliveries, and the last
    two updates of the session find every write applied. *)
Lemma resolved_atOnce :
  let run := startComparisonStreaming models sessionId userId modelIds sdk schedule io db0 in
  atOnce io ->
  outcome run = Resolved () ->
  exists db2 created session,
    let trace := streamMultipleResponses models modelIds
                   (ComparisonSession.prompt session) sdk schedule in
    let st := stream io 0 trace (streaming db2 created) in
    createResponses (getAvailableModels models) io sessionId modelIds 0
      (Database.updateSessionStatus (stamps io markInProgress) sessionId
         ComparisonSession.in_progress db0)
      = (db2, Resolved created)
    /\ Database.getSession sessionId userId db2
       = Some (session, Database.responsesOf sessionId db2)
    /\ final run
       = Database.updateSessionStatus (stamps io markCompleted) sessionId
           ComparisonSession.completed
           (Database.updateSessionMetrics (stamps io recompute) sessionId (db st))
    /\ Database.responses (db st)
       = touched trace (streaming db2 created) <$> Database.responses db2
    /\ events run = (λ d, (model d, event d)) <$> trace.
Proof.
  intros run Hio Hres.
  destruct (resolved_created Hres)
    as (db2 & created & session & Hcreate & Hget & Hfinal & _ & Hevents & _).
  cbv zeta in *. fold run in Hfinal, Hevents.
  exists db2, created, session.
  destruct (stream_atOnce io 0
              (streamMultipleResponses models modelIds (ComparisonSession.prompt session)
                 sdk schedule)
              (streaming db2 created) Hio eq_refl) as (Hfl & Hem & Hrows).
  rewrite (landAll_empty (landsBeforeRecompute io)) in Hfinal, Hevents by done.
  rewrite settle_idle in Hfinal, Hevents by done.
  cbn [await db emitted] in Hfinal, Hevents.
  split; [done|]. split; [done|]. split; [done|]. split; [exact Hrows|].
  by rewrite Hevents, Hem.
Qed.

End Resolved.

Lemma events_of_model models modelIds prompt sdk schedule j m :
  NoDup modelIds -> modelIds !! j = Some m ->
  event <$> deliveredFor m (streamMultipleResponses models modelIds prompt sdk schedule)
  = streamResponse models m prompt (sdk j).
Proof.
  intros Hnd Hj.
  rewrite (deliveredFor_deliveredBy _ _ _ _ _ j) by done.
  rewrite deliveredBy_stream, promises_lookup, Hj.
  change (event <$> ((λ e, {| invocation := j; model := m; event := e |})
                       <$> streamResponse models m prompt (sdk j))
          = streamResponse models m prompt (sdk j)).
  rewrite <- list_fmap_compose. apply list_fmap_id.
Qed.

(** The row created for a model ends where the events of that model take
    it, when no identifier is requested twice. *)
Lemma created_row_final models modelIds prompt sdk schedule db2 created r0 :
  NoDup modelIds ->
  ModelResponse.modelId <$> created = modelIds ->
  NoDup (ModelResponse.id <$> created) ->
  r0 ∈ created ->
  exists j,
    modelIds !! j = Some (ModelResponse.modelId r0)
    /\ touched (streamMultipleResponses models modelIds prompt sdk schedule)
         (streaming db2 created) r0
       = rowRun (streamResponse models (ModelResponse.modelId r0) prompt (sdk j))
           (ModelResponse.response r0) r0.
Proof.
  intros Hnd Hids Hndid Hr0.
  assert (Hm : ModelResponse.modelId r0 ∈ modelIds)
    by (rewrite <- Hids; by apply list_elem_of_fmap_2).
  destruct (proj1 (list_elem_of_lookup _ _) Hm) as [j Hj]. exists j. split; [done|].
  destruct (responseMap_is_Some created (ModelResponse.modelId r0)) as [o Ho];
    [by rewrite Hids|].
  destruct (responseMap_Some _ _ _ Ho) as [Hin Hmo].
  assert (o = r0) as ->.
  { apply (NoDup_fmap_eq ModelResponse.modelId created); [by rewrite Hids|done..]. }
  rewrite (touched_own _ _ (ModelResponse.modelId r0) r0); [|done| |done].
  - by rewrite (events_of_model _ _ _ _ _ j).
  - intros key o' Hkey Ho'. by eapply responseMap_distinct.
Qed.

(** C1 (as the code has it). A session without responses, a list of model
    identifiers without repetition, and writes that land in the order they
    were issued: once [startComparisonStreaming] has resolved and the writes
    it issued have landed, every requested identifier has exactly one
    response in the session, its status is [completed] or [error], and no
    response of the session is left in [pending] or [streaming]. *)
Theorem startComparisonStreaming_all_terminal (models : gmap string BaseChatModel)
    (sessionId userId : string) (modelIds : list string) (sdk : nat -> SdkRun)
    (schedule : list nat) (io : Io) (db0 : Database.t) :
  NoDup modelIds ->
  (forall r, r ∈ Database.responses db0 -> ModelResponse.sessionId r ≠ sessionId) ->
  inOrder io ->
  let run := startComparisonStreaming models sessionId userId modelIds sdk schedule io db0 in
  outcome run = Resolved () ->
  (forall modelId, modelId ∈ modelIds ->
     exists r,
       filter (λ r, ModelResponse.sessionId r = sessionId
                    /\ ModelResponse.modelId r = modelId)
         (Database.responses (final run)) = [r]
       /\ (ModelResponse.status r = ModelResponse.completed
           \/ ModelResponse.status r = ModelResponse.error))
  /\ (forall r, r ∈ Database.responses (final run) ->
        ModelResponse.sessionId r = sessionId ->
        ModelResponse.status r ≠ ModelResponse.pending
        /\ ModelResponse.status r ≠ ModelResponse.streaming).
Proof.
  intros Hnd Hnew Hio run Hres.
  destruct (resolved_anatomy models sessionId userId modelIds sdk schedule io db0 Hio Hres)
    as (db2 & created & session & _ & Hids & Hfresh & _ & Hndid & _ & _ & Hrows).
  cbv zeta in Hrows. fold run in Hrows. rewrite Hrows. clear Hrows Hres run.
  set (trace := streamMultipleResponses models modelIds (ComparisonSession.prompt session)
                  sdk schedule).
  set (G := touched trace (streaming db2 created)).
  assert (Hkeys : forall r, ModelResponse.sessionId (G r) = ModelResponse.sessionId r
                            /\ ModelResponse.modelId (G r) = ModelResponse.modelId r).
  { intros r. by destruct (touched_keys trace (streaming db2 created) r) as (_ & ? & ?). }
  assert (Hterm : forall r0, r0 ∈ created ->
            ModelResponse.status (G r0) = ModelResponse.completed
            \/ ModelResponse.status (G r0) = ModelResponse.error).
  { intros r0 Hr0.
    destruct (created_row_final models modelIds (ComparisonSession.prompt session) sdk schedule
                db2 created r0 Hnd Hids Hndid Hr0) as (j & _ & HG).
    unfold G, trace. rewrite HG.
    destruct (streamResponse_shape models (ModelResponse.modelId r0)
                (ComparisonSession.prompt session) (sdk j)) as (chunks & last & -> & Hlast & _).
    by apply rowRun_terminal. }
  rewrite Forall_forall in Hfresh.
  split.
  - intros modelId Hm. rewrite <- Hids in Hm.
    apply list_elem_of_fmap in Hm as (r0 & -> & Hr0).
    exists (G r0). split; [|by apply Hterm].
    rewrite fmap_app, filter_app.
    rewrite (filter_none _ (G <$> Database.responses db0)).
    + cbn [app].
      rewrite (filter_fmap_ext _ (λ y, ModelResponse.modelId y = ModelResponse.modelId r0)).
      * by rewrite (filter_unique ModelResponse.modelId) by (by rewrite ?Hids).
      * intros x Hx. destruct (Hkeys x) as [-> ->].
        destruct (Hfresh x Hx) as (-> & _). tauto.
    + intros y (x & -> & Hx)%list_elem_of_fmap [Hs _].
      destruct (Hkeys x) as [Hsx _]. rewrite Hsx in Hs. by apply (Hnew x).
  - intros r Hr Hs. rewrite fmap_app in Hr.
    apply elem_of_app in Hr as [Hr|Hr]; apply list_elem_of_fmap in Hr as (x & -> & Hx).
    + destruct (Hkeys x) as [Hsx _]. rewrite Hsx in Hs. by destruct (Hnew x).
    + destruct (Hterm x Hx) as [-> | ->]; done.
Qed.

Lemma eventsFor_trace modelId (trace : list Delivery) :
  eventsFor modelId ((λ d, (model d, event d)) <$> trace)
  = event <$> deliveredFor modelId trace.
Proof.
  unfold eventsFor, deliveredFor.
  rewrite (filter_fmap_ext _ (λ d, model d = modelId)) by done.
  by rewrite <- list_fmap_compose.
Qed.

(** The stored text when every write lands before the next callback call.
    A call that resolved, a model whose callbacks received the chunks
    [c1 .. cn] in this order and then a [complete]: the response the call
    created for the model stores [c1 + ... + cn] as its text, each chunk
    once, with status [completed] and the metrics of the event. *)
Lemma awaited_chunks_stored_concatenated (models : gmap string BaseChatModel)
    (sessionId userId : string) (modelIds : list string) (sdk : nat -> SdkRun)
    (schedule : list nat) (io : Io) (db0 : Database.t)
    (modelId : string) (chunks : list string) (metrics : Metrics) :
  atOnce io ->
  let run := startComparisonStreaming models sessionId userId modelIds sdk schedule io db0 in
  outcome run = Resolved () ->
  eventsFor modelId (events run) = (Chunk <$> chunks) ++ [Complete metrics] ->
  exists r,
    r ∈ Database.responses (final run)
    /\ (forall r0, r0 ∈ Database.responses db0 -> ModelResponse.id r0 ≠ ModelResponse.id r)
    /\ ModelResponse.sessionId r = sessionId
    /\ ModelResponse.modelId r = modelId
    /\ ModelResponse.response r = Some (concatenation chunks)
    /\ ModelResponse.status r = ModelResponse.completed
    /\ ModelResponse.inputTokens r = Some (inputTokens metrics)
    /\ ModelResponse.outputTokens r = Some (outputTokens metrics)
    /\ ModelResponse.cost r = Some (cost metrics)
    /\ ModelResponse.responseTimeMs r = Some (responseTimeMs metrics).
Proof.
  intros Hio run Hres Hev.
  destruct (resolved_atOnce models sessionId userId modelIds sdk schedule io db0 Hio Hres)
    as (db2 & created & session & Hcreate & _ & Hfinal & Hstreamed & Hout).
  cbv zeta in Hfinal, Hstreamed, Hout. fold run in Hfinal, Hout.
  rewrite Hfinal. rewrite Hout in Hev.
  clear Hfinal Hout Hres run.
  destruct (createResponses_resolved _ _ _ _ _ _ _ _ Hcreate)
    as (Hrows & Hids & Hfresh & Hlt & Hndid).
  cbn [Database.updateSessionStatus Database.sessionRepository_update Database.responses]
    in Hrows, Hlt.
  set (trace := streamMultipleResponses models modelIds (ComparisonSession.prompt session)
                  sdk schedule) in *.
  rewrite eventsFor_trace in Hev.
  assert (Hm : modelId ∈ modelIds).
  { destruct (deliveredFor modelId trace) as [|d ds] eqn:Hds.
    - by destruct chunks.
    - assert (d ∈ deliveredFor modelId trace) as Hd by (rewrite Hds; by left).
      apply list_elem_of_filter in Hd as [Hmd Hd].
      apply delivery_origin in Hd as [Hd _]. rewrite Hmd in Hd.
      by eapply list_elem_of_lookup_2. }
  destruct (responseMap_is_Some created modelId) as [o Ho]; [by rewrite Hids|].
  destruct (responseMap_Some _ _ _ Ho) as [Hin Hmo].
  rewrite Forall_forall in Hfresh. destruct (Hfresh o Hin) as (Hso & _ & Hresp).
  exists (touched trace (streaming db2 created) o).
  destruct (touched_keys trace (streaming db2 created) o) as (Hid & Hsid & Hmid).
  split.
  { cbn [Database.updateSessionStatus Database.updateSessionMetrics
         Database.sessionRepository_update Database.responses].
    rewrite Hstreamed, Hrows.
    apply list_elem_of_fmap_2, elem_of_app; by right. }
  split; [intros r0 Hr0; rewrite Hid; pose proof (Hlt o r0 Hin Hr0); lia|].
  split; [by rewrite Hsid|]. split; [by rewrite Hmid|].
  rewrite (touched_own _ _ modelId o); [|done| |done].
  - rewrite Hev, Hresp, rowRun_app. cbn [rowRun rowStep].
    destruct (rowRun_chunks chunks EmptyString o Hresp) as [Htext _].
    by cbn [Database.setCompleted ModelResponse.response ModelResponse.status
            ModelResponse.inputTokens ModelResponse.outputTokens ModelResponse.cost
            ModelResponse.responseTimeMs].
  - intros key o' Hkey Ho'. by eapply responseMap_distinct.
Qed.

Section Failing.

Lemma failing_trace models modelIds prompt sdk schedule d :
  (forall i, (i < length modelIds)%nat -> is_Some (failure (sdk i))) ->
  d ∈ streamMultipleResponses models modelIds prompt sdk schedule ->
  ~ isComplete (event d).
Proof.
  intros Hfail [Hi He]%delivery_origin.
  destruct (streamResponse_shape models (model d) prompt (sdk (invocation d)))
    as (chunks & last & Hshape & _ & Hlast).
  rewrite Hshape in He. apply elem_of_app in He as [He|He].
  - apply list_elem_of_fmap in He as (c & -> & _). by intros [].
  - apply list_elem_of_singleton in He as ->. apply Hlast, Hfail.
    by eapply lookup_lt_Some.
Qed.

Lemma List_filter_none {A} (p : A -> bool) (l : list A) :
  (forall x, x ∈ l -> p x = false) -> List.filter p l = [].
Proof.
  induction l as [|x l IH]; intros Hno; [done|].
  cbn [List.filter]. rewrite (Hno x) by (by left). apply IH. intros y Hy. apply Hno. by right.
Qed.

(** With the repository answering, the identifiers listed and the session
    owned by the user, the call resolves. *)
Lemma answered_call_resolves (models : gmap string BaseChatModel)
    (sessionId userId : string) (modelIds : list string) (sdk : nat -> SdkRun)
    (schedule : list nat) (io : Io) (db0 : Database.t) :
  is_Some (Database.getSession sessionId userId db0) ->
  Forall (available models) modelIds ->
  answers io (length modelIds) ->
  outcome (startComparisonStreaming models sessionId userId modelIds sdk schedule io db0)
  = Resolved ().
Proof.
  intros Hget Havail (Hbegin & Hread & Hrecompute & Hcompleted & Hinserts).
  destruct (run_settled models sessionId userId modelIds sdk schedule io db0)
    as (settled & Hsettled & -> & _).
  destruct (tryBlock_cases models sessionId userId modelIds sdk schedule io db0)
    as [(e & He & _)
       |[(_ & db2 & e & Hcreate & _)
        |[(_ & db2 & created & e & Hcreate & Hnoget & _)
         |(_ & _ & db2 & created & session & _ & _ & Hend)]]]; cbv zeta in *.
  - congruence.
  - destruct (createResponses_all_available (getAvailableModels models) io sessionId modelIds 0
      (Database.updateSessionStatus (stamps io markInProgress) sessionId
         ComparisonSession.in_progress db0) Havail Hinserts) as [rows Hrows].
    by rewrite Hcreate in Hrows.
  - destruct Hnoget as [He|(_ & Hnoget & _)]; [congruence|].
    pose proof (createResponses_sessions (getAvailableModels models) io sessionId modelIds 0
      (Database.updateSessionStatus (stamps io markInProgress) sessionId
         ComparisonSession.in_progress db0)) as Hsess.
    rewrite Hcreate in Hsess. cbn [fst] in Hsess.
    destruct db0 as [sessions0 rows0], db2 as [sessions2 rows2].
    cbn [Database.sessions] in Hsess. subst sessions2.
    destruct (getSession_after_status (stamps io markInProgress) sessionId userId
                ComparisonSession.in_progress sessions0 rows0 rows2 Hget) as [session Hsession].
    cbn [Database.updateSessionStatus Database.sessionRepository_update Database.sessions]
      in Hsession, Hnoget.
    by rewrite Hsession in Hnoget.
  - destruct Hend as [(e & He & _)|[(_ & e & He & _)|(_ & _ & Hattempt)]]; [congruence..|].
    rewrite Hattempt in Hsettled. cbn [result] in Hsettled. by subst settled.
Qed.

End Failing.

(** C5. A session its user owns and that has no [completed] response, model
    identifiers the registry lists, a repository that answers, and every
    invocation failing: the call resolves, every requested model ends with
    an error event and none with a [complete], and the session ends
    [completed], not [failed], with [totalTokens], [totalCost] and
    [averageResponseTime] all 0. *)
Theorem all_invocations_fail_session_completed (models : gmap string BaseChatModel)
    (sessionId userId : string) (modelIds : list string) (sdk : nat -> SdkRun)
    (schedule : list nat) (io : Io) (db0 : Database.t) :
  is_Some (Database.getSession sessionId userId db0) ->
  Forall (available models) modelIds ->
  (forall i, (i < length modelIds)%nat -> is_Some (failure (sdk i))) ->
  (forall r, r ∈ Database.responses db0 -> ModelResponse.sessionId r = sessionId ->
     ModelResponse.status r ≠ ModelResponse.completed) ->
  answers io (length modelIds) ->
  let run := startComparisonStreaming models sessionId userId modelIds sdk schedule io db0 in
  outcome run = Resolved ()
  /\ (forall modelId, modelId ∈ modelIds -> exists error, (modelId, Error error) ∈ events run)
  /\ (forall modelId metrics, (modelId, Complete metrics) ∉ events run)
  /\ (exists s, s ∈ Database.sessions (final run)
                /\ ComparisonSession.id s = sessionId
                /\ ComparisonSession.userId s = userId)
  /\ (forall s, s ∈ Database.sessions (final run) ->
        ComparisonSession.id s = sessionId ->
        ComparisonSession.status s = ComparisonSession.completed
        /\ ComparisonSession.totalTokens s = 0
        /\ ComparisonSession.totalCost s = 0%Q
        /\ ComparisonSession.averageResponseTime s = 0%Q).
Proof.
  intros Hget Havail Hfail Hnone Hio run.
  assert (Hres : outcome run = Resolved ()) by by apply answered_call_resolves.
  split; [done|].
  destruct (resolved_created models sessionId userId modelIds sdk schedule io db0 Hres)
    as (db2 & created & session & Hcreate & _ & _ & Hfinal & _ & Hout).
  cbv zeta in Hfinal, Hout. fold run in Hfinal, Hout.
  destruct (createResponses_resolved _ _ _ _ _ _ _ _ Hcreate) as (Hrows2 & Hids & Hfresh & _).
  pose proof (createResponses_sessions (getAvailableModels models) io sessionId modelIds 0
    (Database.updateSessionStatus (stamps io markInProgress) sessionId
       ComparisonSession.in_progress db0)) as Hsess.
  rewrite Hcreate in Hsess. cbn [fst] in Hsess.
  cbn [Database.updateSessionStatus Database.sessionRepository_update Database.responses]
    in Hrows2.
  set (trace := streamMultipleResponses models modelIds (ComparisonSession.prompt session)
                  sdk schedule) in *.
  set (st := landAll (landsBeforeRecompute io) (stream io 0 trace (streaming db2 created))) in *.
  assert (Htrace : forall d, d ∈ trace -> ~ isComplete (event d)).
  { intros d Hd. by eapply failing_trace. }
  assert (Hquiet : noCompletion sessionId st).
  { apply landAll_noCompletion, stream_noCompletion; [done|]. split.
    - cbn [streaming db]. rewrite Hrows2. intros r [Hr|Hr]%elem_of_app Hs.
      + by apply Hnone.
      + rewrite Forall_forall in Hfresh. destruct (Hfresh r Hr) as (_ & Hp & _). congruence.
    - intros w m Hw. cbn [streaming inFlight] in Hw. inversion Hw. }
  assert (Hcompleted : Database.completedOf sessionId (db st) = []).
  { unfold Database.completedOf. apply List_filter_none. intros r Hr.
    apply andb_false_iff.
    destruct (decide (ModelResponse.sessionId r = sessionId)) as [Hs|Hs];
      [|left; by apply bool_decide_eq_false].
    right. apply bool_decide_eq_false. by apply Hquiet. }
  assert (Hsessions : Database.sessions (db st) = Database.sessions
            (Database.updateSessionStatus (stamps io markInProgress) sessionId
               ComparisonSession.in_progress db0)).
  { unfold st. by rewrite landAll_sessions, stream_sessions. }
  split; [|split; [|split]].
  - intros modelId [j Hj]%list_elem_of_lookup.
    destruct (streamResponse_shape models modelId (ComparisonSession.prompt session) (sdk j))
      as (chunks & last & Hshape & Hlast & Hnot).
    destruct last as [c|metrics|error]; [done| |].
    + destruct Hnot; [|done]. apply Hfail. by eapply lookup_lt_Some.
    + exists error. rewrite Hout. apply list_elem_of_fmap.
      exists {| invocation := j; model := modelId; event := Error error |}.
      split; [done|].
      assert (Hin : {| invocation := j; model := modelId; event := Error error |}
                      ∈ deliveredBy j trace).
      { unfold trace. rewrite deliveredBy_stream, promises_lookup, Hj.
        apply list_elem_of_fmap. exists (Error error). split; [done|].
        rewrite Hshape. apply elem_of_app. right. by left. }
      by apply list_elem_of_filter in Hin as [_ Hin].
  - intros modelId metrics Hin. rewrite Hout in Hin.
    apply list_elem_of_fmap in Hin as (d & [= _ Hd] & Hdin).
    apply (Htrace d Hdin). by rewrite <- Hd.
  - destruct Hget as [[s0 rs] Hs0].
    apply getSession_Some in Hs0 as (Hs0 & Hid0 & Huser0 & _).
    exists (Database.setUpdatedAt (stamps io markCompleted)
              (Database.setSessionStatus ComparisonSession.completed
                 (Database.setUpdatedAt (stamps io recompute)
                    (Database.setMetrics 0 0%Q 0%Q
                       (Database.setUpdatedAt (stamps io markInProgress)
                          (Database.setSessionStatus ComparisonSession.in_progress s0)))))).
    split; [|done]. rewrite Hfinal.
    apply updateSessionStatus_intro; [|done].
    unfold Database.updateSessionMetrics. rewrite Hcompleted. cbn [foldl length].
    unfold Database.sessionRepository_update. cbn [Database.sessions].
    apply list_elem_of_fmap.
    exists (Database.setUpdatedAt (stamps io markInProgress)
              (Database.setSessionStatus ComparisonSession.in_progress s0)).
    split; [by rewrite decide_True|].
    rewrite Hsessions. by apply updateSessionStatus_intro.
  - intros s Hs Hid. rewrite Hfinal in Hs.
    apply updateSessionStatus_elem in Hs as (s1 & Hs1 & Hid1 & ->); [|done].
    unfold Database.updateSessionMetrics in Hs1. rewrite Hcompleted in Hs1.
    cbn [foldl length] in Hs1.
    unfold Database.sessionRepository_update in Hs1. cbn [Database.sessions] in Hs1.
    apply list_elem_of_fmap in Hs1 as (s2 & -> & _).
    case_decide; [done|]. by destruct Hid1.
Qed.

Section Rejected.

Context (models : gmap string BaseChatModel) (sessionId userId : string)
  (modelIds : list string) (sdk : nat -> SdkRun) (schedule : list nat)
  (io : Io) (db0 : Database.t).

(** What the [catch] makes of an exception of the [try] block: with the
    status written, the exception goes on to the caller; when the write
    rejects, its exception does, and the session table stays as it was. *)
Lemma run_rejected e :
  let attempt := tryBlock models sessionId userId modelIds sdk schedule io db0 in
  let run := startComparisonStreaming models sessionId userId modelIds sdk schedule io db0 in
  result attempt = Rejected e ->
  (rejects io markFailed = None ->
     outcome run = Rejected e
     /\ atReturn run
        = Database.updateSessionStatus (stamps io markFailed) sessionId
            ComparisonSession.failed (db (state attempt))
     /\ Database.sessions (final run)
        = Database.sessions
            (Database.updateSessionStatus (stamps io markFailed) sessionId
               ComparisonSession.failed (db (state attempt))))
  /\ (forall e', rejects io markFailed = Some e' ->
        outcome run = Rejected e'
        /\ atReturn run = db (state attempt)
        /\ Database.sessions (final run) = Database.sessions (db (state attempt))).
Proof.
  intros attempt run Hthrown. subst attempt run. unfold startComparisonStreaming.
  rewrite Hthrown. unfold catchBlock. cbn [outcome atReturn final].
  split.
  - intros ->. cbn [result state await db]. split; [done|]. split; [done|].
    by rewrite drain_sessions, landAll_sessions.
  - intros e' ->. cbn [result state]. split; [done|]. split; [done|].
    by rewrite drain_sessions, landAll_sessions.
Qed.

(** Whatever way the call ends, every stored session keeps its key, owner,
    prompt and creation time, and the sessions with another key keep
    everything. *)
Lemma run_sessions :
  Forall2 (sameSession sessionId) (Database.sessions db0)
    (Database.sessions
       (final (startComparisonStreaming models sessionId userId modelIds sdk schedule io db0))).
Proof.
  destruct (run_settled models sessionId userId modelIds sdk schedule io db0)
    as (settled & Hsettled & _ & _ & _ & ->).
  pose proof (tryBlock_sessions models sessionId userId modelIds sdk schedule io db0) as Hkept.
  subst settled.
  destruct (result (tryBlock models sessionId userId modelIds sdk schedule io db0))
    as [[]|error]; [done|].
  unfold catchBlock. destruct (rejects io markFailed); cbn [state await db]; [done|].
  eapply Forall2_sameSession_trans; [exact Hkept|]. apply updateSessionStatus_sameSession.
Qed.

(** A call whose [try] block ends before the streams start calls no
    callback. *)
Lemma run_idle d outcome' :
  tryBlock models sessionId userId modelIds sdk schedule io db0
  = {| state := idle d; result := Rejected outcome' |} ->
  events (startComparisonStreaming models sessionId userId modelIds sdk schedule io db0) = [].
Proof.
  intros Hattempt. unfold startComparisonStreaming. rewrite Hattempt.
  cbn [result state events]. unfold catchBlock.
  destruct (rejects io markFailed); cbn [state]; by rewrite settle_idle.
Qed.

(** An identifier the registry does not list ends the [try] block at the
    inserts, when it gets there. *)
Lemma unknown_model_attempt modelId :
  modelId ∈ modelIds ->
  ~ available models modelId ->
  exists d e,
    tryBlock models sessionId userId modelIds sdk schedule io db0
    = {| state := idle d; result := Rejected e |}
    /\ (rejects io markInProgress = None -> e = typeErrorProvider).
Proof.
  intros Hin Hunknown.
  pose proof (createResponses_unknown (getAvailableModels models) io sessionId modelIds 0
    (Database.updateSessionStatus (stamps io markInProgress) sessionId
       ComparisonSession.in_progress db0) modelId Hin) as Hrej.
  unfold available in Hunknown.
  destruct (List.find _ (getAvailableModels models)) as [info|] eqn:Hfind;
    [by destruct Hunknown|].
  specialize (Hrej eq_refl). unfold tryBlock.
  destruct (rejects io markInProgress) as [e|]; [by exists db0, e|].
  destruct (createResponses _ _ _ _ _ _) as [db2 [rows|e]]; cbn in Hrej; [done|].
  injection Hrej as ->. by exists db2, typeErrorProvider.
Qed.

End Rejected.

(** C6 (as the code has it). Whenever the [try] block throws and the write
    of the [catch] is answered, the exception the caller gets is the one the
    [try] block threw, and the status of the session has been set to
    [failed]: every stored session with the identifier is [failed], and a
    session that was stored before the call still is. When the write of the
    [catch] is rejected, the caller gets the exception of that write and the
    session table is left as the [try] block left it. *)
Theorem orchestration_failure_recorded_and_rethrown (models : gmap string BaseChatModel)
    (sessionId userId : string) (modelIds : list string) (sdk : nat -> SdkRun)
    (schedule : list nat) (io : Io) (db0 : Database.t) (e : Exception) :
  let attempt := tryBlock models sessionId userId modelIds sdk schedule io db0 in
  let run := startComparisonStreaming models sessionId userId modelIds sdk schedule io db0 in
  result attempt = Rejected e ->
  (rejects io markFailed = None ->
     outcome run = Rejected e
     /\ atReturn run
        = Database.updateSessionStatus (stamps io markFailed) sessionId
            ComparisonSession.failed (db (state attempt))
     /\ (forall s, s ∈ Database.sessions (final run) ->
           ComparisonSession.id s = sessionId ->
           ComparisonSession.status s = ComparisonSession.failed)
     /\ (forall s0, s0 ∈ Database.sessions db0 ->
           ComparisonSession.id s0 = sessionId ->
           exists s, s ∈ Database.sessions (final run)
                     /\ ComparisonSession.id s = sessionId
                     /\ ComparisonSession.userId s = ComparisonSession.userId s0
                     /\ ComparisonSession.prompt s = ComparisonSession.prompt s0
                     /\ ComparisonSession.status s = ComparisonSession.failed))
  /\ (forall e', rejects io markFailed = Some e' ->
        outcome run = Rejected e'
        /\ atReturn run = db (state attempt)
        /\ Database.sessions (final run) = Database.sessions (db (state attempt))).
Proof.
  intros attempt run Hthrown.
  destruct (run_rejected models sessionId userId modelIds sdk schedule io db0 e Hthrown)
    as [Hwritten Hlost].
  fold attempt run in Hwritten, Hlost.
  split; [|exact Hlost].
  intros Hcatch. destruct (Hwritten Hcatch) as (Hout & Hreturn & Hfinal).
  split; [done|]. split; [done|]. rewrite Hfinal. split.
  - intros s Hs Hid. by apply updateSessionStatus_elem in Hs as (s1 & _ & _ & ->).
  - intros s0 Hs0 Hid0.
    destruct (sameSession_partner sessionId _ _ s0
                (tryBlock_sessions models sessionId userId modelIds sdk schedule io db0) Hs0)
      as (s1 & Hs1 & Hid1 & Hu1 & Hp1 & _).
    fold attempt in Hs1.
    exists (Database.setUpdatedAt (stamps io markFailed)
              (Database.setSessionStatus ComparisonSession.failed s1)).
    split; [apply updateSessionStatus_intro; [done|congruence]|].
    cbn. repeat split; congruence.
Qed.

(** C3, on the code. An identifier the registry does not list makes the
    whole call reject: no stream is started and no callback is called for
    any model; with the two status writes answered, the exception is the
    [TypeError] of [model.provider] and the session is marked [failed].
    [streamResponse] itself would have reported such an identifier through
    [onError] only. *)
Theorem unknown_model_rejects_whole_call (models : gmap string BaseChatModel)
    (sessionId userId : string) (modelIds : list string) (sdk : nat -> SdkRun)
    (schedule : list nat) (io : Io) (db0 : Database.t) (modelId : string) :
  modelId ∈ modelIds ->
  ~ available models modelId ->
  let run := startComparisonStreaming models sessionId userId modelIds sdk schedule io db0 in
  outcome run ≠ Resolved ()
  /\ events run = []
  /\ (rejects io markInProgress = None ->
      rejects io markFailed = None ->
      outcome run = Rejected typeErrorProvider
      /\ (forall s, s ∈ Database.sessions (final run) ->
            ComparisonSession.id s = sessionId ->
            ComparisonSession.status s = ComparisonSession.failed))
  /\ (models !! modelId = None ->
      forall prompt i,
        streamResponse models modelId prompt (sdk i)
        = [Error ("Model " +:+ modelId +:+ " not found")]).
Proof.
  intros Hin Hunknown run.
  destruct (unknown_model_attempt models sessionId userId modelIds sdk schedule io db0
              modelId Hin Hunknown) as (d & e & Hattempt & He).
  assert (Hthrown : result (tryBlock models sessionId userId modelIds sdk schedule io db0)
                    = Rejected e) by by rewrite Hattempt.
  destruct (run_rejected models sessionId userId modelIds sdk schedule io db0 e Hthrown)
    as [Hwritten Hlost].
  fold run in Hwritten, Hlost.
  split; [|split; [|split]].
  - destruct (rejects io markFailed) as [e'|].
    + destruct (Hlost e' eq_refl) as (-> & _). done.
    + destruct (Hwritten eq_refl) as (-> & _). done.
  - by eapply run_idle.
  - intros Hbegin Hcatch. destruct (Hwritten Hcatch) as (Hout & _ & Hfinal).
    rewrite (He Hbegin) in Hout. split; [done|].
    intros s Hs Hid. rewrite Hfinal in Hs.
    by apply updateSessionStatus_elem in Hs as (s1 & _ & _ & ->).
  - intros Hm prompt i. unfold streamResponse. by rewrite Hm.
Qed.

Lemma available_iff_registered cfg modelId :
  available (initializeModels cfg) modelId <-> is_Some (initializeModels cfg !! modelId).
Proof.
  unfold available, initializeModels.
  destruct (truthy (OPENAI_API_KEY cfg)), (truthy (ANTHROPIC_API_KEY cfg)),
    (truthy (GOOGLE_API_KEY cfg));
    match goal with
    | |- context [getAvailableModels ?m] =>
        let l := eval vm_compute in (getAvailableModels m) in
        change (getAvailableModels m) with l
    end;
    cbn [List.find LangChain.id].
  all: repeat (rewrite lookup_insert; case_decide;
               [subst modelId; vm_compute; split; intros _; by eexists|]).
  all: rewrite ?bool_decide_eq_false_2 by done; by rewrite ?lookup_empty.
Qed.

(** ** The statements on the scenario *)

(** C1, as stated, fails when an identifier is requested twice: two
    responses are created for it, [responseMap] keeps the second, and the
    first stays [pending] after the call has resolved. *)
Lemma duplicate_identifier_left_pending :
  let run := startComparisonStreaming Scenario.models "s1" "u1" ["gpt-4"; "gpt-4"]
               Scenario.sdk Scenario.schedule Scenario.reliable Scenario.db0 in
  outcome run = Resolved ()
  /\ (λ r, (ModelResponse.sessionId r, ModelResponse.modelId r, ModelResponse.status r))
       <$> Database.responses (final run)
     = [("s1", "gpt-4", ModelResponse.pending); ("s1", "gpt-4", ModelResponse.completed)].
Proof. vm_compute. split; reflexivity. Qed.

(** It fails as well on a session that has a response already: the one a
    first call created before it was rejected stays [pending] when a second
    call has resolved, beside the response of that call. *)
Lemma earlier_response_left_pending :
  let run := startComparisonStreaming Scenario.models "s1" "u1" ["gpt-4"]
               Scenario.sdk Scenario.schedule Scenario.reliable Scenario.afterRejected in
  (λ r, (ModelResponse.sessionId r, ModelResponse.modelId r, ModelResponse.status r))
    <$> Database.responses Scenario.afterRejected
  = [("s1", "gpt-4", ModelResponse.pending)]
  /\ outcome run = Resolved ()
  /\ (λ r, (ModelResponse.sessionId r, ModelResponse.modelId r, ModelResponse.status r))
       <$> Database.responses (final run)
     = [("s1", "gpt-4", ModelResponse.pending); ("s1", "gpt-4", ModelResponse.completed)].
Proof. vm_compute. repeat split; reflexivity. Qed.

(** It fails when the write of a chunk, which nothing waits for, lands after
    the write of the completion: the response is [completed] when the call
    resolves and ends [streaming]. *)
Lemma late_write_left_streaming :
  let run := startComparisonStreaming Scenario.models "s1" "u1" Scenario.requested
               Scenario.sdk Scenario.schedule Scenario.reordering Scenario.db0 in
  outcome run = Resolved ()
  /\ (λ r, (ModelResponse.modelId r, ModelResponse.status r))
       <$> Database.responses (atReturn run)
     = [("gpt-4", ModelResponse.completed);
        ("claude-sonnet-4-20250514", ModelResponse.error)]
  /\ (λ r, (ModelResponse.modelId r, ModelResponse.status r))
       <$> Database.responses (final run)
     = [("gpt-4", ModelResponse.streaming);
        ("claude-sonnet-4-20250514", ModelResponse.error)].
Proof. vm_compute. repeat split; reflexivity. Qed.

(** And at the moment the call resolves the writes need not have landed,
    even in the order issued: with a repository that applies them later,
    both responses are still [pending] then. *)
Lemma writes_in_flight_at_return :
  let run := startComparisonStreaming Scenario.models "s1" "u1" Scenario.requested
               Scenario.sdk Scenario.schedule Scenario.slow Scenario.db0 in
  inOrder Scenario.slow
  /\ outcome run = Resolved ()
  /\ (λ r, (ModelResponse.modelId r, ModelResponse.status r))
       <$> Database.responses (atReturn run)
     = [("gpt-4", ModelResponse.pending);
        ("claude-sonnet-4-20250514", ModelResponse.pending)]
  /\ (λ r, (ModelResponse.modelId r, ModelResponse.status r))
       <$> Database.responses (final run)
     = [("gpt-4", ModelResponse.completed);
        ("claude-sonnet-4-20250514", ModelResponse.error)].
Proof.
  split; [|vm_compute; repeat split; reflexivity].
  split; [intros j; constructor|split; constructor].
Qed.

Lemma startComparisonStreaming_all_terminal_witness :
  let run := startComparisonStreaming Scenario.models "s1" "u1" Scenario.requested
               Scenario.sdk Scenario.schedule Scenario.reliable Scenario.db0 in
  (forall modelId, modelId ∈ Scenario.requested ->
     exists r,
       filter (λ r, ModelResponse.sessionId r = "s1"
                    /\ ModelResponse.modelId r = modelId)
         (Database.responses (final run)) = [r]
       /\ (ModelResponse.status r = ModelResponse.completed
           \/ ModelResponse.status r = ModelResponse.error))
  /\ (forall r, r ∈ Database.responses (final run) ->
        ModelResponse.sessionId r = "s1" ->
        ModelResponse.status r ≠ ModelResponse.pending
        /\ ModelResponse.status r ≠ ModelResponse.streaming).
Proof.
  apply (startComparisonStreaming_all_terminal Scenario.models "s1" "u1" Scenario.requested
           Scenario.sdk Scenario.schedule Scenario.reliable Scenario.db0).
  - apply (bool_decide_unpack _). vm_compute. exact I.
  - intros r Hr. vm_compute in Hr. inversion Hr.
  - split; [intros j; repeat constructor|split; constructor].
  - vm_compute. reflexivity.
Defined.

Lemma updateSessionMetrics_aggregates_witness :
  Scenario.recomputed
    ∈ Database.sessions (Database.updateSessionMetrics 1700000009 "s1" Scenario.afterRun)
  /\ ComparisonSession.totalTokens Scenario.recomputed = 13
  /\ (ComparisonSession.totalCost Scenario.recomputed == calculateCost "gpt-4" 5 8)%Q
  /\ (ComparisonSession.averageResponseTime Scenario.recomputed == 900)%Q.
Proof.
  assert (Hin : Scenario.recomputed
            ∈ Database.sessions
                (Database.updateSessionMetrics 1700000009 "s1" Scenario.afterRun))
    by (vm_compute; left).
  destruct (updateSessionMetrics_aggregates 1700000009 "s1" Scenario.afterRun
              Scenario.recomputed Hin eq_refl) as (Ht & Hc & _ & Ha & _).
  split; [exact Hin|]. split; [|split].
  - rewrite Ht. vm_compute. reflexivity.
  - etransitivity; [exact Hc|]. vm_compute. reflexivity.
  - etransitivity; [apply Ha; vm_compute; lia|]. vm_compute. reflexivity.
Defined.

Lemma unknown_model_rejects_whole_call_witness :
  let run := startComparisonStreaming Scenario.models "s1" "u1" ["gpt-4"; "no-such-model"]
               Scenario.sdk Scenario.schedule Scenario.reliable Scenario.db0 in
  outcome run = Rejected typeErrorProvider
  /\ events run = []
  /\ (forall s, s ∈ Database.sessions (final run) ->
        ComparisonSession.id s = "s1" ->
        ComparisonSession.status s = ComparisonSession.failed)
  /\ streamResponse Scenario.models "no-such-model" "Explain recursion" (Scenario.sdk 1)
     = [Error ("Model " +:+ "no-such-model" +:+ " not found")].
Proof.
  destruct (unknown_model_rejects_whole_call Scenario.models "s1" "u1"
              ["gpt-4"; "no-such-model"] Scenario.sdk Scenario.schedule Scenario.reliable
              Scenario.db0 "no-such-model") as (_ & Hevents & Hfailed & Hstream).
  - right. left.
  - intros [info Hinfo]. vm_compute in Hinfo. discriminate.
  - destruct (Hfailed eq_refl eq_refl) as [Hout Hstatus].
    split; [exact Hout|]. split; [exact Hevents|]. split; [exact Hstatus|].
    apply Hstream. reflexivity.
Defined.

(** C4, as stated, fails on the code: the chunk callback does not wait for
    its write, so the write of the first chunk can land after the write of
    the completion. The callbacks of ["gpt-4"] received the four chunks and
    the [complete] in order, the response was stored with the whole text
    when the call resolved, and it ends with the first chunk as its text and
    status [streaming], beside the metrics of the completion. *)
Lemma late_chunk_write_truncates_text :
  let run := startComparisonStreaming Scenario.models "s1" "u1" Scenario.requested
               Scenario.sdk Scenario.schedule Scenario.reordering Scenario.db0 in
  outcome run = Resolved ()
  /\ eventsFor "gpt-4" (events run)
     = (Chunk <$> ["Rec"; "ursion"; " is..."; "done"]) ++ [Complete Scenario.metrics]
  /\ (λ r, (ModelResponse.modelId r, ModelResponse.response r, ModelResponse.status r))
       <$> Database.responsesOf "s1" (atReturn run)
     = [("gpt-4", Some "Recursion is...done", ModelResponse.completed);
        ("claude-sonnet-4-20250514", Some EmptyString, ModelResponse.error)]
  /\ (λ r, (ModelResponse.modelId r, ModelResponse.response r, ModelResponse.status r,
            ModelResponse.inputTokens r, ModelResponse.outputTokens r))
       <$> Database.responsesOf "s1" (final run)
     = [("gpt-4", Some "Rec", ModelResponse.streaming, Some 5, Some 8);
        ("claude-sonnet-4-20250514", Some EmptyString, ModelResponse.error, None, None)].
Proof. vm_compute. repeat split; reflexivity. Qed.

Lemma all_invocations_fail_session_completed_witness :
  let run := startComparisonStreaming Scenario.models "s1" "u1" Scenario.requested
               Scenario.allFail Scenario.schedule Scenario.slow Scenario.db0 in
  outcome run = Resolved ()
  /\ (forall modelId, modelId ∈ Scenario.requested ->
        exists error, (modelId, Error error) ∈ events run)
  /\ (forall modelId metrics, (modelId, Complete metrics) ∉ events run)
  /\ (exists s, s ∈ Database.sessions (final run)
                /\ ComparisonSession.id s = "s1"
                /\ ComparisonSession.userId s = "u1")
  /\ (forall s, s ∈ Database.sessions (final run) ->
        ComparisonSession.id s = "s1" ->
        ComparisonSession.status s = ComparisonSession.completed
        /\ ComparisonSession.totalTokens s = 0
        /\ ComparisonSession.totalCost s = 0%Q
        /\ ComparisonSession.averageResponseTime s = 0%Q).
Proof.
  apply (all_invocations_fail_session_completed Scenario.models "s1" "u1" Scenario.requested
           Scenario.allFail Scenario.schedule Scenario.slow Scenario.db0).
  - vm_compute. eexists. reflexivity.
  - apply Forall_cons. split; [vm_compute; eexists; reflexivity|].
    apply Forall_cons. split; [vm_compute; eexists; reflexivity|]. apply Forall_nil_2.
  - intros i _. vm_compute. eexists. reflexivity.
  - intros r Hr. vm_compute in Hr. inversion Hr.
  - repeat split.
Defined.

(** C6, as stated, fails when the repository cannot be reached: the read of
    the prompt rejects, the [catch] cannot write the status either, and the
    caller gets the exception of that write, not the one the [try] block
    threw, while the session stays [in_progress]. *)
Lemma unreachable_repository_other_exception :
  let attempt := tryBlock Scenario.models "s1" "u1" Scenario.requested
                   Scenario.sdk Scenario.schedule Scenario.unreachable Scenario.db0 in
  let run := startComparisonStreaming Scenario.models "s1" "u1" Scenario.requested
               Scenario.sdk Scenario.schedule Scenario.unreachable Scenario.db0 in
  result attempt = Rejected (ErrorOf "SQLITE_CANTOPEN: unable to open database file")
  /\ outcome run = Rejected (ErrorOf "SQLITE_BUSY: database is locked")
  /\ ComparisonSession.status <$> Database.sessions (atReturn run)
     = [ComparisonSession.in_progress]
  /\ ComparisonSession.status <$> Database.sessions (final run)
     = [ComparisonSession.in_progress].
Proof. vm_compute. repeat split; reflexivity. Qed.

Lemma orchestration_failure_recorded_and_rethrown_witness :
  let run := startComparisonStreaming Scenario.models "s1" "intruder" Scenario.requested
               Scenario.sdk Scenario.schedule Scenario.reliable Scenario.db0 in
  outcome run = Rejected typeErrorPrompt
  /\ ComparisonSession.status <$> Database.sessions (atReturn run)
     = [ComparisonSession.failed]
  /\ (forall s, s ∈ Database.sessions (final run) ->
        ComparisonSession.id s = "s1" ->
        ComparisonSession.status s = ComparisonSession.failed).
Proof.
  destruct (orchestration_failure_recorded_and_rethrown Scenario.models "s1" "intruder"
              Scenario.requested Scenario.sdk Scenario.schedule Scenario.reliable
              Scenario.db0 typeErrorPrompt) as [Hwritten _].
  - vm_compute. reflexivity.
  - destruct (Hwritten eq_refl) as (Hout & Hreturn & Hfailed & _).
    split; [exact Hout|]. split; [|exact Hfailed].
    rewrite Hreturn. vm_compute. reflexivity.
Defined.

Lemma streamMultipleResponses_isolation_witness :
  let run1 := streamMultipleResponses Scenario.models Scenario.requested "Explain recursion"
                Scenario.sdk Scenario.schedule in
  let run2 := streamMultipleResponses Scenario.models Scenario.requested "Explain recursion"
                Scenario.sdkOk [1; 1; 0; 1]%nat in
  deliveredBy 0 run1 = deliveredBy 0 run2
  /\ event <$> deliveredBy 0 run1
     = streamResponse Scenario.models "gpt-4" "Explain recursion" (Scenario.sdk 0)
  /\ (NoDup Scenario.requested -> deliveredFor "gpt-4" run1 = deliveredFor "gpt-4" run2).
Proof.
  apply (streamMultipleResponses_isolation Scenario.models Scenario.requested
           "Explain recursion" Scenario.sdk Scenario.sdkOk Scenario.schedule
           [1; 1; 0; 1]%nat 1%nat 0%nat "gpt-4").
  - intros [|[|i]] Hi; [reflexivity|contradiction|reflexivity].
  - discriminate.
  - reflexivity.
Defined.

(** C10, as stated, fails on a prompt that is its own first 100 characters
    followed by three dots: it is longer than 100 characters and the history
    shows it in full. *)
Lemma history_shows_dotted_prompt_in_full :
  (100 < String.length Scenario.dotted)%nat
  /\ hi_prompt <$> getComparisonHistory "u1" 20 0 Scenario.dottedDb = [Scenario.dotted].
Proof. split; [vm_compute; lia|vm_compute; reflexivity]. Qed.

(** * Further properties of the code *)

Import More.

(** ** The registry and the pricing table *)

Section Registry.

Lemma available_elem_of models modelId :
  available models modelId <-> modelId ∈ LangChain.id <$> getAvailableModels models.
Proof.
  unfold available. generalize (getAvailableModels models); intros l.
  induction l as [|info l IH]; cbn [List.find].
  - split; [by intros [? [=]]|by intros ?%elem_of_nil].
  - rewrite fmap_cons, elem_of_cons. case_bool_decide as Hid.
    + split; [by left|by eexists].
    + rewrite IH. split; [by right|]. by intros [?|?].
Qed.

(** X1. Whatever credentials are configured, [getAvailableModels] lists
    exactly the identifiers the registry holds, each once, two per
    configured provider, and [getModelCount] is the length of the list. *)
Theorem getAvailableModels_lists_registry (cfg : Config) (modelId : string) :
  let models := initializeModels cfg in
  NoDup (LangChain.id <$> getAvailableModels models)
  /\ (modelId ∈ LangChain.id <$> getAvailableModels models <-> is_Some (models !! modelId))
  /\ getModelCount models = length (getAvailableModels models)
  /\ getModelCount models = (2 * configuredProviders cfg)%nat.
Proof.
  intros models. split; [|split].
  - subst models. unfold initializeModels.
    destruct (truthy (OPENAI_API_KEY cfg)), (truthy (ANTHROPIC_API_KEY cfg)),
      (truthy (GOOGLE_API_KEY cfg));
      apply (bool_decide_unpack _); vm_compute; exact I.
  - rewrite <- available_elem_of. apply available_iff_registered.
  - subst models. unfold initializeModels, configuredProviders.
    destruct (truthy (OPENAI_API_KEY cfg)), (truthy (ANTHROPIC_API_KEY cfg)),
      (truthy (GOOGLE_API_KEY cfg)); vm_compute; done.
Qed.

(** X2. Every model [getAvailableModels] lists is priced: its [pricing] is
    the entry of the pricing table, both rates are positive, the output
    rate is not below the input rate, and its provider name is the one of
    the client the registry holds for it. *)
Theorem listed_models_are_priced (cfg : Config) (info : ModelInfo) :
  info ∈ getAvailableModels (initializeModels cfg) ->
  pricingMap !! LangChain.id info = Some (pricing info)
  /\ pricing info = getPricing (LangChain.id info)
  /\ (0 < input (pricing info))%Q
  /\ (input (pricing info) <= output (pricing info))%Q
  /\ initializeModels cfg !! LangChain.id info
     = clientOf (provider info) (LangChain.id info).
Proof.
  unfold initializeModels.
  destruct (truthy (OPENAI_API_KEY cfg)), (truthy (ANTHROPIC_API_KEY cfg)),
    (truthy (GOOGLE_API_KEY cfg));
    match goal with
    | |- context [getAvailableModels ?m] =>
        let l := eval vm_compute in (getAvailableModels m) in
        change (getAvailableModels m) with l
    end;
    intros Hin;
    repeat (apply elem_of_cons in Hin as [->|Hin];
            [vm_compute; repeat split; try reflexivity; discriminate|]);
    by apply elem_of_nil in Hin.
Qed.

Lemma cost_monotone (pi po : Q) (i o i' o' : Z) :
  (0 <= pi)%Q -> (0 <= po)%Q -> 0 <= i <= i' -> 0 <= o <= o' ->
  (0 <= inject_Z i / 1000 * pi + inject_Z o / 1000 * po)%Q
  /\ (inject_Z i / 1000 * pi + inject_Z o / 1000 * po
      <= inject_Z i' / 1000 * pi + inject_Z o' / 1000 * po)%Q.
Proof.
  intros Hpi Hpo [Hi Hi'] [Ho Ho'].
  assert (Hdiv : forall a b : Z, a <= b -> (inject_Z a / 1000 <= inject_Z b / 1000)%Q).
  { intros a b Hab. unfold Qdiv. apply Qmult_le_compat_r; [|done].
    by rewrite <- Zle_Qle. }
  assert (Hnn : forall a : Z, 0 <= a -> (0 <= inject_Z a / 1000)%Q).
  { intros a Ha. unfold Qdiv. apply Qmult_le_0_compat; [|done].
    change 0%Q with (inject_Z 0). by rewrite <- Zle_Qle. }
  split.
  - change 0%Q with (0 + 0)%Q. apply Qplus_le_compat; apply Qmult_le_0_compat; auto.
  - apply Qplus_le_compat; apply Qmult_le_compat_r; auto.
Qed.

Lemma pricing_nonneg modelId :
  (0 <= input (getPricing modelId))%Q /\ (0 <= output (getPricing modelId))%Q.
Proof.
  unfold getPricing, pricingMap. cbn [list_to_map foldr fst snd curry].
  repeat (rewrite lookup_insert; case_decide; [by vm_compute|]).
  rewrite lookup_empty. by vm_compute.
Qed.

(** X3. The cost of a model is never negative and never falls when the
    usage grows; it is zero for a model the pricing table does not hold.
    (The names every object inherits are not read from the table and are
    left aside.) *)
Theorem calculateCost_monotone (modelId : string) (i o i' o' : Z) :
  modelId ∉ inheritedKeys ->
  0 <= i <= i' -> 0 <= o <= o' ->
  (0 <= calculateCost modelId i o)%Q
  /\ (calculateCost modelId i o <= calculateCost modelId i' o')%Q
  /\ (pricingMap !! modelId = None -> (calculateCost modelId i' o' == 0)%Q).
Proof.
  intros _ Hi Ho. destruct (pricing_nonneg modelId) as [Hpi Hpo].
  unfold calculateCost. cbv zeta.
  destruct (cost_monotone _ _ i o i' o' Hpi Hpo Hi Ho) as [H0 Hle].
  split; [done|]. split; [done|].
  intros Hnone. unfold getPricing. rewrite Hnone. cbn [default input output]. ring.
Qed.

End Registry.

(** ** One stream and the fan-out *)

Section OneStream.

Context (models : gmap string BaseChatModel) (modelId prompt : string) (run : SdkRun).

Lemma chunksOf_chunks (chunks : list string) (last : StreamEvent) :
  isTerminal last -> chunksOf ((Chunk <$> chunks) ++ [last]) = chunks.
Proof.
  intros Hlast. unfold chunksOf. rewrite omap_app.
  assert (omap (fun e => match e with Chunk c => Some c | _ => None end) [last] = []) as ->
    by (by destruct last).
  rewrite app_nil_r. induction chunks as [|c chunks IH]; [done|].
  rewrite fmap_cons. cbn [omap list_omap]. by rewrite IH.
Qed.

Lemma fullResponseOf_acc (contents : list string) (acc : string) :
  foldl String.append acc contents = acc +:+ concatenation contents.
Proof.
  revert acc. induction contents as [|c contents IH]; intros acc.
  - cbn. by rewrite append_empty_r.
  - cbn [foldl]. rewrite IH. change (concatenation (c :: contents))
      with (c +:+ concatenation contents). by rewrite append_assoc.
Qed.

Lemma fullResponseOf_concatenation (contents : list string) :
  fullResponseOf contents = concatenation contents.
Proof. unfold fullResponseOf. by rewrite fullResponseOf_acc. Qed.

Lemma concatenation_hasContent (contents : list string) :
  concatenation (List.filter hasContent contents) = concatenation contents.
Proof.
  induction contents as [|c contents IH]; [done|].
  cbn [List.filter]. destruct c as [|a c]; cbn [hasContent].
  - exact IH.
  - change (String a c +:+ concatenation (List.filter hasContent contents)
            = String a c +:+ concatenation contents). by rewrite IH.
Qed.

(** X4. Whatever the SDK does, a stream is a run of chunks closed by
    exactly one terminal event; that event is a [complete] exactly when the
    model is in the registry and the SDK did not fail, and an error
    otherwise. *)
Theorem streamResponse_one_terminal_event :
  exists chunks last,
    streamResponse models modelId prompt run = (Chunk <$> chunks) ++ [last]
    /\ isTerminal last
    /\ (isComplete last <-> is_Some (models !! modelId) /\ failure run = None)
    /\ (models !! modelId = None ->
          chunks = [] /\ last = Error ("Model " +:+ modelId +:+ " not found"))
    /\ (forall message, is_Some (models !! modelId) -> failure run = Some message ->
          last = Error message).
Proof.
  unfold streamResponse. destruct (models !! modelId) as [client|].
  - destruct (failure run) as [message|].
    + eexists _, _. split; [done|]. split; [done|]. split; [|split; [done|]].
      * split; [by intros []|by intros [_ [=]]].
      * by intros ? _ [= <-].
    + eexists _, _. split; [done|]. split; [done|]. split; [|done].
      split; [intros _; split; [by eexists|done]|done].
  - exists [], (Error ("Model " +:+ modelId +:+ " not found")).
    split; [done|]. split; [done|]. split; [|split; [done|]].
    + split; [by intros []|by intros [[? [=]] _]].
    + by intros ? [? [=]].
Qed.

(** X5. For a model of the registry no chunk handed to [onChunk] is
    empty, the chunks are the contents the SDK yielded with the empty ones
    left out, and their concatenation is the whole text the SDK yielded;
    on success the output tokens of the metrics are counted on that text,
    the cost is the one of the two counts and the response time is the
    elapsed time. *)
Theorem streamResponse_chunks_keep_text :
  is_Some (models !! modelId) ->
  let events := streamResponse models modelId prompt run in
  Forall (fun chunk => chunk ≠ EmptyString) (chunksOf events)
  /\ chunksOf events = List.filter hasContent (streamed run)
  /\ concatenation (chunksOf events) = concatenation (streamed run)
  /\ (failure run = None ->
        exists metrics,
          last events = Some (Complete metrics)
          /\ inputTokens metrics = countTokens run prompt
          /\ outputTokens metrics = countTokens run (concatenation (streamed run))
          /\ cost metrics
             = calculateCost modelId (inputTokens metrics) (outputTokens metrics)
          /\ responseTimeMs metrics = elapsed run).
Proof.
  intros [client Hclient] events. subst events. unfold streamResponse. rewrite Hclient.
  assert (Hchunks : forall last, isTerminal last ->
            chunksOf ((Chunk <$> List.filter hasContent (streamed run)) ++ [last])
            = List.filter hasContent (streamed run))
    by (intros; by apply chunksOf_chunks).
  assert (Hne : Forall (fun chunk => chunk ≠ EmptyString)
                  (List.filter hasContent (streamed run))).
  { apply Forall_forall. intros c Hc. apply list_elem_of_In, filter_In in Hc as [_ Hc].
    by destruct c. }
  destruct (failure run) as [message|].
  - rewrite Hchunks by done. split; [done|]. split; [done|].
    split; [apply concatenation_hasContent|done].
  - rewrite Hchunks by done. split; [done|]. split; [done|].
    split; [apply concatenation_hasContent|]. intros _. eexists.
    split; [by rewrite last_snoc|]. cbn [inputTokens outputTokens cost responseTimeMs].
    by rewrite fullResponseOf_concatenation, concatenation_hasContent.
Qed.

End OneStream.

Section Joined.

Lemma concat_insert_head {A} (streams : list (list A)) k x rest :
  streams !! k = Some (x :: rest) ->
  concat streams ≡ₚ x :: concat (<[k := rest]> streams).
Proof.
  intros Hk. rewrite insert_take_drop by (by eapply lookup_lt_Some).
  rewrite <- (take_drop_middle streams k (x :: rest)) at 1 by done.
  rewrite !concat_app. cbn [concat app].
  by rewrite <- Permutation_middle.
Qed.

(** Whatever the schedule, the deliveries are those of the streams: none is
    lost and none is made twice. *)
Lemma interleave_Permutation {A} schedule (streams : list (list A)) :
  interleave schedule streams ≡ₚ concat streams.
Proof.
  revert streams. induction schedule as [|k schedule IH]; intros streams; [done|].
  cbn [interleave]. destruct (streams !! k) as [[|x rest]|] eqn:Hk; [apply IH| |apply IH].
  by rewrite IH, <- concat_insert_head.
Qed.

Lemma terminal_count_stream models modelId prompt run i :
  length (filter (fun d => isTerminal (event d))
            ((fun e => {| invocation := i; model := modelId; event := e |})
               <$> streamResponse models modelId prompt run)) = 1%nat.
Proof.
  destruct (streamResponse_shape models modelId prompt run) as (chunks & last & -> & Hlast & _).
  rewrite fmap_app, filter_app, length_app.
  rewrite filter_none.
  - cbn [fmap list_fmap]. by rewrite filter_cons_True.
  - intros d (e & -> & (c & -> & _)%list_elem_of_fmap)%list_elem_of_fmap. by intros [].
Qed.

Lemma terminal_count_promises models prompt sdk (f : nat -> nat) modelIds :
  length (filter (fun d => isTerminal (event d))
            (concat (imap (fun i modelId =>
                       (fun e => {| invocation := f i; model := modelId; event := e |})
                         <$> streamResponse models modelId prompt (sdk (f i))) modelIds)))
  = length modelIds.
Proof.
  revert f. induction modelIds as [|m modelIds IH]; intros f; [done|].
  rewrite imap_cons. cbn [concat]. rewrite filter_app, length_app.
  rewrite terminal_count_stream. cbn [length]. f_equal.
  apply (IH (f ∘ S)).
Qed.

(** X6. For every schedule [streamMultipleResponses] delivers exactly the
    events of the streams it started, none lost and none twice, so one
    terminal event per requested identifier; without identifiers it
    delivers nothing. *)
Theorem streamMultipleResponses_delivers_all (models : gmap string BaseChatModel)
    (modelIds : list string) (prompt : string) (sdk : nat -> SdkRun)
    (schedule : list nat) :
  let trace := streamMultipleResponses models modelIds prompt sdk schedule in
  trace ≡ₚ concat (promises models modelIds prompt sdk)
  /\ length (filter (fun d => isTerminal (event d)) trace) = length modelIds
  /\ (modelIds = [] -> trace = []).
Proof.
  intros trace. subst trace. unfold streamMultipleResponses.
  pose proof (interleave_Permutation schedule (promises models modelIds prompt sdk)) as Hperm.
  split; [done|]. split.
  - rewrite Hperm. apply (terminal_count_promises models prompt sdk (fun i => i)).
  - intros ->. apply Permutation_nil_r. by rewrite Hperm.
Qed.

End Joined.

Section Estimate.

Lemma countWords_length s :
  (2 * Js.countWords s false <= String.length s + 1
   /\ 2 * Js.countWords s true <= String.length s)%nat.
Proof.
  induction s as [|c s [IHf IHt]]; [cbn; lia|].
  cbn [Js.countWords String.length]. destruct (Js.isWhiteSpace c); lia.
Qed.

(** X7. On a text that is not empty the estimate is at least 2, so the
    final [Math.max (estimatedTokens, 1)] never decides, and it is at most
    the number of characters plus one. *)
Theorem estimateTokens_bounds (text : string) :
  text ≠ EmptyString ->
  2 <= estimateTokens text <= Z.of_nat (String.length text) + 1.
Proof.
  intros Hne. unfold estimateTokens.
  destruct (decide (String.length text = 0%nat)) as [Hlen|Hlen]; [by destruct text|].
  rewrite wordBasedTokens_closed, charBasedTokens_closed, wordsOf_countWords.
  unfold charactersOf.
  destruct (countWords_length text) as [Hw _].
  set (w := Js.countWords text false) in *. set (n := String.length text) in *.
  assert (1 <= Z.of_nat (Nat.max 1 w)) by lia.
  assert (2 * Z.of_nat (Nat.max 1 w) <= Z.max 2 (Z.of_nat n + 1)) by lia.
  assert (1 <= Z.of_nat n) by lia.
  pose proof (Z.div_mod (13 * Z.of_nat (Nat.max 1 w) + 9) 10 ltac:(lia)).
  pose proof (Z.mod_pos_bound (13 * Z.of_nat (Nat.max 1 w) + 9) 10 ltac:(lia)).
  pose proof (Z.div_mod (2 * Z.of_nat n + 6) 7 ltac:(lia)).
  pose proof (Z.mod_pos_bound (2 * Z.of_nat n + 6) 7 ltac:(lia)).
  lia.
Qed.

End Estimate.

(** ** The repository *)

Section Repository.


(** X8. [updateSessionStatus] leaves the responses as they are and every
    session in its place; a session with the given identifier gets the
    status and the time of the write as its [updatedAt] and keeps its other
    columns, every other session is unchanged; a second write replaces the
    first; and without a session of that identifier the repository is left
    as it is. *)
Theorem updateSessionStatus_only_status (now later : Z) (sessionId : string)
    (a b : ComparisonSession.Status) (db : Database.t) :
  Database.responses (Database.updateSessionStatus now sessionId a db) = Database.responses db
  /\ Forall2
       (fun s0 s =>
          ComparisonSession.id s = ComparisonSession.id s0
          /\ ComparisonSession.prompt s = ComparisonSession.prompt s0
          /\ ComparisonSession.totalTokens s = ComparisonSession.totalTokens s0
          /\ ComparisonSession.totalCost s = ComparisonSession.totalCost s0
          /\ ComparisonSession.averageResponseTime s
             = ComparisonSession.averageResponseTime s0
          /\ ComparisonSession.createdAt s = ComparisonSession.createdAt s0
          /\ ComparisonSession.userId s = ComparisonSession.userId s0
          /\ (ComparisonSession.id s0 = sessionId ->
              ComparisonSession.status s = a /\ ComparisonSession.updatedAt s = now)
          /\ (ComparisonSession.id s0 ≠ sessionId -> s = s0))
       (Database.sessions db)
       (Database.sessions (Database.updateSessionStatus now sessionId a db))
  /\ Database.updateSessionStatus later sessionId b
       (Database.updateSessionStatus now sessionId a db)
     = Database.updateSessionStatus later sessionId b db
  /\ ((forall s, s ∈ Database.sessions db -> ComparisonSession.id s ≠ sessionId) ->
      Database.updateSessionStatus now sessionId a db = db).
Proof.
  unfold Database.updateSessionStatus, Database.sessionRepository_update.
  cbn [Database.sessions Database.responses].
  split; [done|]. split; [|split].
  - apply Forall2_fmap_r, Forall_Forall2_diag, Forall_forall. intros s _.
    unfold compose. destruct (decide (ComparisonSession.id s = sessionId)) as [Hs|Hs].
    + by repeat split.
    + by repeat split.
  - f_equal. rewrite <- list_fmap_compose. apply list_fmap_ext. intros _ s _. cbn.
    destruct (decide (ComparisonSession.id s = sessionId)) as [Hs|Hs].
    + by rewrite decide_True.
    + by rewrite decide_False.
  - intros Hnone. destruct db as [sessions responses]. cbn [Database.sessions Database.responses] in *.
    f_equal. apply fmap_id_where. intros s Hs. rewrite decide_False; [done|]. by apply Hnone.
Qed.

Lemma insertByCreatedAt_Permutation s sorted :
  Database.insertByCreatedAt s sorted ≡ₚ s :: sorted.
Proof.
  induction sorted as [|s' rest IH]; [done|]. cbn [Database.insertByCreatedAt].
  destruct (ComparisonSession.createdAt s' <? ComparisonSession.createdAt s); [done|].
  rewrite IH. apply Permutation_swap.
Qed.

Lemma insertByCreatedAt_sorted s sorted :
  StronglySorted notOlder sorted ->
  StronglySorted notOlder (Database.insertByCreatedAt s sorted).
Proof.
  induction 1 as [|s' rest Hrest IH Hall]; [repeat constructor|].
  cbn [Database.insertByCreatedAt].
  destruct (ComparisonSession.createdAt s' <? ComparisonSession.createdAt s) eqn:Hlt.
  - apply Z.ltb_lt in Hlt. constructor; [by constructor|].
    constructor; [unfold notOlder; lia|].
    eapply Forall_impl; [exact Hall|]. unfold notOlder. intros x Hx. lia.
  - apply Z.ltb_ge in Hlt. constructor; [done|].
    rewrite insertByCreatedAt_Permutation. by constructor.
Qed.

Lemma newestFirst_Permutation l : Database.newestFirst l ≡ₚ l.
Proof.
  unfold Database.newestFirst. induction l as [|s l IH]; [done|].
  cbn [foldr]. by rewrite insertByCreatedAt_Permutation, IH.
Qed.

Lemma newestFirst_sorted l : StronglySorted notOlder (Database.newestFirst l).
Proof.
  unfold Database.newestFirst. induction l as [|s l IH]; [constructor|].
  cbn [foldr]. by apply insertByCreatedAt_sorted.
Qed.

Lemma StronglySorted_take_drop {A} (R : relation A) (l : list A) n m :
  StronglySorted R l -> StronglySorted R (take n (drop m l)).
Proof.
  intros Hl. rewrite <- (take_drop m l) in Hl. apply StronglySorted_app_1_r in Hl.
  rewrite <- (take_drop n (drop m l)) in Hl. by apply StronglySorted_app_1_l in Hl.
Qed.

(** X9. A page of [getSessions] with a positive [limit] holds at most
    [limit] rows; with a [limit] of 0 or less it holds every session of the
    user from the offset on; each row is a stored session of the user
    together with the responses of that session; no row is newer than a row
    before it; and from an offset of 0 or less, with no limit or one that is
    large enough, the page holds every session of the user. *)
Theorem getSessions_page (userId : string) (limit offset : Z) (db : Database.t) :
  let page := Database.getSessions userId limit offset db in
  let mine := filter (fun s => ComparisonSession.userId s = userId) (Database.sessions db) in
  (0 < limit -> (length page <= Z.to_nat limit)%nat)
  /\ (limit <= 0 -> length page = (length mine - Z.to_nat offset)%nat)
  /\ Forall (fun row =>
               row.1 ∈ Database.sessions db
               /\ ComparisonSession.userId row.1 = userId
               /\ row.2 = Database.responsesOf (ComparisonSession.id row.1) db) page
  /\ StronglySorted notOlder (page.*1)
  /\ (offset <= 0 ->
      limit <= 0 \/ Z.of_nat (length mine) <= limit ->
      page.*1 ≡ₚ mine).
Proof.
  intros page mine'. subst page. unfold Database.getSessions.
  set (mine := List.filter _ (Database.sessions db)).
  assert (Hmine : mine = mine').
  { subst mine mine'. induction (Database.sessions db) as [|s l IH]; [done|].
    cbn [List.filter]. rewrite filter_cons, IH.
    case_bool_decide; by case_decide. }
  set (skipped := drop (Z.to_nat offset) (Database.newestFirst mine)).
  set (rows := if decide (0 < limit) then take (Z.to_nat limit) skipped else skipped).
  assert (Hfst : ((fun s => (s, Database.responsesOf (ComparisonSession.id s) db))
                    <$> rows).*1 = rows).
  { rewrite <- list_fmap_compose. apply list_fmap_id. }
  assert (Hskipped : length skipped = (length mine' - Z.to_nat offset)%nat).
  { unfold skipped. by rewrite length_drop, newestFirst_Permutation, Hmine. }
  assert (Hsub : rows ⊆ mine').
  { intros s Hs. rewrite <- Hmine, <- (newestFirst_Permutation mine).
    apply (subseteq_drop (Z.to_nat offset)). fold skipped. unfold rows in Hs.
    destruct (decide (0 < limit)); [by apply (subseteq_take (Z.to_nat limit))|done]. }
  split; [|split; [|split; [|split]]].
  - intros Hpos. rewrite length_fmap. unfold rows. rewrite decide_True by done.
    rewrite length_take. lia.
  - intros Hnone. rewrite length_fmap. unfold rows. by rewrite decide_False by lia.
  - apply Forall_fmap, Forall_forall. intros s Hs. cbn.
    apply Hsub in Hs. by apply list_elem_of_filter in Hs as [Hu Hin].
  - rewrite Hfst. unfold rows, skipped. destruct (decide (0 < limit)).
    + apply StronglySorted_take_drop, newestFirst_sorted.
    + rewrite <- (take_ge (drop _ _) (length (Database.newestFirst mine)))
        by (rewrite length_drop; lia).
      apply StronglySorted_take_drop, newestFirst_sorted.
  - intros Hoffset Hlimit. rewrite Hfst. unfold rows, skipped.
    replace (Z.to_nat offset) with 0%nat by lia. rewrite drop_0.
    destruct (decide (0 < limit)) as [Hpos|Hpos].
    + rewrite take_ge; [by rewrite newestFirst_Permutation, Hmine|].
      rewrite newestFirst_Permutation, Hmine. lia.
    + by rewrite newestFirst_Permutation, Hmine.
Qed.

(** X11. [updateSessionMetrics] can be repeated: a second call leaves what
    a single call at its time leaves. It never touches the responses, and of
    a session with the identifier it changes the three aggregates and
    [updatedAt] only; every other session is unchanged. *)
Theorem updateSessionMetrics_idempotent (now later : Z) (sessionId : string)
    (db : Database.t) :
  Database.updateSessionMetrics later sessionId
    (Database.updateSessionMetrics now sessionId db)
  = Database.updateSessionMetrics later sessionId db
  /\ Database.responses (Database.updateSessionMetrics now sessionId db)
     = Database.responses db
  /\ Forall2
       (fun s0 s =>
          ComparisonSession.id s = ComparisonSession.id s0
          /\ ComparisonSession.prompt s = ComparisonSession.prompt s0
          /\ ComparisonSession.status s = ComparisonSession.status s0
          /\ ComparisonSession.userId s = ComparisonSession.userId s0
          /\ ComparisonSession.createdAt s = ComparisonSession.createdAt s0
          /\ (ComparisonSession.id s0 = sessionId -> ComparisonSession.updatedAt s = now)
          /\ (ComparisonSession.id s0 ≠ sessionId -> s = s0))
       (Database.sessions db)
       (Database.sessions (Database.updateSessionMetrics now sessionId db)).
Proof.
  unfold Database.updateSessionMetrics, Database.sessionRepository_update, Database.completedOf.
  cbn [Database.sessions Database.responses].
  split; [|split; [done|]].
  - f_equal. rewrite <- list_fmap_compose. apply list_fmap_ext. intros _ s _. cbn.
    destruct (decide (ComparisonSession.id s = sessionId)) as [Hs|Hs].
    + by rewrite decide_True.
    + by rewrite decide_False.
  - apply Forall2_fmap_r, Forall_Forall2_diag, Forall_forall. intros s _.
    unfold compose.
    destruct (decide (ComparisonSession.id s = sessionId)); [|done]. repeat split; done.
Qed.

(** X12. A response that was just created is the only row the calls on its
    key reach: finalizing it, or marking it as failed, leaves every row
    stored before as it was and turns the new row into [completed] with
    the metrics, or into [error] with the message. Its key is new. *)
Theorem created_response_is_reached (sessionId modelId provider : string)
    (metrics : Metrics) (errorMessage : string) (db : Database.t) :
  let created := Database.createModelResponse sessionId modelId provider db in
  let key := ModelResponse.id created.2 in
  Forall (fun r => ModelResponse.id r ≠ key) (Database.responses db)
  /\ Database.responses (Database.finalizeModelResponse key metrics created.1)
     = Database.responses db ++ [Database.setCompleted metrics created.2]
  /\ Database.responses (Database.markResponseAsError key errorMessage created.1)
     = Database.responses db ++ [Database.setError errorMessage created.2]
  /\ ModelResponse.status created.2 = ModelResponse.pending
  /\ ModelResponse.response created.2 = Some EmptyString.
Proof.
  intros created key. subst created key. cbn [Database.createModelResponse fst snd ModelResponse.id].
  assert (Hfresh : Forall (fun r => ModelResponse.id r ≠ Database.generatedId (Database.responses db))
                     (Database.responses db)).
  { apply Forall_forall. intros r Hr. pose proof (generatedId_fresh _ r Hr). lia. }
  split; [done|].
  unfold Database.finalizeModelResponse, Database.markResponseAsError,
    Database.responseRepository_update. cbn [Database.responses].
  rewrite !fmap_app. cbn [fmap list_fmap ModelResponse.id]. rewrite !decide_True by done.
  rewrite !fmap_id_where; [done| |].
  - intros r Hr. rewrite decide_False; [done|]. by eapply (proj1 (Forall_forall _ _) Hfresh).
  - intros r Hr. rewrite decide_False; [done|]. by eapply (proj1 (Forall_forall _ _) Hfresh).
Qed.

(** X13. A write on a key no response carries changes nothing. *)
Theorem response_update_missing_key (responseId : nat)
    (updates : ModelResponse.t -> ModelResponse.t) (metrics : Metrics)
    (errorMessage : string) (db : Database.t) :
  (forall r, r ∈ Database.responses db -> ModelResponse.id r ≠ responseId) ->
  Database.updateModelResponse responseId updates db = db
  /\ Database.finalizeModelResponse responseId metrics db = db
  /\ Database.markResponseAsError responseId errorMessage db = db.
Proof.
  intros Hnone.
  assert (H : forall set, Database.responseRepository_update responseId set db = db).
  { intros set. unfold Database.responseRepository_update. destruct db as [sessions responses].
    cbn [Database.sessions Database.responses] in *. f_equal.
    apply fmap_id_where. intros r Hr. rewrite decide_False; [done|]. by apply Hnone. }
  unfold Database.updateModelResponse, Database.finalizeModelResponse,
    Database.markResponseAsError. by rewrite !H.
Qed.

End Repository.

(** ** The orchestration as a whole *)

Section Frame.

Import Aggregates.


Lemma createResponses_blank avail io sessionId modelIds i db db' rows :
  createResponses avail io sessionId modelIds i db = (db', Resolved rows) ->
  Forall blank rows.
Proof.
  revert i db db' rows. induction modelIds as [|m rest IH]; intros i db db' rows.
  - cbn [createResponses]. by intros [= <- <-].
  - cbn [createResponses]. destruct (List.find _ avail) as [info|]; [|done].
    destruct (inserts io i).
    + cbn [Database.createModelResponse].
      match goal with |- context [createResponses avail io sessionId rest (S i) ?d] =>
        specialize (IH (S i) d);
        destruct (createResponses avail io sessionId rest (S i) d) as [db2 [rs|e]]
      end; [|done].
      intros [= <- <-]. constructor; [done|]. by eapply IH.
    + by destruct (createResponses avail io sessionId rest (S i) db) as [db2 [rs|e]].
Qed.

Lemma rowRun_chunks_blank chunks acc r :
  blank r -> blank (rowRun (Chunk <$> chunks) acc r).
Proof.
  revert acc r. induction chunks as [|c chunks IH]; intros acc r Hr; [done|].
  rewrite fmap_cons. cbn [rowRun]. apply IH. by destruct Hr as (? & ? & ? & ? & ?).
Qed.

Context (models : gmap string BaseChatModel) (sessionId userId : string)
  (modelIds : list string) (sdk : nat -> SdkRun) (schedule : list nat)
  (io : Io) (db0 : Database.t).




Lemma updateSessionMetrics_elem now sid d s :
  s ∈ Database.sessions (Database.updateSessionMetrics now sid d) ->
  ComparisonSession.id s = sid ->
  ComparisonSession.totalTokens s = sumTokens sid (Database.responses d)
  /\ (ComparisonSession.totalCost s == sumCost sid (Database.responses d))%Q
  /\ ComparisonSession.averageResponseTime s
     = (if decide (0 < howMany sid (Database.responses d))%nat
        then inject_Z (sumTime sid (Database.responses d))
             / inject_Z (Z.of_nat (howMany sid (Database.responses d)))
        else 0)%Q.
Proof.
  intros Hin Hid.
  unfold Database.updateSessionMetrics, Database.sessionRepository_update in Hin.
  cbn [Database.sessions] in Hin. rewrite completedOf_counted in Hin.
  apply list_elem_of_fmap in Hin as (s0 & -> & _).
  destruct (decide (ComparisonSession.id s0 = sid)) as [Hs0|Hs0]; [|done].
  cbn [Database.setMetrics Database.setUpdatedAt ComparisonSession.totalTokens
    ComparisonSession.totalCost ComparisonSession.averageResponseTime].
  rewrite foldl_tokens, foldl_time, length_counted, !Z.add_0_l.
  split; [done|]. split; [by rewrite foldl_cost, Qplus_0_l|done].
Qed.

(** X15. When [startComparisonStreaming] has resolved, the session of the
    caller is stored with status [completed]; and when every write has
    landed before the next callback call, every stored session with the key
    carries the totals of the responses as they are stored: the tokens and
    the cost summed over the completed responses of the session, and the
    mean of their response times (0 without any). *)
Theorem resolved_session_completed_with_totals :
  let run := startComparisonStreaming models sessionId userId modelIds sdk schedule io db0 in
  outcome run = Resolved () ->
  (exists s, s ∈ Database.sessions (final run)
             /\ ComparisonSession.id s = sessionId
             /\ ComparisonSession.userId s = userId)
  /\ (forall s, s ∈ Database.sessions (final run) ->
        ComparisonSession.id s = sessionId ->
        ComparisonSession.status s = ComparisonSession.completed)
  /\ (atOnce io ->
      forall s, s ∈ Database.sessions (final run) ->
        ComparisonSession.id s = sessionId ->
        let rows := Database.responses (final run) in
        ComparisonSession.totalTokens s = sumTokens sessionId rows
        /\ (ComparisonSession.totalCost s == sumCost sessionId rows)%Q
        /\ ComparisonSession.averageResponseTime s
           = (if decide (0 < howMany sessionId rows)%nat
              then inject_Z (sumTime sessionId rows)
                   / inject_Z (Z.of_nat (howMany sessionId rows))
              else 0)%Q).
Proof.
  intros run Hres.
  destruct (resolved_created models sessionId userId modelIds sdk schedule io db0 Hres)
    as (db2 & created & session & _ & Hget & _ & Hsessions & _).
  cbv zeta in Hsessions. fold run in Hsessions.
  split; [|split].
  - rewrite Hsessions. clear Hsessions.
    set (st := landAll _ _).
    destruct (getSession_Some _ _ _ _ _ Hget) as (Hin & Hid & Hu & _).
    assert (Hin' : session ∈ Database.sessions (db st))
      by (unfold st; by rewrite landAll_sessions, stream_sessions).
    assert (exists s1,
              s1 ∈ Database.sessions
                     (Database.updateSessionMetrics (stamps io recompute) sessionId (db st))
              /\ ComparisonSession.id s1 = sessionId
              /\ ComparisonSession.userId s1 = userId) as (s1 & Hs1 & Hid1 & Hu1).
    { unfold Database.updateSessionMetrics, Database.sessionRepository_update.
      cbn [Database.sessions]. eexists. split; [apply list_elem_of_fmap_2, Hin'|].
      cbn beta. by rewrite decide_True by done. }
    exists (Database.setUpdatedAt (stamps io markCompleted)
              (Database.setSessionStatus ComparisonSession.completed s1)).
    split; [by apply updateSessionStatus_intro|done].
  - intros s Hs Hid. rewrite Hsessions in Hs.
    by apply updateSessionStatus_elem in Hs as (s1 & _ & _ & ->).
  - intros Hio s Hs Hid rows. subst rows.
    destruct (resolved_atOnce models sessionId userId modelIds sdk schedule io db0 Hio Hres)
      as (db2' & created' & session' & _ & _ & Hfinal & _ & _).
    cbv zeta in Hfinal. fold run in Hfinal. rewrite Hfinal in Hs |- *.
    apply updateSessionStatus_elem in Hs as (s1 & Hs1 & Hid1 & ->); [|done].
    destruct (updateSessionMetrics_elem _ _ _ _ Hs1 Hid1) as (Htok & Hcost & Havg).
    cbn [Database.updateSessionStatus Database.sessionRepository_update Database.responses
         Database.setSessionStatus Database.setUpdatedAt ComparisonSession.status
         ComparisonSession.totalTokens
         ComparisonSession.totalCost ComparisonSession.averageResponseTime].
    match goal with |- context [Database.responses (Database.updateSessionMetrics ?n ?i ?d)] =>
      change (Database.responses (Database.updateSessionMetrics n i d))
        with (Database.responses d)
    end.
    by repeat split.
Qed.

End Frame.

Section FailedStream.

Import Aggregates.

(** X16. With every write landed before the next callback call: a call
    that resolved, a model whose callbacks received the chunks [c1 .. cn]
    and then an error: the response the call created for the model keeps
    [c1 + ... + cn] as its text, has status [error] and the message of the
    event, carries no token count, cost or response time, and is not among
    the responses the totals of the session are taken over. *)
Theorem failed_stream_keeps_partial_text (models : gmap string BaseChatModel)
    (sessionId userId : string) (modelIds : list string) (sdk : nat -> SdkRun)
    (schedule : list nat) (io : Io) (db0 : Database.t)
    (modelId : string) (chunks : list string) (message : string) :
  atOnce io ->
  let run := startComparisonStreaming models sessionId userId modelIds sdk schedule io db0 in
  outcome run = Resolved () ->
  eventsFor modelId (events run) = (Chunk <$> chunks) ++ [Error message] ->
  exists r,
    r ∈ Database.responses (final run)
    /\ (forall r0, r0 ∈ Database.responses db0 -> ModelResponse.id r0 ≠ ModelResponse.id r)
    /\ ModelResponse.sessionId r = sessionId
    /\ ModelResponse.modelId r = modelId
    /\ ModelResponse.response r = Some (concatenation chunks)
    /\ ModelResponse.status r = ModelResponse.error
    /\ ModelResponse.errorMessage r = Some message
    /\ ModelResponse.inputTokens r = None
    /\ ModelResponse.outputTokens r = None
    /\ ModelResponse.cost r = None
    /\ ModelResponse.responseTimeMs r = None
    /\ counted sessionId r = false.
Proof.
  intros Hio run Hres Hev.
  destruct (resolved_atOnce models sessionId userId modelIds sdk schedule io db0 Hio Hres)
    as (db2 & created & session & Hcreate & _ & Hfinal & Hstreamed & Hout).
  cbv zeta in Hfinal, Hstreamed, Hout. fold run in Hfinal, Hout.
  rewrite Hfinal. rewrite Hout in Hev.
  clear Hfinal Hout Hres run.
  destruct (createResponses_resolved _ _ _ _ _ _ _ _ Hcreate)
    as (Hrows & Hids & Hfresh & Hlt & Hndid).
  pose proof (createResponses_blank _ _ _ _ _ _ _ _ Hcreate) as Hblank.
  cbn [Database.updateSessionStatus Database.sessionRepository_update Database.responses]
    in Hrows, Hlt.
  set (trace := streamMultipleResponses models modelIds (ComparisonSession.prompt session)
                  sdk schedule) in *.
  rewrite eventsFor_trace in Hev.
  assert (Hm : modelId ∈ modelIds).
  { destruct (deliveredFor modelId trace) as [|d ds] eqn:Hds.
    - by destruct chunks.
    - assert (d ∈ deliveredFor modelId trace) as Hd by (rewrite Hds; by left).
      apply list_elem_of_filter in Hd as [Hmd Hd].
      apply delivery_origin in Hd as [Hd _]. rewrite Hmd in Hd.
      by eapply list_elem_of_lookup_2. }
  destruct (responseMap_is_Some created modelId) as [o Ho]; [by rewrite Hids|].
  destruct (responseMap_Some _ _ _ Ho) as [Hin Hmo].
  rewrite Forall_forall in Hfresh, Hblank. destruct (Hfresh o Hin) as (Hso & _ & Hresp).
  exists (touched trace (streaming db2 created) o).
  destruct (touched_keys trace (streaming db2 created) o) as (Hid & Hsid & Hmid).
  split.
  { cbn [Database.updateSessionStatus Database.updateSessionMetrics
         Database.sessionRepository_update Database.responses].
    rewrite Hstreamed, Hrows.
    apply list_elem_of_fmap_2, elem_of_app; by right. }
  split; [intros r0 Hr0; rewrite Hid; pose proof (Hlt o r0 Hin Hr0); lia|].
  split; [by rewrite Hsid|]. split; [by rewrite Hmid|].
  rewrite (touched_own _ _ modelId o); [|done| |done].
  - rewrite Hev, Hresp, rowRun_app. cbn [rowRun rowStep].
    destruct (rowRun_chunks chunks EmptyString o Hresp) as [Htext _].
    destruct (rowRun_chunks_blank chunks (Some EmptyString) o (Hblank o Hin))
      as (Hi & Ho' & Hc & Ht & _).
    unfold counted.
    cbn [Database.setError ModelResponse.response ModelResponse.status
         ModelResponse.inputTokens ModelResponse.outputTokens ModelResponse.cost
         ModelResponse.responseTimeMs ModelResponse.errorMessage ModelResponse.sessionId].
    repeat split; try done. apply andb_false_r.
  - intros key o' Hkey Ho'. by eapply responseMap_distinct.
Qed.

End FailedStream.

(** ** comparison.service.ts, the remaining methods *)

Section Service.

Lemma find_app_r {A} (p : A -> bool) (l k : list A) :
  (forall x, x ∈ l -> p x = false) -> List.find p (l ++ k) = List.find p k.
Proof.
  induction l as [|x l IH]; intros Hl; [done|]. cbn [app List.find].
  rewrite Hl by (by left). apply IH. intros y Hy. apply Hl. by right.
Qed.

Lemma find_app_l {A} (p : A -> bool) (l k : list A) :
  (forall x, x ∈ k -> p x = false) -> List.find p (l ++ k) = List.find p l.
Proof.
  intros Hk. induction l as [|x l IH]; cbn [app List.find].
  - induction k as [|y k IHk]; [done|]. cbn [List.find]. rewrite Hk by (by left).
    apply IHk. intros z Hz. apply Hk. by right.
  - by destruct (p x).
Qed.

(** X17. [createComparison] stores a session that [getComparison] returns
    to its owner at once: in [pending], with the prompt, zero totals and no
    response; it answers with the list of models that was given (the empty
    list too) and with the default list only when none was given; no other
    user sees the session, and what [getComparison] answers for the other
    sessions is what it answered before. The key is new: no stored session
    and no stored response refers to it. *)
Theorem createComparison_then_getComparison (newId : string) (now : Z)
    (dto : ComparisonService.CreateComparisonDto) (userId : string) (db : Database.t) :
  (forall s, s ∈ Database.sessions db -> ComparisonSession.id s ≠ newId) ->
  (forall r, r ∈ Database.responses db -> ModelResponse.sessionId r ≠ newId) ->
  let result := ComparisonService.createComparison newId now dto userId db in
  ComparisonService.c_sessionId result.2 = newId
  /\ ComparisonService.c_prompt result.2 = ComparisonService.prompt dto
  /\ ComparisonService.c_status result.2 = ComparisonSession.pending
  /\ (forall given, ComparisonService.modelIds dto = Some given ->
        ComparisonService.c_models result.2 = given)
  /\ (ComparisonService.modelIds dto = None ->
        ComparisonService.c_models result.2 = ComparisonService.defaultModels)
  /\ getComparison newId userId result.1
     = Resolved {| sv_id := newId;
                   sv_prompt := ComparisonService.prompt dto;
                   sv_status := ComparisonSession.pending;
                   sv_totalTokens := 0;
                   sv_totalCost := 0;
                   sv_averageResponseTime := 0;
                   sv_createdAt := now;
                   sv_updatedAt := now;
                   sv_responses := [] |}
  /\ (forall other, other ≠ userId ->
        getComparison newId other result.1
        = Rejected (ErrorOf ("Session " +:+ newId +:+ " not found")))
  /\ (forall sessionId user, sessionId ≠ newId ->
        getComparison sessionId user result.1 = getComparison sessionId user db).
Proof.
  intros Hs Hr result. subst result.
  unfold ComparisonService.createComparison, Database.createSession. cbn [fst snd].
  cbn [ComparisonService.c_sessionId ComparisonService.c_prompt ComparisonService.c_status
       ComparisonService.c_models ComparisonSession.id ComparisonSession.prompt
       ComparisonSession.status].
  split; [done|]. split; [done|]. split; [done|].
  split; [by intros given ->|]. split; [by intros ->|].
  assert (Hresp : forall sessions,
            Database.responsesOf newId
              {| Database.sessions := sessions; Database.responses := Database.responses db |}
            = []).
  { intros sessions. unfold Database.responsesOf. cbn [Database.responses].
    apply List_filter_none. intros r Hin. apply bool_decide_eq_false_2. by apply Hr. }
  split; [|split].
  - unfold getComparison, Database.getSession. cbn [Database.sessions].
    rewrite find_app_r.
    + cbn [List.find ComparisonSession.id ComparisonSession.userId].
      rewrite !bool_decide_eq_true_2 by done. cbn [andb]. by rewrite Hresp.
    + intros s Hin. rewrite bool_decide_eq_false_2; [done|]. by apply Hs.
  - intros other Hother. unfold getComparison, Database.getSession. cbn [Database.sessions].
    rewrite find_app_r.
    + cbn [List.find ComparisonSession.id ComparisonSession.userId].
      rewrite (bool_decide_eq_false_2 (userId = other)) by done.
      by rewrite andb_false_r.
    + intros s Hin. rewrite bool_decide_eq_false_2; [done|]. by apply Hs.
  - intros sessionId user Hne. unfold getComparison, Database.getSession.
    cbn [Database.sessions]. rewrite find_app_l; [done|].
    intros s ->%list_elem_of_singleton. cbn [ComparisonSession.id].
    by rewrite bool_decide_eq_false_2.
Qed.

Lemma default_model_unavailable cfg :
  List.find (fun i => bool_decide (LangChain.id i = "gemini-1.5-pro"))
    (LangChain.getAvailableModels (initializeModels cfg)) = None.
Proof.
  destruct (List.find _ _) as [info|] eqn:Hfind; [|done].
  assert (available (initializeModels cfg) "gemini-1.5-pro") as Havail
    by (unfold available; rewrite Hfind; by eexists).
  apply available_iff_registered in Havail as [client Hclient]. exfalso.
  unfold initializeModels in Hclient.
  destruct (truthy (OPENAI_API_KEY cfg)), (truthy (ANTHROPIC_API_KEY cfg)),
    (truthy (GOOGLE_API_KEY cfg)); vm_compute in Hclient; discriminate.
Qed.

(** X18. The default list of [createComparison] names a model that no
    configuration registers. A session created without a list of models and
    then streamed with the list [createComparison] answered: under every
    configuration, whatever the providers and the repository answer,
    [startComparisonStreaming] does not resolve and calls no callback, and
    the session is still stored; with the two status writes answered it
    rejects with the [TypeError] of reading [provider] of [undefined] and
    the session is stored with status [failed]. *)
Theorem default_models_never_stream (cfg : Config) (newId : string) (now : Z)
    (prompt userId : string) (sdk : nat -> SdkRun) (schedule : list nat)
    (io : Io) (db : Database.t) :
  let result :=
    ComparisonService.createComparison newId now
      {| ComparisonService.prompt := prompt; ComparisonService.modelIds := None |}
      userId db in
  let run := startComparisonStreaming (initializeModels cfg) newId userId
               (ComparisonService.c_models result.2) sdk schedule io result.1 in
  outcome run ≠ Resolved ()
  /\ events run = []
  /\ (exists s, s ∈ Database.sessions (final run)
                /\ ComparisonSession.id s = newId
                /\ ComparisonSession.userId s = userId)
  /\ (rejects io markInProgress = None ->
      rejects io markFailed = None ->
      outcome run = Rejected typeErrorProvider
      /\ (forall s, s ∈ Database.sessions (final run) ->
            ComparisonSession.id s = newId ->
            ComparisonSession.status s = ComparisonSession.failed)).
Proof.
  intros result run. subst result run.
  unfold ComparisonService.createComparison, Database.createSession.
  cbn [fst snd ComparisonService.c_models ComparisonService.modelIds
       ComparisonService.prompt default].
  set (session := {| ComparisonSession.id := newId |}).
  set (db0 := {| Database.sessions := Database.sessions db ++ [session] |}).
  set (run := startComparisonStreaming _ _ _ _ _ _ _ _).
  assert (Hin : "gemini-1.5-pro" ∈ ComparisonService.defaultModels)
    by (unfold ComparisonService.defaultModels; do 3 right; left).
  assert (Hunknown : ~ available (initializeModels cfg) "gemini-1.5-pro").
  { unfold available. by rewrite default_model_unavailable; intros [? ?]. }
  destruct (unknown_model_attempt (initializeModels cfg) newId userId
              ComparisonService.defaultModels sdk schedule io db0
              "gemini-1.5-pro" Hin Hunknown) as (d & e & Hattempt & He).
  assert (Hthrown : result (tryBlock (initializeModels cfg) newId userId
                              ComparisonService.defaultModels sdk schedule io db0)
                    = Rejected e) by by rewrite Hattempt.
  destruct (run_rejected (initializeModels cfg) newId userId
              ComparisonService.defaultModels sdk schedule io db0 e Hthrown)
    as [Hwritten Hlost].
  fold run in Hwritten, Hlost.
  split; [|split; [|split]].
  - destruct (rejects io markFailed) as [e'|].
    + destruct (Hlost e' eq_refl) as (-> & _). done.
    + destruct (Hwritten eq_refl) as (-> & _). done.
  - by eapply run_idle.
  - destruct (sameSession_partner newId _ _ session
                (run_sessions (initializeModels cfg) newId userId
                   ComparisonService.defaultModels sdk schedule io db0))
      as (s & Hs & Hid & Hu & _).
    + apply elem_of_app. right. by left.
    + exists s. by repeat split.
  - intros Hbegin Hcatch. destruct (Hwritten Hcatch) as (Hout & _ & Hfinal).
    rewrite (He Hbegin) in Hout. split; [done|].
    intros s Hs Hid. rewrite Hfinal in Hs.
    by apply updateSessionStatus_elem in Hs as (s1 & _ & _ & ->).
Qed.

(** X19. The list of models the comparison service answers with is the
    list of the provider service as it is: the price the service looks up
    for each entry is the price the entry already carries. *)
Theorem service_getAvailableModels_unchanged (models : gmap string BaseChatModel) :
  ComparisonService.getAvailableModels models = LangChain.getAvailableModels models.
Proof.
  unfold ComparisonService.getAvailableModels. apply fmap_id_where.
  intros info Hin. unfold LangChain.getAvailableModels, pushIfHas in Hin.
  repeat (destruct (decide (is_Some _)) in Hin); cbn [app] in Hin;
    repeat (apply elem_of_cons in Hin as [->|Hin]; [done|]);
    by apply elem_of_nil in Hin.
Qed.

End Service.

(** ** auth.service.ts *)

Section Users.

Lemma find_split {A} (p : A -> bool) (l : list A) (x : A) :
  List.find p l = Some x ->
  exists l1 l2, l = l1 ++ x :: l2 /\ (forall y, y ∈ l1 -> p y = false) /\ p x = true.
Proof.
  induction l as [|y l IH]; [done|]. cbn [List.find].
  destruct (p y) eqn:Hy.
  - intros [= ->]. exists [], l. split; [done|]. split; [|done]. by intros ? ?%elem_of_nil.
  - intros (l1 & l2 & -> & Hl1 & Hx)%IH. exists (y :: l1), l2.
    split; [done|]. split; [|done]. by intros z [->|Hz]%elem_of_cons; [|apply Hl1].
Qed.

Lemma find_none_elem {A} (p : A -> bool) (l : list A) :
  List.find p l = None -> forall x, x ∈ l -> p x = false.
Proof.
  induction l as [|y l IH]; [by intros _ ? ?%elem_of_nil|]. cbn [List.find].
  destruct (p y) eqn:Hy; [done|]. intros Hnone x [->|Hx]%elem_of_cons; [done|by apply IH].
Qed.

(** The first row that matches after [save]: the saved entity. *)
Lemma find_saved (p : User.t -> bool) (f : User.t -> User.t) (saved : User.t)
    (l1 rest : list User.t) :
  p saved = true ->
  (forall y, y ∈ l1 -> f y = saved \/ p (f y) = false) ->
  List.find p ((f <$> l1) ++ saved :: rest) = Some saved.
Proof.
  intros Hsaved. induction l1 as [|y l1 IH]; intros Hl1.
  - cbn. by rewrite Hsaved.
  - rewrite fmap_cons. cbn [app List.find].
    destruct (Hl1 y ltac:(by left)) as [-> | ->].
    + by rewrite Hsaved.
    + apply IH. intros z Hz. apply Hl1. by right.
Qed.

(** X20. The user [createOrUpdateUser] returns is active, carries the
    identity and the e-mail address of the login, and is the user
    [findUserByAuth0Id] and [getUserFromRequest] return for that identity
    from then on, also when the account had been deactivated. A login with a
    known identity adds no row and keeps the key of the stored row; a login
    with a new one appends one row under the new key. *)
Theorem createOrUpdateUser_then_find (newId : string) (auth0User : AuthService.Auth0User)
    (users : list User.t) :
  let result := AuthService.createOrUpdateUser newId auth0User users in
  AuthService.findUserByAuth0Id (AuthService.auth0Id auth0User) result.1 = Some result.2
  /\ ComparisonService.getUserFromRequest (AuthService.auth0Id auth0User) result.1
     = Resolved result.2
  /\ User.auth0Id result.2 = AuthService.auth0Id auth0User
  /\ User.email result.2 = AuthService.email auth0User
  /\ User.isActive result.2 = true
  /\ ((exists u, u ∈ users /\ User.auth0Id u = AuthService.auth0Id auth0User) ->
        length result.1 = length users
        /\ User.id <$> result.1 = User.id <$> users
        /\ User.id result.2 ∈ User.id <$> users)
  /\ ((forall u, u ∈ users -> User.auth0Id u ≠ AuthService.auth0Id auth0User) ->
        result.1 = users ++ [result.2] /\ User.id result.2 = newId).
Proof.
  intros result. subst result. unfold AuthService.createOrUpdateUser.
  assert (Hreq : forall (users' : list User.t) (u : User.t),
            AuthService.findUserByAuth0Id (AuthService.auth0Id auth0User) users' = Some u ->
            ComparisonService.getUserFromRequest (AuthService.auth0Id auth0User) users'
            = Resolved u).
  { intros users' u Hu. unfold ComparisonService.getUserFromRequest. by rewrite Hu. }
  destruct (List.find _ users) as [existingUser|] eqn:Hfind; cbn [fst snd].
  - apply find_split in Hfind as (l1 & l2 & -> & Hl1 & Hex).
    apply bool_decide_eq_true in Hex.
    set (updated := {| User.id := User.id existingUser |}).
    assert (Hfound : AuthService.findUserByAuth0Id (AuthService.auth0Id auth0User)
                       (AuthService.save updated (l1 ++ existingUser :: l2)) = Some updated).
    { unfold AuthService.findUserByAuth0Id, AuthService.save.
      rewrite fmap_app, fmap_cons.
      rewrite (decide_True (P := User.id existingUser = User.id updated)) by done.
      apply find_saved.
      - unfold updated. cbn [User.auth0Id User.isActive]. by rewrite bool_decide_eq_true_2.
      - intros y Hy. cbn beta.
        destruct (decide (User.id y = User.id updated)); [by left|right].
        specialize (Hl1 y Hy). cbn beta in Hl1. by rewrite Hl1. }
    split; [done|]. split; [by apply Hreq|]. split; [done|]. split; [done|]. split; [done|].
    split.
    + intros _. unfold AuthService.save. rewrite length_fmap. split; [done|]. split.
      * rewrite <- list_fmap_compose. apply list_fmap_ext. intros _ u _. unfold compose.
        by destruct (decide (User.id u = User.id updated)).
      * unfold updated. cbn [User.id]. apply list_elem_of_fmap_2, elem_of_app. right. by left.
    + intros Hnew. exfalso. apply (Hnew existingUser); [|done].
      apply elem_of_app. right. by left.
  - pose proof (find_none_elem _ _ Hfind) as Hold.
    set (newUser := {| User.id := newId |}).
    assert (Hfound : AuthService.findUserByAuth0Id (AuthService.auth0Id auth0User)
                       (users ++ [newUser]) = Some newUser).
    { unfold AuthService.findUserByAuth0Id. rewrite find_app_r.
      - unfold newUser. cbn [List.find User.auth0Id User.isActive].
        by rewrite bool_decide_eq_true_2.
      - intros u Hu. specialize (Hold u Hu). cbn beta in Hold. by rewrite Hold. }
    split; [done|]. split; [by apply Hreq|]. split; [done|]. split; [done|]. split; [done|].
    split; [|done].
    intros (u & Hu & Hau). specialize (Hold u Hu). cbn beta in Hold.
    by rewrite bool_decide_eq_true_2 in Hold.
Qed.

(** X21. After [deactivateUser] no lookup by that identity finds a user,
    and [getUserFromRequest] rejects with [User not found]; the rows of that
    identity stay stored, inactive; the lookups by any other identity answer
    as before; deactivating again changes nothing. *)
Theorem deactivateUser_hides_user (auth0Id : string) (users : list User.t) :
  let users' := AuthService.deactivateUser auth0Id users in
  AuthService.findUserByAuth0Id auth0Id users' = None
  /\ ComparisonService.getUserFromRequest auth0Id users'
     = Rejected (ErrorOf "User not found")
  /\ User.id <$> users' = User.id <$> users
  /\ User.auth0Id <$> users' = User.auth0Id <$> users
  /\ (forall u, u ∈ users' -> User.auth0Id u = auth0Id -> User.isActive u = false)
  /\ (forall other, other ≠ auth0Id ->
        AuthService.findUserByAuth0Id other users'
        = AuthService.findUserByAuth0Id other users)
  /\ AuthService.deactivateUser auth0Id users' = users'.
Proof.
  intros users'. subst users'.
  assert (Hnone : AuthService.findUserByAuth0Id auth0Id
                    (AuthService.deactivateUser auth0Id users) = None).
  { unfold AuthService.findUserByAuth0Id, AuthService.deactivateUser.
    rewrite <- (app_nil_r (_ <$> users)). rewrite find_app_r; [done|].
    intros u (u0 & -> & _)%list_elem_of_fmap.
    destruct (decide (User.auth0Id u0 = auth0Id)) as [Hu|Hu].
    - cbn [AuthService.setInactive User.isActive]. apply andb_false_r.
    - by rewrite bool_decide_eq_false_2. }
  split; [done|].
  split; [unfold ComparisonService.getUserFromRequest; by rewrite Hnone|].
  unfold AuthService.deactivateUser.
  split; [|split; [|split; [|split]]].
  - rewrite <- list_fmap_compose. apply list_fmap_ext. intros _ u _. unfold compose.
    by destruct (decide (User.auth0Id u = auth0Id)).
  - rewrite <- list_fmap_compose. apply list_fmap_ext. intros _ u _. unfold compose.
    by destruct (decide (User.auth0Id u = auth0Id)).
  - intros u (u0 & -> & _)%list_elem_of_fmap.
    by destruct (decide (User.auth0Id u0 = auth0Id)).
  - intros other Hother. unfold AuthService.findUserByAuth0Id.
    rewrite find_fmap_stable.
    + destruct (List.find _ users) as [u|] eqn:Hfind; [|done].
      cbn [fmap option_fmap option_map].
      apply find_split in Hfind as (_ & _ & _ & _ & Hu).
      apply andb_true_iff in Hu as [Hu%bool_decide_eq_true _].
      rewrite decide_False; [done|congruence].
    + intros u. destruct (decide (User.auth0Id u = auth0Id)) as [Hu|Hu]; [|done].
      cbn [AuthService.setInactive User.auth0Id User.isActive].
      by rewrite !bool_decide_eq_false_2 by congruence.
  - rewrite <- list_fmap_compose. apply list_fmap_ext. intros _ u _. unfold compose.
    destruct (decide (User.auth0Id u = auth0Id)) as [Hu|Hu].
    + by rewrite decide_True.
    + by rewrite decide_False.
Qed.

(** X22. With the keys and the identities of the stored users each
    without repetition, and a new key that no stored user has,
    [createOrUpdateUser] keeps it so, leaves every user of another identity
    as stored, in place, and returns the user [findUserById] finds under the
    key it returns. *)
Theorem createOrUpdateUser_keeps_users_apart (newId : string)
    (auth0User : AuthService.Auth0User) (users : list User.t) :
  NoDup (User.id <$> users) ->
  NoDup (User.auth0Id <$> users) ->
  newId ∉ User.id <$> users ->
  let result := AuthService.createOrUpdateUser newId auth0User users in
  NoDup (User.id <$> result.1)
  /\ NoDup (User.auth0Id <$> result.1)
  /\ (forall i u, users !! i = Some u ->
        User.auth0Id u ≠ AuthService.auth0Id auth0User ->
        result.1 !! i = Some u)
  /\ AuthService.findUserById (User.id result.2) result.1 = Some result.2.
Proof.
  intros Hids Hauth Hnew result. subst result. unfold AuthService.createOrUpdateUser.
  destruct (List.find _ users) as [existingUser|] eqn:Hfind; cbn [fst snd].
  - destruct (find_split _ _ _ Hfind) as (l1 & l2 & Husers & _ & Hex).
    apply bool_decide_eq_true in Hex.
    assert (Hin : existingUser ∈ users)
      by (rewrite Husers; apply elem_of_app; right; by left).
    set (updated := {| User.id := User.id existingUser |}).
    assert (Hbyid : AuthService.findUserById (User.id updated)
                      (AuthService.save updated users) = Some updated).
    { unfold AuthService.findUserById, AuthService.save.
      rewrite Husers, fmap_app, fmap_cons.
      rewrite (decide_True (P := User.id existingUser = User.id updated)) by done.
      apply find_saved.
      - unfold updated. cbn [User.id User.isActive]. by rewrite bool_decide_eq_true_2.
      - intros y Hy. cbn beta.
        destruct (decide (User.id y = User.id updated)) as [|Hne]; [by left|right].
        by rewrite bool_decide_eq_false_2. }
    clear Husers l1 l2.
    assert (Hsame : forall u, u ∈ users -> User.id u = User.id updated -> u = existingUser).
    { intros u Hu Hid. by apply (NoDup_fmap_eq User.id users). }
    split; [|split; [|split; [|exact Hbyid]]]; clear Hbyid; unfold AuthService.save.
    + replace (User.id <$> _) with (User.id <$> users); [done|].
      rewrite <- list_fmap_compose. apply list_fmap_ext. intros _ u _. unfold compose.
      by destruct (decide (User.id u = User.id updated)).
    + replace (User.auth0Id <$> _) with (User.auth0Id <$> users); [done|].
      rewrite <- list_fmap_compose. apply list_fmap_ext. intros i u Hu. unfold compose.
      destruct (decide (User.id u = User.id updated)) as [Hid|]; [|done].
      by rewrite (Hsame u (list_elem_of_lookup_2 _ _ _ Hu) Hid).
    + intros i u Hu Hother. rewrite list_lookup_fmap, Hu. cbn [fmap option_fmap option_map].
      destruct (decide (User.id u = User.id updated)) as [Hid|]; [|done].
      rewrite (Hsame u (list_elem_of_lookup_2 _ _ _ Hu) Hid) in Hother. congruence.
  - pose proof (find_none_elem _ _ Hfind) as Hold.
    set (newUser := {| User.id := newId |}).
    split; [|split; [|split]].
    + rewrite fmap_app. apply NoDup_app. split; [done|]. split; [|apply NoDup_singleton].
      intros x Hx ->%list_elem_of_singleton. by apply Hnew.
    + rewrite fmap_app. apply NoDup_app. split; [done|]. split; [|apply NoDup_singleton].
      intros x (u & -> & Hu)%list_elem_of_fmap Heq%list_elem_of_singleton.
      specialize (Hold u Hu). cbn beta in Hold. by rewrite bool_decide_eq_true_2 in Hold.
    + intros i u Hu _. by apply lookup_app_l_Some.
    + unfold AuthService.findUserById. rewrite find_app_r.
      * unfold newUser. cbn [List.find User.id User.isActive].
        by rewrite bool_decide_eq_true_2.
      * intros u Hu. rewrite bool_decide_eq_false_2; [done|].
        intros Hid. apply Hnew. unfold newUser in Hid. cbn [User.id] in Hid.
        rewrite <- Hid. by apply list_elem_of_fmap_2.
Qed.

End Users.

(** ** comparison.gateway.ts: who observes which session *)

Section Observers.

Implicit Types (activeSessions : gmap string (gset string)) (client sessionId : string).

Lemma only_client (clients : gset string) client client' :
  size (clients ∖ {[client]}) = 0%nat -> client' ∈ clients -> client' = client.
Proof.
  intros Hz%size_empty_inv Hin. destruct (decide (client' = client)) as [|Hne]; [done|].
  exfalso. apply (not_elem_of_empty (C := gset string) client'). rewrite <- Hz.
  apply elem_of_difference. split; [done|]. by intros ?%elem_of_singleton.
Qed.

Lemma difference_absent (clients : gset string) client :
  client ∉ clients -> clients ∖ {[client]} = clients.
Proof.
  intros Hout. apply set_eq. intros x. rewrite elem_of_difference, elem_of_singleton.
  split; [by intros [? _]|]. intros Hx. split; [done|]. by intros ->.
Qed.

Lemma join_leave_clients (clients : gset string) client :
  client ∉ clients -> (clients ∪ {[client]}) ∖ {[client]} = clients.
Proof.
  intros Hout. apply set_eq. intros x.
  rewrite elem_of_difference, elem_of_union, elem_of_singleton.
  split; [by intros [[?|?] ?]|]. intros Hx. split; [by left|]. by intros ->.
Qed.

Lemma size_nonempty (clients : gset string) :
  clients ≠ ∅ -> size clients ≠ 0%nat.
Proof. intros Hne Hz%size_empty_inv. apply Hne. by apply leibniz_equiv. Qed.

Lemma observes_join activeSessions client sessionId sessionId' client' :
  Gateway.observes (Gateway.handleJoinSession client sessionId true activeSessions).1
    sessionId' client'
  <-> Gateway.observes activeSessions sessionId' client'
      \/ (client' = client /\ sessionId' = sessionId).
Proof.
  unfold Gateway.observes, Gateway.handleJoinSession. cbn [fst].
  destruct (decide (sessionId' = sessionId)) as [->|Hne].
  - destruct (activeSessions !! sessionId) as [clients|] eqn:Hs.
    + rewrite lookup_alter_eq, Hs. cbn. split.
      * intros (? & [= <-] & Hin). apply elem_of_union in Hin as [Hin|Hin%elem_of_singleton].
        -- left. by exists clients.
        -- by right.
      * intros [(? & [= <-] & Hin)|[-> _]]; eexists; (split; [done|]);
          apply elem_of_union; [by left|right; by apply elem_of_singleton].
    + rewrite lookup_alter_eq, lookup_insert_eq. cbn. split.
      * intros (? & [= <-] & Hin). right.
        apply elem_of_union in Hin as [Hin%elem_of_empty|Hin%elem_of_singleton]; done.
      * intros [(? & [=] & _)|[-> _]]. eexists. split; [done|].
        apply elem_of_union. right. by apply elem_of_singleton.
  - assert (forall m : gmap string (gset string),
              alter (fun clients => clients ∪ {[client]}) sessionId m !! sessionId'
              = m !! sessionId') as Halter
      by (intros m; by rewrite lookup_alter_ne).
    destruct (activeSessions !! sessionId) as [clients|] eqn:Hs.
    + rewrite Halter. split; [by left|]. by intros [?|[_ ?]].
    + rewrite Halter, lookup_insert_ne by done. split; [by left|]. by intros [?|[_ ?]].
Qed.

Lemma observes_leave activeSessions client sessionId sessionId' client' :
  Gateway.observes (Gateway.handleLeaveSession client sessionId activeSessions).1
    sessionId' client'
  <-> Gateway.observes activeSessions sessionId' client'
      /\ ~ (client' = client /\ sessionId' = sessionId).
Proof.
  unfold Gateway.observes, Gateway.handleLeaveSession. cbn [fst].
  destruct (activeSessions !! sessionId) as [clients|] eqn:Hs.
  - destruct (decide (sessionId' = sessionId)) as [->|Hne].
    + rewrite Hs. destruct (decide (size (clients ∖ {[client]}) = 0%nat)) as [Hz|Hnz].
      * rewrite lookup_delete_eq. split.
        -- by intros (? & [=] & _).
        -- intros [(? & [= <-] & Hin) Hnot]. exfalso. apply Hnot. split; [|done].
           by eapply only_client.
      * rewrite lookup_insert_eq. split.
        -- intros (? & [= <-] & [Hin Hout]%elem_of_difference).
           split; [by exists clients|]. intros [-> _]. by apply Hout, elem_of_singleton.
        -- intros [(? & [= <-] & Hin) Hnot]. eexists. split; [done|].
           apply elem_of_difference. split; [done|]. intros ->%elem_of_singleton.
           by apply Hnot.
    + destruct (decide (size (clients ∖ {[client]}) = 0%nat)).
      * rewrite lookup_delete_ne by done. split; [|by intros [? _]].
        intros H. split; [done|]. by intros [_ ?].
      * rewrite lookup_insert_ne by done. split; [|by intros [? _]].
        intros H. split; [done|]. by intros [_ ?].
  - split; [|by intros [? _]]. intros (clients & Hc & Hin). split; [by exists clients|].
    intros [_ ->]. by rewrite Hs in Hc.
Qed.

Lemma observes_disconnect activeSessions client sessionId' client' :
  Gateway.observes (Gateway.handleDisconnect client activeSessions) sessionId' client'
  <-> Gateway.observes activeSessions sessionId' client' /\ client' ≠ client.
Proof.
  unfold Gateway.observes, Gateway.handleDisconnect. rewrite lookup_omap.
  destruct (activeSessions !! sessionId') as [clients|]; cbn.
  - destruct (decide (size (clients ∖ {[client]}) = 0%nat)) as [Hz|Hnz].
    + split; [by intros (? & [=] & _)|].
      intros [(? & [= <-] & Hin) Hne]. exfalso. apply Hne. by eapply only_client.
    + split.
      * intros (? & [= <-] & [Hin Hout]%elem_of_difference).
        split; [by exists clients|]. intros ->. by apply Hout, elem_of_singleton.
      * intros [(? & [= <-] & Hin) Hne]. eexists. split; [done|].
        apply elem_of_difference. split; [done|]. by intros ?%elem_of_singleton.
  - split; [by intros (? & [=] & _)|]. by intros [(? & [=] & _) _].
Qed.

Lemma noEmptyRoom_handle activeSessions message :
  noEmptyRoom activeSessions -> noEmptyRoom (Gateway.handle activeSessions message).
Proof.
  unfold noEmptyRoom. intros Hinv sessionId' clients'.
  destruct message as [client sessionId|client sessionId|client];
    cbn [Gateway.handle Gateway.handleJoinSession Gateway.handleLeaveSession fst].
  - destruct (decide (sessionId' = sessionId)) as [->|Hne].
    + destruct (activeSessions !! sessionId) as [clients|] eqn:Hs.
      * rewrite lookup_alter_eq, Hs. cbn. intros [= <-] Hempty.
        apply (not_elem_of_empty (C := gset string) client). rewrite <- Hempty.
        apply elem_of_union. right. by apply elem_of_singleton.
      * rewrite lookup_alter_eq, lookup_insert_eq. cbn. intros [= <-] Hempty.
        apply (not_elem_of_empty (C := gset string) client). rewrite <- Hempty.
        apply elem_of_union. right. by apply elem_of_singleton.
    + destruct (activeSessions !! sessionId) as [clients|] eqn:Hs.
      * rewrite lookup_alter_ne by done. apply Hinv.
      * rewrite lookup_alter_ne, lookup_insert_ne by done. apply Hinv.
  - destruct (activeSessions !! sessionId) as [clients|] eqn:Hs; [|apply Hinv].
    destruct (decide (size (clients ∖ {[client]}) = 0%nat)) as [Hz|Hnz].
    + intros [_ Hl]%lookup_delete_Some. by apply (Hinv sessionId').
    + destruct (decide (sessionId' = sessionId)) as [->|Hne].
      * rewrite lookup_insert_eq. intros [= <-] Hempty. apply Hnz.
        rewrite Hempty. apply size_empty.
      * rewrite lookup_insert_ne by done. apply Hinv.
  - unfold Gateway.handleDisconnect. rewrite lookup_omap.
    destruct (activeSessions !! sessionId') as [clients|]; cbn; [|done].
    destruct (decide (size (clients ∖ {[client]}) = 0%nat)) as [Hz|Hnz]; [done|].
    intros [= <-] Hempty. apply Hnz. rewrite Hempty. apply size_empty.
Qed.

(** X23. From the start of the gateway and after any sequence of
    [join_session], [leave_session] and disconnections, a client is recorded
    as an observer of a session exactly when the last of its own messages
    that concerns the session (a join or a leave of that session, or its
    disconnection) is a join; the messages of other clients and about other
    sessions do not change that. No session is recorded with an empty set of
    observers. *)
Theorem observers_after_messages (messages : list Gateway.Message)
    (sessionId client : string) :
  let activeSessions := foldl Gateway.handle ∅ messages in
  (Gateway.observes activeSessions sessionId client
   <-> foldl (follows sessionId client) false messages = true)
  /\ noEmptyRoom activeSessions.
Proof.
  cbv zeta. induction messages as [|message messages [IH Hinv]] using rev_ind.
  - cbn. split; [|apply map_Forall_empty].
    split; [|done]. intros (clients & Hc & _). by rewrite lookup_empty in Hc.
  - rewrite !foldl_app. cbn [foldl]. split; [|by apply noEmptyRoom_handle].
    destruct message as [client' sessionId'|client' sessionId'|client'];
      cbn [Gateway.handle follows].
    + rewrite observes_join, IH.
      destruct (decide (client' = client /\ sessionId' = sessionId)) as [[-> ->]|Hne].
      * split; [done|]. intros _. by right.
      * split; [|by left]. intros [?|[-> ->]]; [done|]. by destruct Hne.
    + rewrite observes_leave, IH.
      destruct (decide (client' = client /\ sessionId' = sessionId)) as [[-> ->]|Hne].
      * split; [|done]. intros [_ Hnot]. by destruct Hnot.
      * split; [by intros [? _]|]. intros H. split; [done|].
        intros [-> ->]. by apply Hne.
    + rewrite observes_disconnect, IH.
      destruct (decide (client' = client)) as [->|Hne].
      * split; [|done]. by intros [_ ?].
      * split; [by intros [? _]|]. intros H. split; [done|]. congruence.
Qed.

(** X24. With no session recorded with an empty set of observers: a
    client that does not observe a session and joins it, then leaves it,
    leaves the record as it was; and the [leave_session] of a client that
    does not observe the session changes nothing. A [join_session] whose
    [client.join] fails records nothing and is answered with an error. *)
Theorem join_then_leave_restores (activeSessions : gmap string (gset string))
    (client sessionId : string) :
  noEmptyRoom activeSessions ->
  ~ Gateway.observes activeSessions sessionId client ->
  (Gateway.handleLeaveSession client sessionId
     (Gateway.handleJoinSession client sessionId true activeSessions).1).1
  = activeSessions
  /\ (Gateway.handleLeaveSession client sessionId activeSessions).1 = activeSessions
  /\ Gateway.handleJoinSession client sessionId false activeSessions
     = (activeSessions, Gateway.error "Failed to join session").
Proof.
  intros Hinv Hnot. unfold Gateway.handleLeaveSession, Gateway.handleJoinSession.
  cbn [fst]. split; [|split; [|done]].
  - destruct (activeSessions !! sessionId) as [clients|] eqn:Hs.
    + assert (client ∉ clients) as Hout by (intros Hin; apply Hnot; by exists clients).
      rewrite lookup_alter_eq, Hs. cbn [fmap option_fmap option_map].
      rewrite join_leave_clients by done.
      rewrite decide_False by (apply size_nonempty, (Hinv _ _ Hs)).
      apply map_eq. intros i. destruct (decide (i = sessionId)) as [->|Hne].
      * by rewrite lookup_insert_eq.
      * by rewrite lookup_insert_ne, lookup_alter_ne.
    + rewrite lookup_alter_eq, lookup_insert_eq. cbn [fmap option_fmap option_map].
      rewrite join_leave_clients by apply not_elem_of_empty.
      rewrite decide_True by apply size_empty.
      apply map_eq. intros i. destruct (decide (i = sessionId)) as [->|Hne].
      * by rewrite lookup_delete_eq.
      * by rewrite lookup_delete_ne, lookup_alter_ne, lookup_insert_ne.
  - destruct (activeSessions !! sessionId) as [clients|] eqn:Hs; [|done].
    assert (client ∉ clients) as Hout by (intros Hin; apply Hnot; by exists clients).
    rewrite difference_absent by done.
    rewrite decide_False by (apply size_nonempty, (Hinv _ _ Hs)).
    by apply insert_id.
Qed.

End Observers.

(** ** lib/utils.ts *)

Section Truncating.

Lemma substring0_append n s t :
  String.length s = n -> Js.substring0 n (s +:+ t) = s.
Proof.
  unfold Js.substring0. revert n. induction s as [|c s IH]; intros n Hn; cbn in Hn; subst n.
  - by destruct t.
  - change (String c s +:+ t) with (String c (s +:+ t)). cbn. f_equal. by apply IH.
Qed.

Lemma substring0_idem n s : Js.substring0 n (Js.substring0 n s) = Js.substring0 n s.
Proof. apply substring0_short. rewrite substring0_length. lia. Qed.

(** X25. [truncateText] returns a text of at most [maxLength] characters
    as it is, and otherwise its first [maxLength] characters followed by
    three dots; the result has at most [maxLength + 3] characters and starts
    as the text does; truncating a second time changes nothing. The prompt
    of a history item is the prompt of the session truncated this way at 100
    characters. *)
Theorem truncateText_shape (text : string) (maxLength : nat) :
  let shown := Utils.truncateText text maxLength in
  ((String.length text <= maxLength)%nat -> shown = text)
  /\ ((maxLength < String.length text)%nat ->
        shown = Js.substring0 maxLength text +:+ "..."
        /\ String.length shown = (maxLength + 3)%nat)
  /\ Js.substring0 maxLength shown = Js.substring0 maxLength text
  /\ Utils.truncateText shown maxLength = shown
  /\ (forall session responses,
        ComparisonSession.prompt session = text ->
        hi_prompt (summarize (session, responses)) = Utils.truncateText text 100).
Proof.
  cbv zeta.
  assert (Hhistory : forall session responses,
            ComparisonSession.prompt session = text ->
            hi_prompt (summarize (session, responses)) = Utils.truncateText text 100).
  { intros session responses <-. unfold summarize, Utils.truncateText. cbn [hi_prompt].
    destruct (decide (String.length (ComparisonSession.prompt session) <= 100)%nat).
    - rewrite decide_False by lia. by rewrite append_empty_r, substring0_short.
    - by rewrite decide_True by lia. }
  split; [|split; [|split; [|split; [|exact Hhistory]]]]; clear Hhistory;
    unfold Utils.truncateText.
  - intros Hshort. by rewrite decide_True.
  - intros Hlong. rewrite decide_False by lia. split; [done|].
    rewrite append_length, substring0_length. cbn. lia.
  - destruct (decide (String.length text <= maxLength)%nat) as [Hshort|Hlong]; [done|].
    apply substring0_append. rewrite substring0_length. lia.
  - destruct (decide (String.length text <= maxLength)%nat) as [Hshort|Hlong].
    + by rewrite decide_True.
    + assert (Hlen : String.length (Js.substring0 maxLength text) = maxLength)
        by (rewrite substring0_length; lia).
      rewrite decide_False.
      * by rewrite substring0_append.
      * rewrite append_length, Hlen. cbn. lia.
Qed.

End Truncating.

(** ** The further statements on the scenario *)

Lemma listed_models_are_priced_witness :
  let info := {| LangChain.id := "gpt-4"; name := "GPT-4"; provider := "openai";
                 pricing := {| input := 3 # 100; output := 6 # 100 |} |} in
  pricingMap !! "gpt-4" = Some (pricing info)
  /\ pricing info = getPricing "gpt-4"
  /\ (0 < input (pricing info))%Q
  /\ (input (pricing info) <= output (pricing info))%Q
  /\ initializeModels Scenario.cfg !! "gpt-4" = clientOf "openai" "gpt-4".
Proof.
  apply (listed_models_are_priced Scenario.cfg
           {| LangChain.id := "gpt-4"; name := "GPT-4"; provider := "openai";
              pricing := {| input := 3 # 100; output := 6 # 100 |} |}).
  vm_compute. right. left.
Defined.

Lemma calculateCost_monotone_witness :
  (0 <= calculateCost "gpt-4" 5 8)%Q
  /\ (calculateCost "gpt-4" 5 8 <= calculateCost "gpt-4" 10 8)%Q
  /\ (pricingMap !! "gpt-4" = None -> (calculateCost "gpt-4" 10 8 == 0)%Q).
Proof.
  apply (calculateCost_monotone "gpt-4" 5 8 10 8).
  - apply (bool_decide_unpack _). vm_compute. exact I.
  - lia.
  - lia.
Defined.

Lemma streamResponse_chunks_keep_text_witness :
  let events := streamResponse Scenario.models "gpt-4" "Explain recursion"
                  Scenario.answering in
  Forall (fun chunk => chunk ≠ EmptyString) (chunksOf events)
  /\ chunksOf events = List.filter hasContent (streamed Scenario.answering)
  /\ concatenation (chunksOf events) = concatenation (streamed Scenario.answering)
  /\ (failure Scenario.answering = None ->
        exists metrics,
          last events = Some (Complete metrics)
          /\ inputTokens metrics = countTokens Scenario.answering "Explain recursion"
          /\ outputTokens metrics
             = countTokens Scenario.answering (concatenation (streamed Scenario.answering))
          /\ cost metrics
             = calculateCost "gpt-4" (inputTokens metrics) (outputTokens metrics)
          /\ responseTimeMs metrics = elapsed Scenario.answering).
Proof.
  apply (streamResponse_chunks_keep_text Scenario.models "gpt-4" "Explain recursion"
           Scenario.answering).
  vm_compute. eexists. reflexivity.
Defined.

Lemma estimateTokens_bounds_witness :
  2 <= estimateTokens "Explain recursion" <= 18.
Proof. apply (estimateTokens_bounds "Explain recursion"). discriminate. Defined.

Lemma response_update_missing_key_witness :
  Database.updateModelResponse 7 (Database.setStreaming "late") Scenario.afterRun
    = Scenario.afterRun
  /\ Database.finalizeModelResponse 7 Scenario.metrics Scenario.afterRun = Scenario.afterRun
  /\ Database.markResponseAsError 7 "late" Scenario.afterRun = Scenario.afterRun.
Proof.
  apply (response_update_missing_key 7 (Database.setStreaming "late") Scenario.metrics
           "late" Scenario.afterRun).
  apply Forall_forall. apply (bool_decide_unpack _). vm_compute. exact I.
Defined.

Lemma resolved_session_completed_with_totals_witness :
  let run := startComparisonStreaming Scenario.models "s1" "u1" Scenario.requested
               Scenario.sdk Scenario.schedule Scenario.reliable Scenario.db0 in
  (exists s, s ∈ Database.sessions (final run)
             /\ ComparisonSession.id s = "s1"
             /\ ComparisonSession.userId s = "u1")
  /\ (forall s, s ∈ Database.sessions (final run) ->
        ComparisonSession.id s = "s1" ->
        ComparisonSession.status s = ComparisonSession.completed)
  /\ (forall s, s ∈ Database.sessions (final run) ->
        ComparisonSession.id s = "s1" ->
        let rows := Database.responses (final run) in
        ComparisonSession.totalTokens s = Aggregates.sumTokens "s1" rows
        /\ (ComparisonSession.totalCost s == Aggregates.sumCost "s1" rows)%Q
        /\ ComparisonSession.averageResponseTime s
           = (if decide (0 < Aggregates.howMany "s1" rows)%nat
              then inject_Z (Aggregates.sumTime "s1" rows)
                   / inject_Z (Z.of_nat (Aggregates.howMany "s1" rows))
              else 0)%Q).
Proof.
  destruct (resolved_session_completed_with_totals Scenario.models "s1" "u1"
              Scenario.requested Scenario.sdk Scenario.schedule Scenario.reliable
              Scenario.db0) as (Hstored & Hstatus & Htotals).
  - vm_compute. reflexivity.
  - split; [exact Hstored|]. split; [exact Hstatus|].
    apply Htotals. intros j. reflexivity.
Defined.

Lemma failed_stream_keeps_partial_text_witness :
  let run := startComparisonStreaming Scenario.models "s1" "u1" Scenario.requested
               sdkInterrupted Scenario.schedule Scenario.reliable Scenario.db0 in
  exists r,
    r ∈ Database.responses (final run)
    /\ (forall r0, r0 ∈ Database.responses Scenario.db0 ->
          ModelResponse.id r0 ≠ ModelResponse.id r)
    /\ ModelResponse.sessionId r = "s1"
    /\ ModelResponse.modelId r = "claude-sonnet-4-20250514"
    /\ ModelResponse.response r = Some "Recursion"
    /\ ModelResponse.status r = ModelResponse.error
    /\ ModelResponse.errorMessage r = Some "socket hang up"
    /\ ModelResponse.inputTokens r = None
    /\ ModelResponse.outputTokens r = None
    /\ ModelResponse.cost r = None
    /\ ModelResponse.responseTimeMs r = None
    /\ Aggregates.counted "s1" r = false.
Proof.
  apply (failed_stream_keeps_partial_text Scenario.models "s1" "u1" Scenario.requested
           sdkInterrupted Scenario.schedule Scenario.reliable Scenario.db0
           "claude-sonnet-4-20250514" ["Rec"; "ursion"] "socket hang up").
  - intros j. reflexivity.
  - vm_compute. reflexivity.
  - vm_compute. reflexivity.
Defined.

Lemma createComparison_then_getComparison_witness :
  let dto := {| ComparisonService.prompt := "Compare sorting algorithms";
                ComparisonService.modelIds := Some ["gpt-4"] |} in
  let result := ComparisonService.createComparison "s2" 1700000100 dto "u1"
                  Scenario.afterRun in
  ComparisonService.c_models result.2 = ["gpt-4"]
  /\ getComparison "s2" "u1" result.1
     = Resolved {| sv_id := "s2";
                   sv_prompt := "Compare sorting algorithms";
                   sv_status := ComparisonSession.pending;
                   sv_totalTokens := 0;
                   sv_totalCost := 0;
                   sv_averageResponseTime := 0;
                   sv_createdAt := 1700000100;
                   sv_updatedAt := 1700000100;
                   sv_responses := [] |}
  /\ getComparison "s2" "u2" result.1
     = Rejected (ErrorOf ("Session " +:+ "s2" +:+ " not found"))
  /\ getComparison "s1" "u1" result.1 = getComparison "s1" "u1" Scenario.afterRun.
Proof.
  destruct (createComparison_then_getComparison "s2" 1700000100
              {| ComparisonService.prompt := "Compare sorting algorithms";
                 ComparisonService.modelIds := Some ["gpt-4"] |}
              "u1" Scenario.afterRun)
    as (_ & _ & _ & Hgiven & _ & Hget & Hother & Hrest).
  - apply Forall_forall. apply (bool_decide_unpack _). vm_compute. exact I.
  - apply Forall_forall. apply (bool_decide_unpack _). vm_compute. exact I.
  - split; [by apply Hgiven|]. split; [exact Hget|].
    split; [by apply Hother|by apply Hrest].
Defined.

Lemma createOrUpdateUser_keeps_users_apart_witness :
  let result := AuthService.createOrUpdateUser "u3" login storedUsers in
  NoDup (User.id <$> result.1)
  /\ NoDup (User.auth0Id <$> result.1)
  /\ (forall i u, storedUsers !! i = Some u ->
        User.auth0Id u ≠ AuthService.auth0Id login ->
        result.1 !! i = Some u)
  /\ AuthService.findUserById (User.id result.2) result.1 = Some result.2.
Proof.
  apply (createOrUpdateUser_keeps_users_apart "u3" login storedUsers).
  - apply (bool_decide_unpack _). vm_compute. exact I.
  - apply (bool_decide_unpack _). vm_compute. exact I.
  - apply (bool_decide_unpack _). vm_compute. exact I.
Defined.

Lemma join_then_leave_restores_witness :
  let activeSessions :=
    foldl Gateway.handle ∅ [Gateway.join_session "c1" "s1"; Gateway.join_session "c1" "s2"] in
  (Gateway.handleLeaveSession "c2" "s1"
     (Gateway.handleJoinSession "c2" "s1" true activeSessions).1).1
  = activeSessions
  /\ (Gateway.handleLeaveSession "c2" "s1" activeSessions).1 = activeSessions
  /\ Gateway.handleJoinSession "c2" "s1" false activeSessions
     = (activeSessions, Gateway.error "Failed to join session").
Proof.
  apply (join_then_leave_restores
           (foldl Gateway.handle ∅
              [Gateway.join_session "c1" "s1"; Gateway.join_session "c1" "s2"])
           "c2" "s1").
  - apply (bool_decide_unpack _). vm_compute. exact I.
  - apply (bool_decide_unpack _). vm_compute. exact I.
Defined.
